(** * Zonal statistics of raster values aggregated to vector geometries

    A shallow embedding of [rasterstats/main.py]: the generator
    [gen_zonal_stats], its per-feature pipeline (window acquisition,
    rasterization, masking, compression, statistics, custom statistics,
    output shaping) and the Python objects it reads and mutates.

    Conventions of the embedding:
    - numbers -- Python floats and the cells of an array, whatever its
      dtype -- are idealised as exact rationals ([Q]) kept in lowest terms
      ([Qred]): neither the rounding of binary64 nor the wrap-around of a
      fixed-width integer dtype is modelled. The properties below therefore
      speak of comparisons, of counts, of which operands a statement uses
      and of single operations on the code's own operands, not of
      identities between sums, products and quotients, which rounding
      breaks.
    - numpy arrays are two-dimensional: a shape and a list of rows.
    - dictionaries are finite maps ([gmap]); the feature dictionaries that
      the caller hands in live in a store and are referred to by location,
      so that in-place mutation and aliasing are visible.
    - the generator is run to exhaustion: it maps an initial state to a
      final status and a final state whose [trace] lists, in order, every
      observable effect (collaborator calls, prints, yields). *)

From Stdlib Require Import ZArith QArith Qreduction Ascii.
From stdpp Require Import base gmap strings list fin_maps.

Local Open Scope string_scope.
Local Open Scope list_scope.

(** ** Numbers *)

Global Instance Q_eq_dec : EqDecision Q.
Proof. solve_decision. Defined.

Global Instance Q_countable : Countable Q :=
  inj_countable' (λ q : Q, (Qnum q, Qden q)) (λ p, Qmake p.1 p.2)
    (λ q, match q with Qmake _ _ => eq_refl end).

Module Num.
Definition add (a b : Q) : Q := Qred (a + b).
Definition sub (a b : Q) : Q := Qred (a - b).
Definition mul (a b : Q) : Q := Qred (a * b).
(** The exact quotient, where the code divides in binary64. *)
Definition div (a b : Q) : Q := Qred (a / b).
Definition of_Z (z : Z) : Q := inject_Z z.
Definition of_nat (n : nat) : Q := inject_Z (Z.of_nat n).
Definition eqb (a b : Q) : bool := Qeq_bool a b.
Definition leb (a b : Q) : bool := Qle_bool a b.
(** The exact sum, where numpy adds in the dtype of the array. *)
Definition sum (l : list Q) : Q := foldl add 0%Q l.
(** [min]/[max] of a non-empty sequence; [None] on the empty one, where
    numpy raises. *)
Definition min (l : list Q) : option Q :=
  match l with
  | [] => None
  | x :: r => Some (foldl (λ m y, if leb m y then m else y) x r)
  end.
Definition max (l : list Q) : option Q :=
  match l with
  | [] => None
  | x :: r => Some (foldl (λ m y, if leb y m then m else y) x r)
  end.
End Num.

(** ** Exceptions and results *)

Inductive exn :=
| MemoryError
| AssertionError
| KeyError (k : string)
| UnboundLocalError (var : string)
| ValueError
| TypeError
| InvalidStatistic (name : string)
| InvalidPercentileSpec (name : string)
| UserError (code : nat).

Global Instance exn_eq_dec : EqDecision exn.
Proof. solve_decision. Defined.

Inductive result (A : Type) :=
| Ok (a : A)
| Raise (e : exn).
Arguments Ok {A} a.
Arguments Raise {A} e.

Definition rbind {A B} (r : result A) (k : A → result B) : result B :=
  match r with
  | Ok a => k a
  | Raise e => Raise e
  end.

(** ** numpy arrays *)

Record ndarray (A : Type) := NdArray {
  nd_shape : nat * nat;
  nd_rows : list (list A)
}.
Arguments NdArray {A} nd_shape nd_rows.
Arguments nd_shape {A} _.
Arguments nd_rows {A} _.

Global Instance ndarray_eq_dec `{EqDecision A} : EqDecision (ndarray A).
Proof. solve_decision. Defined.

Definition nd_map {A B} (f : A → B) (a : ndarray A) : ndarray B :=
  NdArray (nd_shape a) (map (map f) (nd_rows a)).

Definition nd_zip_with {A B C} (f : A → B → C) (a : ndarray A) (b : ndarray B)
  : ndarray C :=
  NdArray (nd_shape a) (zip_with (zip_with f) (nd_rows a) (nd_rows b)).

Definition nd_flat {A} (a : ndarray A) : list A := concat (nd_rows a).

(** Broadcasting of one dimension: equal extents, or one of them is 1. *)
Definition bdim (n m : nat) : option nat :=
  if (n =? m)%nat then Some n
  else if (n =? 1)%nat then Some m
  else if (m =? 1)%nat then Some n
  else None.

Definition stretch {A} (n : nat) (l : list A) : list A :=
  match l with
  | [x] => replicate n x
  | _ => l
  end.

(** Element-wise binary operation under numpy's broadcasting rule;
    incompatible shapes raise [ValueError]. *)
Definition nd_bcast {A B C} (f : A → B → C) (a : ndarray A) (b : ndarray B)
  : result (ndarray C) :=
  match bdim (nd_shape a).1 (nd_shape b).1, bdim (nd_shape a).2 (nd_shape b).2 with
  | Some r, Some c =>
      Ok (NdArray (r, c)
            (zip_with (λ ra rb, zip_with f (stretch c ra) (stretch c rb))
               (stretch r (nd_rows a)) (stretch r (nd_rows b))))
  | _, _ => Raise ValueError
  end.

(** [array == scalar]; comparing with [None] matches no cell. *)
Definition np_eq_scalar (a : ndarray Q) (v : option Q) : ndarray bool :=
  nd_map (λ x, match v with Some n => Num.eqb x n | None => false end) a.

Definition np_logical_not (a : ndarray bool) : ndarray bool := nd_map negb a.

Definition np_logical_or (a b : ndarray bool) : ndarray bool :=
  nd_zip_with orb a b.

Definition np_sum (a : ndarray Q) : Q := Num.sum (nd_flat a).

(** ** Masked arrays ([np.ma.MaskedArray]): the values and the mask, where
    [true] in the mask excludes the cell. *)

Record masked_array := MaskedArray {
  ma_data : ndarray Q;
  ma_mask : ndarray bool
}.

Global Instance masked_array_eq_dec : EqDecision masked_array.
Proof. solve_decision. Defined.

Definition ma_cells (m : masked_array) : list (Q * bool) :=
  nd_flat (nd_zip_with pair (ma_data m) (ma_mask m)).

Definition unmasked (cells : list (Q * bool)) : list Q :=
  omap (λ c : Q * bool, if c.2 then None else Some c.1) cells.

(** [masked.compressed()]: the flat list of the cells that are not masked. *)
Definition ma_compressed (m : masked_array) : list Q := unmasked (ma_cells m).

(** [np.sum] of a masked array adds the cells that are not masked. *)
Definition ma_sum (m : masked_array) : Q := Num.sum (ma_compressed m).

(** [(masked == v).sum()]: the unmasked cells equal to [v]; the sum over no
    unmasked cell is taken to be 0. *)
Definition ma_count_eq (m : masked_array) (v : option Q) : nat :=
  length (List.filter
            (λ x, match v with Some n => Num.eqb x n | None => false end)
            (ma_compressed m)).

(** [masked * arr]: values are multiplied, the mask is kept (both broadcast). *)
Definition ma_mul (m : masked_array) (w : ndarray Q) : result masked_array :=
  rbind (nd_bcast Num.mul (ma_data m) w) (λ d,
  rbind (nd_bcast (λ b _, b) (ma_mask m) w) (λ k,
  Ok (MaskedArray d k))).

Definition ma_div_scalar (m : masked_array) (d : Q) : masked_array :=
  MaskedArray (nd_map (λ x, Num.div x d) (ma_data m)) (ma_mask m).

(** ** Python values held in dictionaries *)

Record affine := Affine {
  aff_a : Q; aff_b : Q; aff_c : Q; aff_d : Q; aff_e : Q; aff_f : Q
}.

Global Instance affine_eq_dec : EqDecision affine.
Proof. solve_decision. Defined.

(** [Affine.from_gdal(c, a, b, f, d, e)]. *)
Definition from_gdal (t : Q * Q * Q * Q * Q * Q) : affine :=
  let '(c, a, b, f, d, e) := t in Affine a b c d e f.

(** Dictionary keys: statistic names and labels are strings, the keys of a
    categorical histogram are raster values. *)
Inductive key :=
| KStr (s : string)
| KNum (q : Q).

Global Instance key_eq_dec : EqDecision key.
Proof. solve_decision. Defined.

Global Instance key_countable : Countable key :=
  inj_countable'
    (λ k, match k with KStr s => inl s | KNum q => inr q end)
    (λ x, match x with inl s => KStr s | inr q => KNum q end)
    (λ k, match k with KStr _ => eq_refl | KNum _ => eq_refl end).

Global Instance KStr_inj : Inj (=) (=) KStr.
Proof. by intros ?? [=]. Qed.
Global Instance KNum_inj : Inj (=) (=) KNum.
Proof. by intros ?? [=]. Qed.

Inductive pyval :=
| PNone
| PInt (z : Z)
| PFloat (q : Q)
| PNaN
| PStr (s : string)
| PMasked (m : masked_array)
| PAffine (a : affine).

Global Instance pyval_eq_dec : EqDecision pyval.
Proof. solve_decision. Defined.

(** [float(x)] of a number. *)
Definition pyfloat (q : Q) : pyval := PFloat (Qred q).

Abbreviation pydict := (gmap key pyval).

(** [a - b] on Python numbers. *)
Definition py_sub (a b : pyval) : result pyval :=
  match a, b with
  | PFloat x, PFloat y => Ok (PFloat (Num.sub x y))
  | PFloat x, PInt y => Ok (PFloat (Num.sub x (Num.of_Z y)))
  | PInt x, PFloat y => Ok (PFloat (Num.sub (Num.of_Z x) y))
  | PInt x, PInt y => Ok (PInt (x - y))
  | PNaN, (PFloat _ | PInt _ | PNaN) => Ok PNaN
  | (PFloat _ | PInt _), PNaN => Ok PNaN
  | _, _ => Raise TypeError
  end.

(** ** Geometries, raster windows, features *)

Inductive geom_kind :=
| Point | MultiPoint | LineString | MultiLineString | Polygon | MultiPolygon.

Definition type_name (k : geom_kind) : string :=
  match k with
  | Point => "Point"
  | MultiPoint => "MultiPoint"
  | LineString => "LineString"
  | MultiLineString => "MultiLineString"
  | Polygon => "Polygon"
  | MultiPolygon => "MultiPolygon"
  end.

Definition bbox := (Q * Q * Q * Q)%type.

(** A shapely geometry as this module observes it: its [type], its
    [bounds], and the coordinates that are handed on to the rasterizers. *)
Record geometry := Geometry {
  geom_kind_of : geom_kind;
  bounds : bbox;
  coords : list (list (Q * Q))
}.

Global Instance geom_kind_eq_dec : EqDecision geom_kind.
Proof. solve_decision. Defined.
Global Instance geometry_eq_dec : EqDecision geometry.
Proof. solve_decision. Defined.

Definition geom_type (g : geometry) : string := type_name (geom_kind_of g).

(** [sub in s] on strings. *)
Fixpoint str_contains (sub s : string) : bool :=
  String.prefix sub s ||
  match s with
  | EmptyString => false
  | String _ r => str_contains sub r
  end.

(** The window returned by [Raster.read]. *)
Record window := Window {
  w_array : ndarray Q;
  w_affine : affine;
  w_nodata : option Q;
  w_shape : nat * nat
}.

Definition loc := nat.

(** A feature dictionary: its ['geometry'] (already a shape) and its
    ['properties'] entry, which may be missing and otherwise refers to a
    dictionary of the store. *)
Record feature := Feature {
  f_geometry : geometry;
  f_properties : option loc
}.

(** What a [yield] hands to the consumer: a reference to the feature, a
    reference to its properties dictionary, or a dictionary of its own. *)
Inductive record :=
| YFeature (l : loc)
| YProps (l : loc)
| YStats (d : pydict).

Inductive printed :=
| PrMsg (s : string)
| PrProps (d : pydict).

Record raster_cfg := RasterCfg {
  rc_affine : option affine;
  rc_nodata : option Q;
  rc_band : nat
}.

(** ** Observable effects *)

Inductive event :=
| EvCheckStats
| EvWarn (msg : string)
| EvOpen (cfg : raster_cfg)
| EvRead (i : nat) (b : bbox)
| EvRasterize (i : nat) (g : geometry) (all_touched : bool)
| EvPctcover (i : nat) (g : geometry)
| EvCustom (i : nat) (name : string) (m : masked_array)
| EvPrint (p : printed)
| EvYield (r : record)
| EvClose.

Global Instance raster_cfg_eq_dec : EqDecision raster_cfg.
Proof. solve_decision. Defined.
Global Instance record_eq_dec : EqDecision record.
Proof. solve_decision. Defined.
Global Instance printed_eq_dec : EqDecision printed.
Proof. solve_decision. Defined.
Global Instance event_eq_dec : EqDecision event.
Proof. solve_decision. Defined.

(** ** The state of a run: the effects so far, the generator's locals that
    survive from one loop iteration to the next, and the store. *)

Record state := State {
  trace : list event;
  weights : bool;
  pctcover : option (ndarray Q);
  pixel_count : option (gmap Q Z);
  feats : gmap loc feature;
  dicts : gmap loc pydict
}.

Definition set_trace (t : list event) (s : state) : state :=
  State t (weights s) (pctcover s) (pixel_count s) (feats s) (dicts s).
Definition set_weights (w : bool) (s : state) : state :=
  State (trace s) w (pctcover s) (pixel_count s) (feats s) (dicts s).
Definition set_pctcover (p : option (ndarray Q)) (s : state) : state :=
  State (trace s) (weights s) p (pixel_count s) (feats s) (dicts s).
Definition set_pixel_count (p : option (gmap Q Z)) (s : state) : state :=
  State (trace s) (weights s) (pctcover s) p (feats s) (dicts s).
Definition set_feats (f : gmap loc feature) (s : state) : state :=
  State (trace s) (weights s) (pctcover s) (pixel_count s) f (dicts s).
Definition set_dicts (d : gmap loc pydict) (s : state) : state :=
  State (trace s) (weights s) (pctcover s) (pixel_count s) (feats s) d.

(** ** The monad of one loop iteration: state, exceptions and [continue] *)

Inductive ctl (A : Type) :=
| Ret (a : A)
| Continue
| Exc (e : exn).
Arguments Ret {A} a.
Arguments Continue {A}.
Arguments Exc {A} e.

Definition M (A : Type) : Type := state → ctl A * state.

Global Instance M_ret : MRet M := λ A a s, (Ret a, s).

Global Instance M_bind : MBind M := λ A B k m s,
  match m s with
  | (Ret a, s') => k a s'
  | (Continue, s') => (Continue, s')
  | (Exc e, s') => (Exc e, s')
  end.

Definition raise {A} (e : exn) : M A := λ s, (Exc e, s).
Definition continue_ {A} : M A := λ s, (Continue, s).
Definition get {A} (f : state → A) : M A := λ s, (Ret (f s), s).
Definition modify (f : state → state) : M unit := λ s, (Ret tt, f s).
Definition emit (e : event) : M unit := modify (λ s, set_trace (trace s ++ [e]) s).
Definition lift {A} (r : result A) : M A :=
  match r with
  | Ok a => mret a
  | Raise e => raise e
  end.
Definition when (b : bool) (m : M unit) : M unit := if b then m else mret tt.

(** [try: body except MemoryError: handler]. *)
Definition try_memory {A} (body handler : M A) : M A :=
  λ s, match body s with
       | (Exc MemoryError, s') => handler s'
       | r => r
       end.

(** ** StatsCatalog ([utils.check_stats], [utils.get_percentile]) *)

(** The [stats] argument: absent, a list of names, or one string of names
    separated by white space. *)
Inductive stats_arg :=
| StatsDefault
| StatsList (l : list string)
| StatsStr (s : string).

Definition is_space (c : Ascii.ascii) : bool :=
  let n := Ascii.nat_of_ascii c in
  (n =? 32)%nat || ((9 <=? n)%nat && (n <=? 13)%nat).

(** [str.split()]: the maximal runs of characters that are not white space. *)
Fixpoint split_ws (s : string) (cur : string) : list string :=
  match s with
  | EmptyString => if decide (cur = "") then [] else [cur]
  | String ch r =>
      if is_space ch
      then (if decide (cur = "") then split_ws r "" else cur :: split_ws r "")
      else split_ws r (cur +:+ String ch "")
  end.

Definition digit_of (c : Ascii.ascii) : option Z :=
  let n := Ascii.nat_of_ascii c in
  if (48 <=? n)%nat && (n <=? 57)%nat then Some (Z.of_nat (n - 48)) else None.

(** Digits read as a decimal numeral, together with how many there were. *)
Fixpoint parse_digits (s : string) (acc : Z) (n : nat) : option (Z * nat) :=
  match s with
  | EmptyString => Some (acc, n)
  | String ch r =>
      match digit_of ch with
      | Some d => parse_digits r (10 * acc + d)%Z (S n)
      | None => None
      end
  end.

Fixpoint split_dot (s : string) (cur : string) : string * option string :=
  match s with
  | EmptyString => (cur, None)
  | String ch r =>
      if decide (ch = "."%char) then (cur, Some r)
      else split_dot r (cur +:+ String ch "")
  end.

(** An unsigned decimal numeral with an optional fractional part. *)
Definition parse_decimal (s : string) : option Q :=
  let '(ip, fp) := split_dot s "" in
  match parse_digits ip 0 0, parse_digits (default "" fp) 0 0 with
  | Some (iv, ni), Some (fv, nf) =>
      if (ni + nf =? 0)%nat then None
      else Some (Qred (inject_Z iv + Qmake fv (Pos.of_nat (10 ^ nf))))
  | _, _ => None
  end.

Definition drop_prefix (n : nat) (s : string) : string :=
  String.substring n (String.length s - n) s.

(** White space at either end of a numeral is ignored. *)
Fixpoint lstrip (s : string) : string :=
  match s with
  | String ch r => if is_space ch then lstrip r else s
  | EmptyString => s
  end.

Definition strip (s : string) : string :=
  String.rev (lstrip (String.rev (lstrip s))).

(** An optional sign: whether it is a minus, and the rest. *)
Definition parse_sign (s : string) : bool * string :=
  match s with
  | String "+" r => (false, r)
  | String "-" r => (true, r)
  | _ => (false, s)
  end.

(** The mantissa and, after the first [e] or [E], the exponent. *)
Fixpoint split_exp (s : string) (cur : string) : string * option string :=
  match s with
  | EmptyString => (cur, None)
  | String ch r =>
      if bool_decide (ch = "e"%char) || bool_decide (ch = "E"%char)
      then (cur, Some r)
      else split_exp r (cur +:+ String ch "")
  end.

(** A decimal exponent: an optional sign and at least one digit; none
    stands for zero. *)
Definition parse_exponent (s : option string) : option Z :=
  match s with
  | None => Some 0%Z
  | Some e =>
      let '(neg, ds) := parse_sign e in
      match parse_digits ds 0 0 with
      | Some (v, n) =>
          if (n =? 0)%nat then None else Some (if neg then (- v)%Z else v)
      | None => None
      end
  end.

Definition pow10 (e : Z) : Q :=
  if (0 <=? e)%Z then inject_Z (10 ^ e) else Qmake 1 (Z.to_pos (10 ^ (- e))).

(** A numeral as [float] reads one: white space around it, an optional
    sign, digits with an optional fractional part, an optional exponent.
    [inf] and [nan] are not read: they are no numbers of an interval. *)
Definition parse_number (s : string) : option Q :=
  let '(neg, r) := parse_sign (strip s) in
  let '(m, ex) := split_exp r "" in
  match parse_decimal m, parse_exponent ex with
  | Some q, Some e => Some (Qred ((if neg then - q else q) * pow10 e))
  | _, _ => None
  end.

(** Modelled from the spec: [utils.get_percentile] is not part of the
    sources at hand. Section 4.1: "[percentile_N] is parsed: N must be
    numeric and in [0,100]; otherwise fails with [InvalidPercentileSpec]". *)
Definition get_percentile (stat : string) : result Q :=
  if String.prefix "percentile_" stat then
    match parse_number (drop_prefix 11 stat) with
    | Some q =>
        if Qle_bool 0 q && Qle_bool q 100 then Ok q
        else Raise (InvalidPercentileSpec stat)
    | None => Raise (InvalidPercentileSpec stat)
    end
  else Raise (InvalidPercentileSpec stat).

(** Modelled from the spec: [utils.VALID_STATS] is not part of the sources
    at hand; these are the built-in statistic names of sections 4.1 and 4.5. *)
Definition VALID_STATS : list string :=
  ["count"; "min"; "max"; "mean"; "sum"; "std"; "median"; "majority";
   "minority"; "unique"; "range"; "nodata";
   "weighted_mean"; "weighted_sum"; "weighted_count"].

Definition has (name : string) (stats : list string) : bool :=
  bool_decide (name ∈ stats).

(** Modelled from the spec: the validation loop of [utils.check_stats]
    (section 4.1); the first name of the selection that is not acceptable,
    as an error. *)
Fixpoint validate_stats (stats : list string) : option exn :=
  match stats with
  | [] => None
  | x :: r =>
      if String.prefix "percentile_" x then
        match get_percentile x with
        | Ok _ => validate_stats r
        | Raise e => Some e
        end
      else if has x VALID_STATS then validate_stats r
      else Some (InvalidStatistic x)
  end.

(** Modelled from the spec: how [utils.check_stats] reads the selection
    (section 4.1): "list or whitespace-delimited string, default to a
    documented subset". *)
Definition resolve_stats (default : list string) (sel : stats_arg) : list string :=
  match sel with
  | StatsDefault => default
  | StatsList l => l
  | StatsStr s => split_ws s ""
  end.

(** Modelled from the spec: [utils.check_stats] is not part of the sources
    at hand. Section 4.1: given a statistics selection (list or
    whitespace-delimited string, default to a documented subset) and a
    categorical flag, it returns the resolved names, the flag "needs a
    per-value histogram" (categorical mode, or [majority], [minority] or
    [unique] requested) and the flag "needs coverage weights" (some
    [weighted_*] statistic requested); an unknown name fails with
    [InvalidStatistic], a malformed percentile with [InvalidPercentileSpec]. *)
Definition check_stats (default : list string) (sel : stats_arg) (categorical : bool)
  : result (list string * bool * bool) :=
  let stats := resolve_stats default sel in
  match validate_stats stats with
  | Some e => Raise e
  | None =>
      Ok (stats,
          categorical || has "majority" stats || has "minority" stats
            || has "unique" stats,
          existsb (String.prefix "weighted_") stats)
  end.

(** ** Histogram helpers ([np.unique], [utils.key_assoc_val],
    [utils.remap_categories]) *)

(** [dict(zip(keys, counts))] of [np.unique(compressed, return_counts=True)]. *)
Definition np_unique_counts (compressed : list Q) : gmap Q Z :=
  foldl (λ m v, <[Qred v := (default 0 (m !! Qred v) + 1)%Z]> m) ∅ compressed.

Definition list_max (l : list Z) : option Z :=
  match l with
  | [] => None
  | x :: r => Some (foldl Z.max x r)
  end.
Definition list_min (l : list Z) : option Z :=
  match l with
  | [] => None
  | x :: r => Some (foldl Z.min x r)
  end.

(** Modelled from the spec: [utils.key_assoc_val] is not part of the
    sources at hand. Section 4.5: the histogram key with the extreme count,
    ties broken by the key that a scan of the histogram meets first. *)
Definition key_assoc_val (d : gmap Q Z) (func : list Z → option Z) : result Q :=
  let items := map_to_list d in
  match func (items.*2) with
  | None => Raise ValueError
  | Some v =>
      match List.find (λ kv : Q * Z, bool_decide (kv.2 = v)) items with
      | Some kv => Ok kv.1
      | None => Raise ValueError
      end
  end.

(** Modelled from the spec: [utils.remap_categories] is not part of the
    sources at hand. Section 4.5: keys are remapped through the
    caller-supplied value-to-label table; unmapped values keep their key. *)
Definition remap_categories (category_map : gmap key key) (fs : pydict) : pydict :=
  foldl (λ acc kv, <[default kv.1 (category_map !! kv.1) := kv.2]> acc) ∅
        (map_to_list fs).

(** ** Collaborators and arguments *)

(** What [gen_zonal_stats] calls but does not define. The index of the
    feature that a fallible call serves stands for the moment of the call:
    whether memory suffices is not a function of the arguments alone. *)
Record collaborators := Collaborators {
  (** [utils.DEFAULT_STATS], the statistics computed when none are named *)
  DEFAULT_STATS : list string;
  (** [Raster.read(bounds=...)] *)
  rast_read : nat → raster_cfg → bbox → result window;
  (** [utils.boxify_points] *)
  boxify_points : raster_cfg → geometry → geometry;
  (** [utils.rasterize_geom(geom, like=fsrc, all_touched=...)] *)
  rasterize_geom : nat → geometry → window → bool → result (ndarray bool);
  (** [utils.rasterize_pctcover(geom, atrans=..., shape=...)] *)
  rasterize_pctcover : nat → geometry → affine → nat * nat → result (ndarray Q);
  (** whether building the array of the [nodata] statistic, the masked
      array, or the compressed list exhausts memory for a feature *)
  oom_nodata_mask : nat → bool;
  oom_masked : nat → bool;
  oom_compressed : nat → bool;
  (** numpy reductions whose numerics are left open *)
  np_std : list Q → Q;
  np_median : list Q → Q;
  np_percentile : list Q → Q → Q;
  (** [str] of a number, as used by [format] *)
  str_of_num : Q → string
}.

Abbreviation custom_stat := (masked_array → result pyval).

(** The arguments of [gen_zonal_stats]; [vectors] is the sequence that
    [read_features] produces, as references into the store. *)
Record call := Call {
  vectors : list loc;
  band_num : nat;
  nodata : option Q;
  affine_arg : option affine;
  stats : stats_arg;
  all_touched : bool;
  categorical : bool;
  category_map : option (gmap key key);
  add_stats : option (gmap string custom_stat);
  raster_out : bool;
  prefix : option string;
  save_properties : bool;
  geojson_out : bool;
  kw_transform : option (Q * Q * Q * Q * Q * Q);
  kw_nodata_value : option Q;
  kw_copy_properties : bool
}.

(** What the set-up part of [gen_zonal_stats] fixes for the whole loop. *)
Record setup := Setup {
  su_stats : list string;
  su_run_count : bool;
  su_all_touched : bool;
  su_rast : raster_cfg
}.

Inductive status :=
| Done
| Raised (e : exn).

Definition str_of_key (env : collaborators) (k : key) : string :=
  match k with
  | KStr s => s
  | KNum q => str_of_num env q
  end.

(** Truth value of an optional number: [None] and zero are false. *)
Definition truthy_num (v : option Q) : bool :=
  match v with
  | Some q => negb (Num.eqb q 0)
  | None => false
  end.

Definition truthy_map {K V} `{Countable K} (m : option (gmap K V)) : bool :=
  match m with
  | Some d => negb (bool_decide (d = ∅))
  | None => false
  end.

Fixpoint foldM {A B} (f : B → A → M B) (b : B) (l : list A) : M B :=
  match l with
  | [] => mret b
  | x :: r => b' ← f b x; foldM f b' r
  end.

(** ** Store access *)

Definition newline : string := String (ascii_of_nat 10) EmptyString.

(** What the handlers of lines 170-242 print first. *)
Definition msg_fsrc : string := "Memory Error (fsrc): " +:+ newline.
Definition msg_rv_array : string := "Memory Error (rv_array): " +:+ newline.
Definition msg_masked : string := "Memory Error (masked): " +:+ newline.
Definition msg_compressed : string := "Memory Error (compressed): " +:+ newline.
Definition msg_pctcover : string := "Memory Error (pctcover): " +:+ newline.

(** The feature dictionary behind a reference. *)
Definition get_feat (l : loc) : M feature :=
  λ s, match feats s !! l with
       | Some f => (Ret f, s)
       | None => (Exc (KeyError "<feature>"), s)
       end.

Definition get_dict (l : loc) : M pydict :=
  λ s, match dicts s !! l with
       | Some d => (Ret d, s)
       | None => (Exc (KeyError "<dict>"), s)
       end.

(** [feat['properties']]: the reference held under that key. *)
Definition feat_properties (l : loc) : M loc :=
  f ← get_feat l;
  match f_properties f with
  | Some pl => mret pl
  | None => raise (KeyError "properties")
  end.

(** [print feat['properties']] *)
Definition print_properties (l : loc) : M unit :=
  pl ← feat_properties l;
  d ← get_dict pl;
  emit (EvPrint (PrProps d)).

(** The handler of every [except MemoryError] clause of the loop. *)
Definition skip_feature {A} (msg : string) (l : loc) : M A :=
  emit (EvPrint (PrMsg msg));;
  print_properties l;;
  continue_.

(** [feat['properties'] = {}] *)
Definition new_properties (l : loc) (f : feature) : M loc :=
  λ s, let pl := fresh (dom (dicts s)) in
       (Ret pl,
        set_feats (<[l := Feature (f_geometry f) (Some pl)]> (feats s))
          (set_dicts (<[pl := ∅]> (dicts s)) s)).

(** One turn of the loop of lines 304-307:
    [if 'properties' not in feat: feat['properties'] = {}] and then
    [feat['properties'][key] = val]. *)
Definition merge_item (l : loc) (kv : key * pyval) : M unit :=
  f ← get_feat l;
  pl ← match f_properties f with
       | Some pl => mret pl
       | None => new_properties l f
       end;
  d ← get_dict pl;
  modify (λ s, set_dicts (<[pl := <[kv.1 := kv.2]> d]> (dicts s)) s).

(** ** The per-feature pipeline *)

Section Pipeline.

Variable env : collaborators.
Variable c : call.
Variable su : setup.

(** What the first half of an iteration hands to the second. *)
Record masked_window := MaskedWindow {
  mw_geom : geometry;
  mw_nodata : option Q;
  mw_affine : affine;
  mw_shape : nat * nat;
  mw_masked : masked_array;
  mw_compressed : list Q;
  mw_stats : pydict
}.

(** Lines 153-217: geometry, window, rasterization, [nodata] statistic,
    mask and compression. *)
Definition acquire (i : nat) (l : loc) : M masked_window :=
  feat ← get_feat l;
  let geom := f_geometry feat in
  let feature_stats : pydict := ∅ in
  geom ← (if str_contains "Point" (geom_type geom)
          then modify (set_weights false);;
               mret (boxify_points env (su_rast su) geom)
          else mret geom);
  let geom_bounds := bounds geom in
  fsrc ← try_memory
           (emit (EvRead i geom_bounds);;
            lift (rast_read env i (su_rast su) geom_bounds))
           (skip_feature msg_fsrc l);
  let fsrc_nodata := w_nodata fsrc in
  let fsrc_affine := w_affine fsrc in
  let fsrc_shape := w_shape fsrc in
  rv_array ← try_memory
           (emit (EvRasterize i geom (su_all_touched su));;
            rv ← lift (rasterize_geom env i geom fsrc (su_all_touched su));
            if decide (nd_shape rv = fsrc_shape) then mret rv
            else raise AssertionError)
           (skip_feature msg_rv_array l);
  feature_stats ←
    (if has "nodata" (su_stats su) then
       if oom_nodata_mask env i then raise MemoryError
       else
         let featmasked := MaskedArray (w_array fsrc) (np_logical_not rv_array) in
         mret (<[KStr "nodata" :=
                   pyfloat (Num.of_nat (ma_count_eq featmasked fsrc_nodata))]>
                 feature_stats)
     else mret feature_stats);
  masked ← try_memory
           (if oom_masked env i then raise MemoryError
            else mret (MaskedArray (w_array fsrc)
                         (np_logical_or (np_eq_scalar (w_array fsrc) fsrc_nodata)
                                        (np_logical_not rv_array))))
           (skip_feature msg_masked l);
  compressed ← try_memory
           (if oom_compressed env i then raise MemoryError
            else mret (ma_compressed masked))
           (skip_feature msg_compressed l);
  mret (MaskedWindow geom fsrc_nodata fsrc_affine fsrc_shape masked compressed
          feature_stats).

(** Lines 220-224: no surviving value. *)
Definition empty_stats : pydict :=
  let feature_stats : pydict :=
    list_to_map (map (λ stat, (KStr stat, PNone)) (su_stats su)) in
  if has "count" (su_stats su) then <[KStr "count" := PInt 0]> feature_stats
  else feature_stats.

(** [if name in stats: feature_stats[name] = value] *)
Definition stat_if (name : string) (value : M pyval) (fs : pydict) : M pydict :=
  if has name (su_stats su) then v ← value; mret (<[KStr name := v]> fs)
  else mret fs.

(** Reading the locals [pctcover] and [pixel_count], which are bound only
    once an earlier statement of some iteration has assigned them. *)
Definition use_pctcover : M (ndarray Q) :=
  p ← get pctcover;
  match p with
  | Some a => mret a
  | None => raise (UnboundLocalError "pctcover")
  end.

Definition use_pixel_count : M (gmap Q Z) :=
  p ← get pixel_count;
  match p with
  | Some a => mret a
  | None => raise (UnboundLocalError "pixel_count")
  end.

(** Line 245. The two nested sums over axis 0 add up all cells. *)
Definition weighted_mean (masked : masked_array) (pct : ndarray Q) : result pyval :=
  rbind (ma_mul masked pct) (λ prod,
  rbind (nd_bcast (λ (m : bool) (w : Q), if m then 0%Q else w) (ma_mask masked) pct)
        (λ wts,
  let total := np_sum wts in
  if Num.eqb total 0 then Ok PNaN
  else Ok (pyfloat (ma_sum (ma_div_scalar prod total))))).

(** Line 247. *)
Definition weighted_count (pct : ndarray Q) : pyval := pyfloat (np_sum pct).

(** Line 249. *)
Definition weighted_sum (masked : masked_array) (pct : ndarray Q) : result pyval :=
  rbind (ma_mul masked pct) (λ prod, Ok (pyfloat (ma_sum prod))).

Definition extreme (o : option Q) : M pyval :=
  match o with
  | Some v => mret (pyfloat v)
  | None => raise ValueError
  end.

(** Lines 270-279. *)
Definition range_stat (compressed : list Q) (fs : pydict) : M pyval :=
  rmin ← match fs !! KStr "min" with
         | Some v => mret v
         | None => extreme (Num.min compressed)
         end;
  rmax ← match fs !! KStr "max" with
         | Some v => mret v
         | None => extreme (Num.max compressed)
         end;
  lift (py_sub rmax rmin).

(** Lines 226-284: at least one surviving value. *)
Definition populated_stats (i : nat) (l : loc) (w : masked_window) : M pydict :=
  let masked := mw_masked w in
  let compressed := mw_compressed w in
  let feature_stats := mw_stats w in
  feature_stats ←
    (if su_run_count su then
       let pc := np_unique_counts compressed in
       modify (set_pixel_count (Some pc));;
       if categorical c then
         let fs : pydict := kmap KNum (PInt <$> pc) in
         if truthy_map (category_map c)
         then mret (remap_categories (default ∅ (category_map c)) fs)
         else mret fs
       else mret feature_stats
     else mret feature_stats);
  wts ← get weights;
  when wts
    (try_memory
       (emit (EvPctcover i (mw_geom w));;
        p ← lift (rasterize_pctcover env i (mw_geom w) (mw_affine w) (mw_shape w));
        modify (set_pctcover (Some p)))
       (skip_feature msg_pctcover l));;
  fs ← stat_if "weighted_mean"
         (p ← use_pctcover; lift (weighted_mean masked p)) feature_stats;
  fs ← stat_if "weighted_count"
         (p ← use_pctcover; mret (weighted_count p)) fs;
  fs ← stat_if "weighted_sum"
         (p ← use_pctcover; lift (weighted_sum masked p)) fs;
  fs ← stat_if "mean"
         (mret (pyfloat (Num.div (Num.sum compressed)
                                  (Num.of_nat (length compressed))))) fs;
  fs ← stat_if "count" (mret (PInt (Z.of_nat (length compressed)))) fs;
  fs ← stat_if "sum" (mret (pyfloat (Num.sum compressed))) fs;
  fs ← stat_if "min" (extreme (Num.min compressed)) fs;
  fs ← stat_if "max" (extreme (Num.max compressed)) fs;
  fs ← stat_if "std" (mret (pyfloat (np_std env compressed))) fs;
  fs ← stat_if "median" (mret (pyfloat (np_median env compressed))) fs;
  fs ← stat_if "majority"
         (pc ← use_pixel_count; k ← lift (key_assoc_val pc list_max);
          mret (pyfloat k)) fs;
  fs ← stat_if "minority"
         (pc ← use_pixel_count; k ← lift (key_assoc_val pc list_min);
          mret (pyfloat k)) fs;
  fs ← stat_if "unique"
         (pc ← use_pixel_count; mret (PInt (Z.of_nat (size pc)))) fs;
  fs ← stat_if "range" (range_stat compressed fs) fs;
  foldM (λ fs pctile,
           q ← lift (get_percentile pctile);
           mret (<[KStr pctile := PFloat (np_percentile env compressed q)]> fs))
        fs (List.filter (String.prefix "percentile_") (su_stats su)).

(** Lines 287-289. *)
Definition custom_stats (i : nat) (masked : masked_array) (fs : pydict) : M pydict :=
  match add_stats c with
  | None => mret fs
  | Some fns =>
      foldM (λ fs nf,
               emit (EvCustom i nf.1 masked);;
               v ← lift (nf.2 masked);
               mret (<[KStr nf.1 := v]> fs))
            fs (map_to_list fns)
  end.

(** Lines 291-294. *)
Definition attach_raster (w : masked_window) (fs : pydict) : pydict :=
  if raster_out c then
    <[KStr "mini_raster_nodata" :=
        match mw_nodata w with Some n => PFloat n | None => PNone end]>
      (<[KStr "mini_raster_affine" := PAffine (mw_affine w)]>
         (<[KStr "mini_raster_array" := PMasked (mw_masked w)]> fs))
  else fs.

(** Lines 296-301. *)
Definition apply_prefix (fs : pydict) : pydict :=
  match prefix c with
  | Some p =>
      foldl (λ acc kv, <[KStr (p +:+ str_of_key env kv.1) := kv.2]> acc) ∅
            (map_to_list fs)
  | None => fs
  end.

(** Lines 303-314. *)
Definition emit_record (l : loc) (fs : pydict) : M unit :=
  if geojson_out c || save_properties c then
    foldM (λ _ kv, merge_item l kv) tt (map_to_list fs);;
    if geojson_out c then emit (EvYield (YFeature l))
    else pl ← feat_properties l; emit (EvYield (YProps pl))
  else emit (EvYield (YStats fs)).

(** Lines 220-284: the built-in statistics. *)
Definition builtin_stats (i : nat) (l : loc) (w : masked_window) : M pydict :=
  if (length (mw_compressed w) =? 0)%nat then mret empty_stats
  else populated_stats i l w.

(** Lines 220-314. *)
Definition aggregate (i : nat) (l : loc) (w : masked_window) : M unit :=
  fs ← builtin_stats i l w;
  fs ← custom_stats i (mw_masked w) fs;
  emit_record l (apply_prefix (attach_raster w fs)).

(** The body of the [for] loop. *)
Definition body (i : nat) (l : loc) : M unit :=
  w ← acquire i l; aggregate i l w.

(** The [for] loop over the enumerated features: [continue] and normal
    completion go on to the next feature, an exception leaves the loop. *)
Fixpoint loop (i : nat) (ls : list loc) (s : state) : status * state :=
  match ls with
  | [] => (Done, s)
  | l :: r =>
      match body i l s with
      | (Exc e, s') => (Raised e, s')
      | (_, s') => loop (S i) r s'
      end
  end.

End Pipeline.

(** ** The generator *)

Definition warn_transform : string :=
  "GDAL-style transforms will disappear in 1.0. Use affine=Affine.from_gdal(*transform) instead".
Definition warn_nodata_value : string := "Use `nodata` instead of `nodata_value`".
Definition warn_copy_properties : string :=
  "Use `geojson_out` or `save_properties` to preserve feature properties".

(** Lines 127-148: the deprecated keyword arguments and the forcing of
    [all_touched]. Returns the warnings issued and the loop's set-up. *)
Definition configure (c : call) (stats : list string) (run_count wts : bool)
  : list event * setup :=
  let w1 := match kw_transform c with Some _ => [EvWarn warn_transform] | None => [] end in
  let affine :=
    match kw_transform c, affine_arg c with
    | Some t, None => Some (from_gdal t)
    | _, a => a
    end in
  let w2 := if truthy_num (kw_nodata_value c) then [EvWarn warn_nodata_value] else [] in
  let nodata :=
    if truthy_num (kw_nodata_value c) && negb (truthy_num (nodata c))
    then kw_nodata_value c else nodata c in
  let w3 := if kw_copy_properties c then [EvWarn warn_copy_properties] else [] in
  let all_touched := if wts then true else all_touched c in
  (w1 ++ w2 ++ w3,
   Setup stats run_count all_touched (RasterCfg affine nodata (band_num c))).

(** [gen_zonal_stats], consumed to the end (as [zonal_stats] does with
    [list(...)]), from a store holding the caller's feature dictionaries.
    The yielded records are the [EvYield] events of the final trace. *)
Definition gen_zonal_stats (env : collaborators) (c : call)
    (fe : gmap loc feature) (di : gmap loc pydict) : status * state :=
  match check_stats (DEFAULT_STATS env) (stats c) (categorical c) with
  | Raise e => (Raised e, State [EvCheckStats] false None None fe di)
  | Ok (stats, run_count, wts) =>
      let '(warnings, su) := configure c stats run_count wts in
      let s0 := State ([EvCheckStats] ++ warnings ++ [EvOpen (su_rast su)])
                      wts None None fe di in
      let '(st, s1) := loop env c su 0 (vectors c) s0 in
      (st, set_trace (trace s1 ++ [EvClose]) s1)
  end.

(** The records yielded by a run, in order. *)
Definition yields (t : list event) : list record :=
  omap (λ e, match e with EvYield r => Some r | _ => None end) t.

(** [zonal_stats]: the list of everything the generator yields, or the
    exception that ended it. *)
Definition zonal_stats (env : collaborators) (c : call)
    (fe : gmap loc feature) (di : gmap loc pydict) : result (list record) :=
  match gen_zonal_stats env c fe di with
  | (Done, s) => Ok (yields (trace s))
  | (Raised e, _) => Raise e
  end.



(** ** Vocabulary of the properties *)

(** [emits P m]: running [m] only appends events, all of which satisfy [P]. *)
Definition emits {A} (P : event → Prop) (m : M A) : Prop :=
  ∀ s, ∃ evs, trace (m s).2 = trace s ++ evs ∧ Forall P evs.

(** The events that an iteration of the loop can add, for a given set-up:
    in particular every rasterization carries the set-up's touch policy. *)
Inductive loop_event (su : setup) : event → Prop :=
| le_read i b : loop_event su (EvRead i b)
| le_rasterize i g : loop_event su (EvRasterize i g (su_all_touched su))
| le_pctcover i g : loop_event su (EvPctcover i g)
| le_custom i name m : loop_event su (EvCustom i name m)
| le_print p : loop_event su (EvPrint p)
| le_yield r : loop_event su (EvYield r).

(** The entry of a yielded record under a key, in a given store. *)
Definition record_lookup (s : state) (r : record) (k : key) : option pyval :=
  match r with
  | YStats d => d !! k
  | YProps pl => d ← dicts s !! pl; d !! k
  | YFeature l => f ← feats s !! l; pl ← f_properties f; d ← dicts s !! pl; d !! k
  end.

(** Lines 153-158: the geometry whose bounds select the window and which
    is rasterized: a point is replaced by its box. *)
Definition footprint (env : collaborators) (su : setup) (f : feature) : geometry :=
  if str_contains "Point" (geom_type (f_geometry f))
  then boxify_points env (su_rast su) (f_geometry f)
  else f_geometry f.

(** Line 157: a point switches the local [weights] off. *)
Definition after_point (f : feature) (s : state) : state :=
  if str_contains "Point" (geom_type (f_geometry f)) then set_weights false s else s.

(** The full masked array of a feature: the window's values, masked where
    the cell holds the nodata value or is not covered (lines 195-199). *)
Definition mask_window (fsrc : window) (rv_array : ndarray bool) : masked_array :=
  MaskedArray (w_array fsrc)
    (np_logical_or (np_eq_scalar (w_array fsrc) (w_nodata fsrc))
                   (np_logical_not rv_array)).

(** The [nodata] statistic, when requested (lines 187-189). *)
Definition nodata_stat (su : setup) (fsrc : window) (rv_array : ndarray bool) : pydict :=
  if has "nodata" (su_stats su) then
    {[ KStr "nodata" :=
         pyfloat (Num.of_nat
           (ma_count_eq (MaskedArray (w_array fsrc) (np_logical_not rv_array))
                        (w_nodata fsrc))) ]}
  else ∅.

(** The window and mask of a feature, when both are obtained and agree in
    shape. *)
Definition rasterized (env : collaborators) (su : setup) (i : nat) (f : feature)
    (fsrc : window) (rv : ndarray bool) : Prop :=
  rast_read env i (su_rast su) (bounds (footprint env su f)) = Ok fsrc ∧
  rasterize_geom env i (footprint env su f) fsrc (su_all_touched su) = Ok rv ∧
  nd_shape rv = w_shape fsrc.

(** A memory error inside one of the [try] blocks of lines 163-217, with
    the message its handler prints and the events that precede it. *)
Inductive guarded_memory_error (env : collaborators) (su : setup) (i : nat)
    (f : feature) : string → list event → Prop :=
| gme_window :
    rast_read env i (su_rast su) (bounds (footprint env su f)) = Raise MemoryError →
    guarded_memory_error env su i f msg_fsrc
      [EvRead i (bounds (footprint env su f))]
| gme_rasterize fsrc :
    rast_read env i (su_rast su) (bounds (footprint env su f)) = Ok fsrc →
    rasterize_geom env i (footprint env su f) fsrc (su_all_touched su)
      = Raise MemoryError →
    guarded_memory_error env su i f msg_rv_array
      [EvRead i (bounds (footprint env su f));
       EvRasterize i (footprint env su f) (su_all_touched su)]
| gme_masked fsrc rv :
    rasterized env su i f fsrc rv →
    (has "nodata" (su_stats su) = true → oom_nodata_mask env i = false) →
    oom_masked env i = true →
    guarded_memory_error env su i f msg_masked
      [EvRead i (bounds (footprint env su f));
       EvRasterize i (footprint env su f) (su_all_touched su)]
| gme_compressed fsrc rv :
    rasterized env su i f fsrc rv →
    (has "nodata" (su_stats su) = true → oom_nodata_mask env i = false) →
    oom_masked env i = false →
    oom_compressed env i = true →
    guarded_memory_error env su i f msg_compressed
      [EvRead i (bounds (footprint env su f));
       EvRasterize i (footprint env su f) (su_all_touched su)].

(** [keeps I m]: running [m] from a state in [I] ends in a state in [I]. *)
Definition keeps {A} (I : state → Prop) (m : M A) : Prop :=
  ∀ s, I s → I (m s).2.

(** The local [weights] is false and the local [pctcover] holds [p]
    (nothing, when it was never assigned). *)
Definition weights_off (p : option (ndarray Q)) (s : state) : Prop :=
  weights s = false ∧ pctcover s = p.

(** Events other than a [yield]. *)
Definition no_yield (e : event) : Prop :=
  match e with
  | EvYield _ => False
  | _ => True
  end.

(** What lines 153-217 hand to the statistics for a feature whose window
    and mask are [fsrc] and [rv]. *)
Definition masked_window_of (env : collaborators) (su : setup) (f : feature)
    (fsrc : window) (rv : ndarray bool) : masked_window :=
  MaskedWindow (footprint env su f) (w_nodata fsrc) (w_affine fsrc)
    (w_shape fsrc) (mask_window fsrc rv)
    (ma_compressed (mask_window fsrc rv)) (nodata_stat su fsrc rv).

(** The state in which the statistics of such a feature start. *)
Definition rasterized_state (env : collaborators) (su : setup) (i : nat)
    (f : feature) (s : state) : state :=
  set_trace (trace s ++ [EvRead i (bounds (footprint env su f));
                         EvRasterize i (footprint env su f) (su_all_touched su)])
    (after_point f s).

(** No memory error while the arrays of lines 187-217 are built. *)
Definition arrays_fit (env : collaborators) (su : setup) (i : nat) : Prop :=
  (has "nodata" (su_stats su) = true → oom_nodata_mask env i = false) ∧
  oom_masked env i = false ∧ oom_compressed env i = false.

(** [d[key] = val] for an item [(key, val)]. *)
Definition put {K V : Type} `{Countable K} (acc : gmap K V) (kv : K * V) : gmap K V :=
  <[kv.1 := kv.2]> acc.

(** What a custom statistic returned, for the result set. *)
Definition returned (r : result pyval) : pyval :=
  match r with
  | Ok v => v
  | Raise _ => PNone
  end.

Definition returns (r : result pyval) : Prop :=
  match r with
  | Ok _ => True
  | Raise _ => False
  end.

(** Dictionaries of the result set before numeric histogram keys are
    involved: every key is a string. *)
Definition string_keys (fs : pydict) : Prop :=
  ∀ k, is_Some (fs !! k) → ∃ name, k = KStr name.

(** A statistic name that [check_stats] lets through. *)
Definition acceptable (name : string) : bool :=
  if String.prefix "percentile_" name
  then match get_percentile name with Ok _ => true | Raise _ => false end
  else has name VALID_STATS.

Definition validation_error (e : exn) : Prop :=
  match e with
  | InvalidStatistic _ | InvalidPercentileSpec _ => True
  | _ => False
  end.

(** The collaborators with another rasterizer for [all_touched=False]. *)
Definition untouched_as (env : collaborators)
    (other : nat → geometry → window → result (ndarray bool)) : collaborators := {|
  DEFAULT_STATS := DEFAULT_STATS env;
  rast_read := rast_read env;
  boxify_points := boxify_points env;
  rasterize_geom := λ i g w touched,
    if touched then rasterize_geom env i g w true else other i g w;
  rasterize_pctcover := rasterize_pctcover env;
  oom_nodata_mask := oom_nodata_mask env;
  oom_masked := oom_masked env;
  oom_compressed := oom_compressed env;
  np_std := np_std env;
  np_median := np_median env;
  np_percentile := np_percentile env;
  str_of_num := str_of_num env
|}.

(** With the all-touched policy on, the loop does not consult the
    rasterizer without it. *)
(** ** Vocabulary of the further properties *)

(** Decidable equality of what a run returns, for the examples. *)
Global Instance result_eq_dec `{EqDecision A} : EqDecision (result A).
Proof. solve_decision. Defined.
Global Instance window_eq_dec : EqDecision window.
Proof. solve_decision. Defined.
Global Instance feature_eq_dec : EqDecision feature.
Proof. solve_decision. Defined.
Global Instance state_eq_dec : EqDecision state.
Proof. solve_decision. Defined.
Global Instance ctl_eq_dec `{EqDecision A} : EqDecision (ctl A).
Proof. solve_decision. Defined.
Global Instance status_eq_dec : EqDecision status.
Proof. solve_decision. Defined.
Global Instance masked_window_eq_dec : EqDecision masked_window.
Proof. solve_decision. Defined.

(** [x == nodata] for a cell value. *)
Definition is_nodata (v : option Q) (x : Q) : bool :=
  match v with Some n => Num.eqb x n | None => false end.

(** The values of the window's cells that the rasterized geometry covers
    (the unmasked cells of [featmasked], line 188), in row-major order. *)
Definition covered_values (fsrc : window) (rv_array : ndarray bool) : list Q :=
  ma_compressed (MaskedArray (w_array fsrc) (np_logical_not rv_array)).

(** Lines 244-279 as a table: the name each [if name in stats] tests and
    the value it stores, which for [range] depends on the result set so far.
    That [populated_stats] runs this table, in this order, is part of the
    proof of [populated_stats_inv]. *)
Definition stat_table (env : collaborators) (masked : masked_array)
    (compressed : list Q) : list (string * (pydict → M pyval)) :=
  [ ("weighted_mean", λ _, p ← use_pctcover; lift (weighted_mean masked p));
    ("weighted_count", λ _, p ← use_pctcover; mret (weighted_count p));
    ("weighted_sum", λ _, p ← use_pctcover; lift (weighted_sum masked p));
    ("mean", λ _, mret (pyfloat (Num.div (Num.sum compressed)
                                     (Num.of_nat (length compressed)))));
    ("count", λ _, mret (PInt (Z.of_nat (length compressed))));
    ("sum", λ _, mret (pyfloat (Num.sum compressed)));
    ("min", λ _, extreme (Num.min compressed));
    ("max", λ _, extreme (Num.max compressed));
    ("std", λ _, mret (pyfloat (np_std env compressed)));
    ("median", λ _, mret (pyfloat (np_median env compressed)));
    ("majority", λ _, pc ← use_pixel_count; k ← lift (key_assoc_val pc list_max);
                      mret (pyfloat k));
    ("minority", λ _, pc ← use_pixel_count; k ← lift (key_assoc_val pc list_min);
                      mret (pyfloat k));
    ("unique", λ _, pc ← use_pixel_count; mret (PInt (Z.of_nat (size pc))));
    ("range", λ fs, range_stat compressed fs) ].

(** A run of [if name in stats: feature_stats[name] = value] statements,
    followed by [k]. *)
Fixpoint chain {B} (su : setup) (table : list (string * (pydict → M pyval)))
    (fs : pydict) (k : pydict → M B) : M B :=
  match table with
  | [] => k fs
  | nv :: r => fs' ← stat_if su nv.1 (nv.2 fs) fs; chain su r fs' k
  end.

(** [ran su table s fs0 fs1]: in state [s], which they leave as it is, the
    statements of [table] turn the result set [fs0] into [fs1]. *)
Fixpoint ran (su : setup) (table : list (string * (pydict → M pyval)))
    (s : state) (fs0 fs1 : pydict) : Prop :=
  match table with
  | [] => fs1 = fs0
  | nv :: r =>
      ∃ fs', (if has nv.1 (su_stats su)
              then ∃ x, nv.2 fs0 s = (Ret x, s) ∧ fs' = <[KStr nv.1 := x]> fs0
              else fs' = fs0) ∧
             ran su r s fs' fs1
  end.

(** [m] leaves the state as it is. *)
Definition reads_only {A} (m : M A) : Prop := ∀ s, (m s).2 = s.

(** The result set with which lines 236-284 start: the histogram in
    categorical mode, otherwise what lines 187-189 left. *)
Definition hist_stats (c : call) (su : setup) (w : masked_window) : pydict :=
  if su_run_count su && categorical c then
    let fs : pydict := kmap KNum (PInt <$> np_unique_counts (mw_compressed w)) in
    if truthy_map (category_map c)
    then remap_categories (default ∅ (category_map c)) fs
    else fs
  else mw_stats w.

(** [prepared env su i w s s1]: [s1] is the state after lines 227-242 were
    run from [s] without a memory error: the histogram is bound when the
    run counts values, and the coverage of the feature is computed and
    bound when the local [weights] is on. *)
Definition prepared (env : collaborators) (su : setup) (i : nat)
    (w : masked_window) (s s1 : state) : Prop :=
  pixel_count s1 = (if su_run_count su
                    then Some (np_unique_counts (mw_compressed w))
                    else pixel_count s) ∧
  weights s1 = weights s ∧ feats s1 = feats s ∧ dicts s1 = dicts s ∧
  if weights s
  then ∃ p, rasterize_pctcover env i (mw_geom w) (mw_affine w) (mw_shape w) = Ok p ∧
            pctcover s1 = Some p ∧ trace s1 = trace s ++ [EvPctcover i (mw_geom w)]
  else pctcover s1 = pctcover s ∧ trace s1 = trace s.

(** Lines 281-284 for one percentile statistic. *)
Definition percentile_step (env : collaborators) (compressed : list Q)
    (fs : pydict) (pctile : string) : M pydict :=
  q ← lift (get_percentile pctile);
  mret (<[KStr pctile := PFloat (np_percentile env compressed q)]> fs).

(** How often the value [q] (in lowest terms) occurs in a list. *)
Definition occurrences (q : Q) (l : list Q) : nat :=
  length (List.filter (λ x, bool_decide (Qred x = q)) l).

(** The names that lines 187 and 244-279 test for. *)
Definition builtin_names : list string :=
  ["nodata"; "weighted_mean"; "weighted_count"; "weighted_sum"; "mean"; "count";
   "sum"; "min"; "max"; "std"; "median"; "majority"; "minority"; "unique"; "range"].

(** A statistic name that some statement of the loop acts on. *)
Definition recognised (name : string) : bool :=
  has name builtin_names || String.prefix "percentile_" name.

(** The statistics that need neither coverage weights nor the histogram
    nor a percentile specification. *)
Definition plain_names : list string :=
  ["count"; "min"; "max"; "mean"; "sum"; "std"; "median"; "range"; "nodata"].

(** The state after line 230, when the run counts values. *)
Definition counted_state (su : setup) (w : masked_window) (s : state) : state :=
  if su_run_count su
  then set_pixel_count (Some (np_unique_counts (mw_compressed w))) s
  else s.

(** Result sets in which ['min'] and ['max'], when present, hold floats. *)
Definition float_extremes (fs : pydict) : Prop :=
  ∀ k v, k = KStr "min" ∨ k = KStr "max" → fs !! k = Some v → ∃ q, v = PFloat q.

(** The store is the one given. *)
Definition same_store (fe : gmap loc feature) (di : gmap loc pydict) (s : state) : Prop :=
  feats s = fe ∧ dicts s = di.

(** Nothing of the store [fe], [di] has been taken away in [s]: every
    feature is still there with its geometry and, if it had one, its
    reference to its properties; every dictionary is still there with at
    least the keys it had. *)
Definition store_grown (fe : gmap loc feature) (di : gmap loc pydict) (s : state) : Prop :=
  (∀ l f, fe !! l = Some f →
     ∃ f', feats s !! l = Some f' ∧ f_geometry f' = f_geometry f ∧
           ∀ pl, f_properties f = Some pl → f_properties f' = Some pl) ∧
  (∀ pl d, di !! pl = Some d →
     ∃ d', dicts s !! pl = Some d' ∧ ∀ k, is_Some (d !! k) → is_Some (d' !! k)).

(** A geometry that line 156 treats as a point. *)
Definition pointlike (g : geometry) : bool := str_contains "Point" (geom_type g).

(** The local [weights] is [b], and none of the features [ls] is a point. *)
Definition weights_held (b : bool) (ls : list loc) (s : state) : Prop :=
  weights s = b ∧
  ∀ l f, l ∈ ls → feats s !! l = Some f → pointlike (f_geometry f) = false.

(** An invariant that only looks at the store and at the local [weights]. *)
Definition stage_invariant (I : state → Prop) : Prop :=
  ∀ s s', feats s' = feats s → dicts s' = dicts s → weights s' = weights s →
          I s → I s'.

(** An invariant that only looks at the store. *)
Definition store_invariant (I : state → Prop) : Prop :=
  ∀ s s', feats s' = feats s → dicts s' = dicts s → I s → I s'.

(** The keys that [raster_out] adds (lines 292-294). *)
Definition raster_keys : list string :=
  ["mini_raster_array"; "mini_raster_affine"; "mini_raster_nodata"].

(** What the record yielded for the feature at [l] is, by output mode. *)
Definition record_of (c : call) (l : loc) (r : record) : Prop :=
  if geojson_out c then r = YFeature l
  else if save_properties c then ∃ pl, r = YProps pl
  else ∃ d, r = YStats d.

(** The message of a memory-error handler is among the events. *)
Definition reported (evs : list event) : Prop :=
  ∃ msg, EvPrint (PrMsg msg) ∈ evs.

(** [skips_loudly m]: [m] yields nothing, and when it abandons the
    iteration by [continue] it has printed a message before. *)
Definition skips_loudly {A} (m : M A) : Prop :=
  ∀ s, ∃ evs, trace (m s).2 = trace s ++ evs ∧ yields evs = [] ∧
              ((m s).1 = Continue → reported evs).

(** [accounts P m]: [m] either completes and has yielded exactly one
    record, which satisfies [P], or is left by [continue] after printing a
    message, or ends with an exception; in the last two cases nothing was
    yielded. *)
Definition accounts {A} (P : record → Prop) (m : M A) : Prop :=
  ∀ s, ∃ evs, trace (m s).2 = trace s ++ evs ∧
              match (m s).1 with
              | Ret _ => ∃ r, yields evs = [r] ∧ P r
              | Continue => yields evs = [] ∧ reported evs
              | Exc _ => yields evs = []
              end.

(** What a completed iteration does between the rasterization and the
    [yield]: the coverage rasterization and the calls of custom statistics. *)
Definition computing (i : nat) (e : event) : Prop :=
  (∃ g, e = EvPctcover i g) ∨ (∃ name m, e = EvCustom i name m).

(** ** A small world to run the generator in

    A one-row raster with nodata value 9999, read through windows that are
    told apart by their bounds; every rasterizer call covers the whole
    window, except for [gS], whose mask comes back with one column too many. *)

Module Demo.

Definition aff0 : affine := Affine 1 0 0 0 (-1) 0.
Definition poly (b : bbox) : geometry := Geometry Polygon b [].
Definition gA : geometry := poly (0, 0, 2, 1)%Q.
Definition gB : geometry := poly (0, 0, 3, 1)%Q.
Definition gC : geometry := poly (0, 0, 4, 1)%Q.
Definition gE : geometry := poly (10, 10, 11, 11)%Q.
Definition gM : geometry := poly (100, 100, 200, 200)%Q.
Definition gS : geometry := poly (0, 0, 5, 1)%Q.
Definition gP : geometry := Geometry Point (1, 1, 1, 1)%Q [].
Definition gBox : geometry := poly (0, 0, 1, 1)%Q.

Definition row {A} (l : list A) : ndarray A := NdArray (1, length l) [l].
Definition win (l : list Q) : window :=
  Window (row l) aff0 (Some 9999%Q) (1, length l).

Definition read (b : bbox) : result window :=
  if decide (b = bounds gA) then Ok (win [1; 9999]%Q)
  else if decide (b = bounds gB) then Ok (win [3; 4; 5]%Q)
  else if decide (b = bounds gC) then Ok (win [1; 1; 1; 5]%Q)
  else if decide (b = bounds gE) then Ok (win [9999]%Q)
  else if decide (b = bounds gS) then Ok (win [1; 2]%Q)
  else if decide (b = bounds gBox) then Ok (win [5]%Q)
  else Raise MemoryError.

(** [oom_nd] tells for which features the array of the [nodata] statistic
    cannot be allocated. *)
Definition env (oom_nd : nat → bool) : collaborators := {|
  DEFAULT_STATS := ["count"; "min"; "max"; "mean"];
  rast_read := λ _ _ b, read b;
  boxify_points := λ _ _, gBox;
  rasterize_geom := λ _ g w _,
    if decide (g = gS) then Ok (NdArray (1, 3)%nat [[true; true; true]])
    else Ok (nd_map (λ _, true) (w_array w));
  rasterize_pctcover := λ _ g _ sh, Ok (NdArray sh [replicate sh.2 1%Q]);
  oom_nodata_mask := oom_nd;
  oom_masked := λ _, false;
  oom_compressed := λ _, false;
  np_std := λ _, 0%Q;
  np_median := λ _, 0%Q;
  np_percentile := λ _ _, 0%Q;
  str_of_num := λ _, "n"
|}.

Definition env0 : collaborators := env (λ _, false).

(** A call for the given features, with the other arguments that the
    examples vary; what is not listed keeps the default of the signature. *)
Definition call_of (v : list loc) (sel : stats_arg) (cat : bool)
    (cmap : option (gmap key key)) (adds : option (gmap string custom_stat))
    (save geo : bool) : call := {|
  vectors := v; band_num := 1; nodata := None; affine_arg := None;
  stats := sel; all_touched := false; categorical := cat;
  category_map := cmap; add_stats := adds; raster_out := false;
  prefix := None; save_properties := save; geojson_out := geo;
  kw_transform := None; kw_nodata_value := None; kw_copy_properties := false
|}.

(** A call with the defaults of the signature, for the given features and
    statistics. *)
Definition call_with (v : list loc) (sel : stats_arg) : call :=
  call_of v sel false None None false false.

(** Custom statistics: a constant, the number of cells of the array
    (masked ones included), and one that raises. *)
Definition seven : custom_stat := λ _, Ok (PInt 7).
Definition cells : custom_stat := λ m, Ok (PInt (Z.of_nat (length (ma_cells m)))).
Definition boom : custom_stat := λ _, Raise (UserError 42).

(** The set-up of a run with default arguments for the given statistics. *)
Definition setup_of (names : list string) : setup :=
  Setup names false false (RasterCfg None None 1).

(** The caller's feature dictionaries: 0, 1, 2 and 7 carry properties (at
    10, 11, 12 and 10); 3 to 6 have no ['properties'] entry. *)
Definition fe0 : gmap loc feature :=
  list_to_map
    [(0, Feature gA (Some 10)); (1, Feature gP (Some 11));
     (2, Feature gB (Some 12)); (3, Feature gC None); (4, Feature gE None);
     (5, Feature gM None); (6, Feature gS None); (7, Feature gM (Some 10))]%nat.

Definition di0 : gmap loc pydict :=
  list_to_map
    [(10, {[KStr "name" := PStr "A"]}); (11, {[KStr "name" := PStr "P"]});
     (12, {[KStr "name" := PStr "B"]})]%nat.

(** A call that also sets the prefix and the output flags. *)
Definition call_shaped (v : list loc) (sel : stats_arg) (pfx : option string)
    (rout save geo : bool) : call := {|
  vectors := v; band_num := 1; nodata := None; affine_arg := None;
  stats := sel; all_touched := false; categorical := false;
  category_map := None; add_stats := None; raster_out := rout;
  prefix := pfx; save_properties := save; geojson_out := geo;
  kw_transform := None; kw_nodata_value := None; kw_copy_properties := false
|}.

(** A call that uses the deprecated keyword arguments, with an explicit
    nodata value of zero. *)
Definition call_deprecated (v : list loc) : call := {|
  vectors := v; band_num := 2; nodata := Some 0%Q; affine_arg := None;
  stats := StatsStr "count"; all_touched := false; categorical := false;
  category_map := None; add_stats := None; raster_out := false;
  prefix := None; save_properties := false; geojson_out := false;
  kw_transform := Some (0, 1, 0, 0, 0, -1)%Q; kw_nodata_value := Some 5%Q;
  kw_copy_properties := true
|}.

(** The state in which the examples start. *)
Definition start : state := State [] false None None fe0 di0.

(** The fully covered window with the given cells, for feature [f]. *)
Definition window_of (names : list string) (f : feature) (cells : list Q)
  : masked_window :=
  masked_window_of env0 (setup_of names) f (win cells)
    (row (replicate (length cells) true)).

(** A rasterizer that covers the whole window with [all_touched] and
    nothing without. *)
Definition env_touched : collaborators := {|
  DEFAULT_STATS := DEFAULT_STATS Demo.env0;
  rast_read := rast_read Demo.env0;
  boxify_points := boxify_points Demo.env0;
  rasterize_geom := λ _ _ w touched, Ok (nd_map (λ _, touched) (w_array w));
  rasterize_pctcover := rasterize_pctcover Demo.env0;
  oom_nodata_mask := oom_nodata_mask Demo.env0;
  oom_masked := oom_masked Demo.env0;
  oom_compressed := oom_compressed Demo.env0;
  np_std := np_std Demo.env0;
  np_median := np_median Demo.env0;
  np_percentile := np_percentile Demo.env0;
  str_of_num := str_of_num Demo.env0
|}.
(** A categorical call with a prefix. *)
Definition call_histogram (v : list loc) (sel : stats_arg) (pfx : option string)
  : call := {|
  vectors := v; band_num := 1; nodata := None; affine_arg := None;
  stats := sel; all_touched := false; categorical := true;
  category_map := None; add_stats := None; raster_out := false;
  prefix := pfx; save_properties := false; geojson_out := false;
  kw_transform := None; kw_nodata_value := None; kw_copy_properties := false
|}.
End Demo.

(** * Properties *)

(** ** Running a computation of the loop monad *)

Lemma bind_run {A B} (m : M A) (k : A → M B) (s : state) :
  (m ≫= k) s =
  match m s with
  | (Ret a, s') => k a s'
  | (Continue, s') => (Continue, s')
  | (Exc e, s') => (Exc e, s')
  end.
Proof. reflexivity. Qed.

Lemma bind_ret_run {A B} (m : M A) (k : A → M B) s a s' :
  m s = (Ret a, s') → (m ≫= k) s = k a s'.
Proof. intros H. by rewrite bind_run, H. Qed.

Lemma bind_exc_run {A B} (m : M A) (k : A → M B) s e s' :
  m s = (Exc e, s') → (m ≫= k) s = (Exc e, s').
Proof. intros H. by rewrite bind_run, H. Qed.

Lemma bind_continue_run {A B} (m : M A) (k : A → M B) s s' :
  m s = (Continue, s') → (m ≫= k) s = (Continue, s').
Proof. intros H. by rewrite bind_run, H. Qed.

(** ** What a computation adds to the trace *)

Section Emits.
Context (P : event → Prop).

Lemma emits_silent {A} (m : M A) :
  (∀ s, trace (m s).2 = trace s) → emits P m.
Proof. intros H s. exists []. rewrite H, app_nil_r. auto. Qed.

Lemma emits_ret {A} (a : A) : emits P (mret a).
Proof. by apply emits_silent. Qed.

Lemma emits_raise {A} e : emits P (raise e : M A).
Proof. by apply emits_silent. Qed.

Lemma emits_continue {A} : emits P (continue_ : M A).
Proof. by apply emits_silent. Qed.

Lemma emits_get {A} (f : state → A) : emits P (get f).
Proof. by apply emits_silent. Qed.

Lemma emits_lift {A} (r : result A) : emits P (lift r).
Proof. destruct r; [apply emits_ret | apply emits_raise]. Qed.

Lemma emits_modify (f : state → state) :
  (∀ s, trace (f s) = trace s) → emits P (modify f).
Proof. intros H. by apply emits_silent. Qed.

Lemma emits_emit e : P e → emits P (emit e).
Proof. intros H s. exists [e]. split; [done | by constructor]. Qed.

Lemma emits_bind {A B} (m : M A) (k : A → M B) :
  emits P m → (∀ a, emits P (k a)) → emits P (m ≫= k).
Proof.
  intros Hm Hk s. rewrite bind_run.
  destruct (Hm s) as (evs & Ht & Hall).
  destruct (m s) as [[a| |e] s1]; simpl in *; eauto.
  destruct (Hk a s1) as (evs' & Ht' & Hall').
  exists (evs ++ evs'). rewrite Ht', Ht, app_assoc.
  split; [done | by apply Forall_app].
Qed.

Lemma emits_try_memory {A} (m h : M A) :
  emits P m → emits P h → emits P (try_memory m h).
Proof.
  intros Hm Hh s. unfold try_memory.
  destruct (Hm s) as (evs & Ht & Hall).
  destruct (m s) as [[a| |e] s1]; simpl in *; eauto.
  destruct e; simpl; eauto.
  destruct (Hh s1) as (evs' & Ht' & Hall').
  exists (evs ++ evs'). rewrite Ht', Ht, app_assoc.
  split; [done | by apply Forall_app].
Qed.

Lemma emits_when b (m : M unit) : emits P m → emits P (when b m).
Proof. destruct b; [done | intros _; apply emits_ret]. Qed.

Lemma emits_foldM {A B} (f : B → A → M B) l :
  (∀ b a, emits P (f b a)) → ∀ b, emits P (foldM f b l).
Proof.
  intros Hf. induction l as [|x l IH]; intros b; simpl.
  - apply emits_ret.
  - apply emits_bind; auto.
Qed.

Lemma emits_get_feat l : emits P (get_feat l).
Proof.
  apply emits_silent. intros s. unfold get_feat. by destruct (feats s !! l).
Qed.

Lemma emits_get_dict l : emits P (get_dict l).
Proof.
  apply emits_silent. intros s. unfold get_dict. by destruct (dicts s !! l).
Qed.

Lemma emits_feat_properties l : emits P (feat_properties l).
Proof.
  apply emits_bind; [apply emits_get_feat|].
  intros f. destruct (f_properties f); [apply emits_ret | apply emits_raise].
Qed.

Lemma emits_new_properties l f : emits P (new_properties l f).
Proof. by apply emits_silent. Qed.

Lemma emits_merge_item l kv : emits P (merge_item l kv).
Proof.
  apply emits_bind; [apply emits_get_feat|]. intros f.
  apply emits_bind.
  { destruct (f_properties f); [apply emits_ret | apply emits_new_properties]. }
  intros pl. apply emits_bind; [apply emits_get_dict|]. intros d.
  by apply emits_modify.
Qed.

End Emits.

Create HintDb emits discriminated.
#[export] Hint Resolve emits_ret emits_raise emits_continue emits_get emits_lift
  emits_get_feat emits_get_dict emits_feat_properties emits_merge_item : emits.
#[export] Hint Constructors loop_event : emits.

(** Decomposes an [emits] goal along the structure of the computation. *)
Ltac emits_step :=
  match goal with
  | |- emits _ (mbind _ _) => apply emits_bind; [|intros ?]
  | |- emits _ (try_memory _ _) => apply emits_try_memory
  | |- emits _ (when _ _) => apply emits_when
  | |- emits _ (foldM _ _ _) => apply emits_foldM; intros ? ?
  | |- emits _ (emit _) => apply emits_emit; solve [auto with emits]
  | |- emits _ (modify _) => apply emits_modify; intros ?; reflexivity
  | |- emits _ (if ?b then _ else _) => destruct b
  | |- emits _ (match ?x with _ => _ end) => destruct x
  | |- emits _ _ => solve [auto with emits]
  end.
Ltac emits_auto := repeat emits_step.

(** Which kinds of events each stage of an iteration can add. *)
Section StageEvents.
Context (env : collaborators) (c : call) (su : setup) (P : event → Prop).

Lemma emits_skip_feature {A} msg l :
  (∀ p, P (EvPrint p)) → emits P (skip_feature msg l : M A).
Proof. intros Hp. unfold skip_feature, print_properties. emits_auto. Qed.

Lemma emits_acquire i l :
  (∀ p, P (EvPrint p)) → (∀ b, P (EvRead i b)) →
  (∀ g, P (EvRasterize i g (su_all_touched su))) →
  emits P (acquire env su i l).
Proof.
  intros Hp Hr Hz. unfold acquire.
  repeat first [ apply emits_skip_feature; assumption | emits_step ].
Qed.

Lemma emits_stat_if name v fs :
  emits P v → emits P (stat_if su name v fs).
Proof. intros Hv. unfold stat_if. emits_auto. Qed.

Lemma emits_use_pctcover : emits P use_pctcover.
Proof. unfold use_pctcover. emits_auto. Qed.

Lemma emits_use_pixel_count : emits P use_pixel_count.
Proof. unfold use_pixel_count. emits_auto. Qed.

Lemma emits_extreme o : emits P (extreme o).
Proof. unfold extreme. emits_auto. Qed.

Lemma emits_range_stat compressed fs : emits P (range_stat compressed fs).
Proof.
  unfold range_stat. repeat first [ apply emits_extreme | emits_step ].
Qed.

Lemma emits_populated_stats i l w :
  (∀ p, P (EvPrint p)) → (∀ g, P (EvPctcover i g)) →
  emits P (populated_stats env c su i l w).
Proof.
  intros Hp Hc. unfold populated_stats.
  repeat first [ apply emits_stat_if | apply emits_skip_feature; assumption
               | apply emits_use_pctcover | apply emits_use_pixel_count
               | apply emits_extreme | apply emits_range_stat | emits_step ].
Qed.

Lemma emits_builtin_stats i l w :
  (∀ p, P (EvPrint p)) → (∀ g, P (EvPctcover i g)) →
  emits P (builtin_stats env c su i l w).
Proof.
  intros Hp Hc. unfold builtin_stats.
  destruct (_ =? _)%nat; [apply emits_ret | by apply emits_populated_stats].
Qed.

Lemma emits_custom_stats i masked fs :
  (∀ name, P (EvCustom i name masked)) → emits P (custom_stats c i masked fs).
Proof. intros Hc. unfold custom_stats. emits_auto. Qed.

Lemma emits_emit_record l fs :
  (∀ r, P (EvYield r)) → emits P (emit_record c l fs).
Proof. intros Hy. unfold emit_record. emits_auto. Qed.

End StageEvents.

Section LoopEvents.
Context (env : collaborators) (c : call) (su : setup).
Local Abbreviation E := (loop_event su).

Lemma emits_aggregate i l w : emits E (aggregate env c su i l w).
Proof.
  unfold aggregate.
  apply emits_bind; [apply emits_builtin_stats; auto with emits|].
  intros fs. apply emits_bind; [apply emits_custom_stats; auto with emits|].
  intros fs'. apply emits_emit_record; auto with emits.
Qed.

Lemma emits_body i l : emits E (body env c su i l).
Proof.
  unfold body. apply emits_bind; [apply emits_acquire; auto with emits|].
  intros w. apply emits_aggregate.
Qed.

Lemma loop_trace ls : ∀ i s,
  ∃ evs, trace (loop env c su i ls s).2 = trace s ++ evs ∧ Forall E evs.
Proof.
  induction ls as [|l ls IH]; intros i s; simpl.
  - exists []. by rewrite app_nil_r.
  - destruct (emits_body i l s) as (evs & Ht & Hall).
    destruct (body env c su i l s) as [[[]| |e] s1]; simpl in *; eauto.
    all: destruct (IH (S i) s1) as (evs' & Ht' & Hall');
      exists (evs ++ evs'); rewrite Ht', Ht, app_assoc;
      split; [done | by apply Forall_app].
Qed.

End LoopEvents.

(** ** Validation *)

Lemma validate_stats_ok l :
  validate_stats l = None ↔ Forall (λ x, acceptable x = true) l.
Proof.
  induction l as [|x l IH]; simpl; [by split|].
  rewrite Forall_cons, <- IH. unfold acceptable.
  destruct (String.prefix "percentile_" x).
  - destruct (get_percentile x); intuition congruence.
  - destruct (has x VALID_STATS); intuition congruence.
Qed.

Lemma get_percentile_error name e :
  get_percentile name = Raise e → validation_error e.
Proof.
  unfold get_percentile. repeat case_match; intros [=]; by subst.
Qed.

Lemma validate_stats_error l e :
  validate_stats l = Some e → validation_error e.
Proof.
  induction l as [|x l IH]; simpl; [done|].
  destruct (String.prefix "percentile_" x).
  - destruct (get_percentile x) eqn:Hp; [done|].
    intros [= <-]. by eapply get_percentile_error.
  - destruct (has x VALID_STATS); [done|]. by intros [= <-].
Qed.

Lemma check_stats_ok default sel cat sts rc wts :
  check_stats default sel cat = Ok (sts, rc, wts) →
  sts = resolve_stats default sel ∧
  Forall (λ x, acceptable x = true) sts ∧
  wts = existsb (String.prefix "weighted_") sts.
Proof.
  unfold check_stats.
  destruct (validate_stats _) eqn:Hv; [done|].
  intros [= <- <- <-]. split_and!; [done| |done].
  by apply validate_stats_ok.
Qed.

(** After a successful validation the percentile specifications that the
    loop parses again for every feature (line 282) cannot fail. *)
Lemma validated_percentiles_parse default sel cat sts rc wts pctile :
  check_stats default sel cat = Ok (sts, rc, wts) →
  pctile ∈ List.filter (String.prefix "percentile_") sts →
  ∃ q, get_percentile pctile = Ok q.
Proof.
  intros Hc Hin. apply check_stats_ok in Hc as (_ & Hall & _).
  apply list_elem_of_In, filter_In in Hin as [Hin Hpre].
  rewrite Forall_forall in Hall. apply list_elem_of_In, Hall in Hin.
  unfold acceptable in Hin. rewrite Hpre in Hin.
  destruct (get_percentile pctile) as [q|]; [by exists q | done].
Qed.

(** ** The shape of every trace *)

Lemma gen_zonal_stats_trace env c fe di :
  (∃ e, check_stats (DEFAULT_STATS env) (stats c) (categorical c) = Raise e ∧
        gen_zonal_stats env c fe di =
          (Raised e, State [EvCheckStats] false None None fe di)) ∨
  (∃ sts rc wts evs,
      check_stats (DEFAULT_STATS env) (stats c) (categorical c) = Ok (sts, rc, wts) ∧
      let cfg := configure c sts rc wts in
      trace (gen_zonal_stats env c fe di).2
        = [EvCheckStats] ++ cfg.1 ++ [EvOpen (su_rast cfg.2)] ++ evs ++ [EvClose] ∧
      Forall (loop_event cfg.2) evs).
Proof.
  unfold gen_zonal_stats.
  destruct (check_stats _ _ _) as [[[sts rc] wts]|e] eqn:Hc; [right|left; eauto].
  exists sts, rc, wts.
  destruct (configure c sts rc wts) as [ws su] eqn:Hcfg.
  set (s0 := State _ _ _ _ _ _).
  destruct (loop_trace env c su (vectors c) 0 s0) as (evs & Ht & Hall).
  exists evs. destruct (loop env c su 0 (vectors c) s0) as [st s1].
  simpl in *. split; [done|]. rewrite Ht. simpl.
  split; [|done]. by rewrite <- !app_assoc.
Qed.

Lemma configure_warnings c sts rc wts e :
  e ∈ (configure c sts rc wts).1 → ∃ msg, e = EvWarn msg.
Proof.
  unfold configure. simpl. rewrite !elem_of_app.
  intros [H|[H|H]]; repeat case_match;
    first [apply list_elem_of_singleton in H | apply elem_of_nil in H];
    by eauto.
Qed.

(** Closes a decidable goal by evaluation. *)
Ltac by_compute := refine (bool_decide_unpack _ _); vm_compute; exact I.

(** C7. The statistics selection is validated once, as the first thing the
    generator does. An invalid selection ends the call with a validation
    error when nothing but the validation has happened: the raster has not
    been opened or read, no feature has been touched, nothing was yielded. *)
Theorem validation_is_eager env c fe di :
  (Exists (λ name, acceptable name = false)
          (resolve_stats (DEFAULT_STATS env) (stats c)) →
   ∃ e, validation_error e ∧
        gen_zonal_stats env c fe di =
          (Raised e, State [EvCheckStats] false None None fe di)) ∧
  (∃ rest, trace (gen_zonal_stats env c fe di).2 = EvCheckStats :: rest ∧
           EvCheckStats ∉ rest).
Proof.
  split.
  - intros Hbad. unfold gen_zonal_stats, check_stats.
    destruct (validate_stats _) as [e|] eqn:Hv.
    + exists e. split; [by eapply validate_stats_error | done].
    + apply validate_stats_ok in Hv. apply Exists_exists in Hbad as (x & Hx & Hf).
      rewrite Forall_forall in Hv. apply Hv in Hx. congruence.
  - destruct (gen_zonal_stats_trace env c fe di)
      as [(e & _ & Hg)|(sts & rc & wts & evs & Hc & Ht & Hall)].
    + rewrite Hg. exists []. split; [done | apply not_elem_of_nil].
    + cbv zeta in Ht. rewrite Ht. eexists. split; [reflexivity|].
      rewrite !elem_of_app, !list_elem_of_singleton.
      intros [Hin|[Hin|[Hin|Hin]]]; try discriminate.
      * apply configure_warnings in Hin as [msg Hin]. discriminate.
      * rewrite Forall_forall in Hall. apply Hall in Hin. inversion Hin.
Qed.

Lemma validation_is_eager_witness :
  ∃ e, validation_error e ∧
       gen_zonal_stats Demo.env0
         (Demo.call_with [0; 1; 2]%nat (StatsStr "mean foo")) Demo.fe0 Demo.di0 =
       (Raised e, State [EvCheckStats] false None None Demo.fe0 Demo.di0).
Proof.
  apply (validation_is_eager Demo.env0
           (Demo.call_with [0; 1; 2]%nat (StatsStr "mean foo")) Demo.fe0 Demo.di0).
  by_compute.
Defined.

(** Unfolds the operations of the loop monad, to run a computation on a
    given state. *)
Ltac munfold :=
  unfold mbind, M_bind, mret, M_ret, emit, modify, get, raise, continue_, when,
    set_trace, set_weights, set_pctcover, set_pixel_count, set_feats, set_dicts.

(** ** Window acquisition and rasterization *)

Section Acquire.
Context (env : collaborators) (c : call) (su : setup).

Lemma after_point_store f s :
  feats (after_point f s) = feats s ∧ dicts (after_point f s) = dicts s ∧
  trace (after_point f s) = trace s ∧ pctcover (after_point f s) = pctcover s ∧
  pixel_count (after_point f s) = pixel_count s.
Proof. unfold after_point. by destruct (str_contains _ _). Qed.

Lemma skip_feature_run {A} msg l s f pl d :
  feats s !! l = Some f → f_properties f = Some pl → dicts s !! pl = Some d →
  (skip_feature msg l : M A) s =
  (Continue, set_trace (trace s ++ [EvPrint (PrMsg msg); EvPrint (PrProps d)]) s).
Proof.
  intros Hf Hp Hd.
  unfold skip_feature, print_properties, feat_properties, get_feat, get_dict.
  munfold. cbn. rewrite Hf, Hp. cbn. rewrite Hd. cbn.
  by rewrite <- app_assoc.
Qed.

Lemma skip_feature_no_properties {A} msg l s f :
  feats s !! l = Some f → f_properties f = None →
  (skip_feature msg l : M A) s =
  (Exc (KeyError "properties"), set_trace (trace s ++ [EvPrint (PrMsg msg)]) s).
Proof.
  intros Hf Hp.
  unfold skip_feature, print_properties, feat_properties, get_feat.
  munfold. cbn. by rewrite Hf, Hp.
Qed.

(** Runs [acquire] on a state whose feature is known, splitting on whether
    the geometry is a point. *)
Ltac acquire_go Hf :=
  unfold acquire, get_feat, try_memory, lift, footprint, after_point in *;
  munfold; cbn; rewrite Hf; cbn;
  destruct (str_contains "Point" _); cbn.

Lemma acquire_shape_mismatch i l s f fsrc rv :
  feats s !! l = Some f →
  rast_read env i (su_rast su) (bounds (footprint env su f)) = Ok fsrc →
  rasterize_geom env i (footprint env su f) fsrc (su_all_touched su) = Ok rv →
  nd_shape rv ≠ w_shape fsrc →
  acquire env su i l s =
  (Exc AssertionError,
   set_trace (trace s ++ [EvRead i (bounds (footprint env su f));
                          EvRasterize i (footprint env su f) (su_all_touched su)])
     (after_point f s)).
Proof.
  intros Hf Hr Hz Hne. acquire_go Hf.
  all: rewrite Hr; cbn; rewrite Hz; cbn.
  all: destruct (decide _) as [|_]; [done|]; by rewrite <- app_assoc.
Qed.

(** A memory error inside a [try] block, for a feature that has
    properties: they are printed and the iteration is abandoned. *)
Lemma acquire_guarded_memory_error i l s f pl d msg evs :
  feats s !! l = Some f → f_properties f = Some pl → dicts s !! pl = Some d →
  guarded_memory_error env su i f msg evs →
  acquire env su i l s =
  (Continue,
   set_trace (trace s ++ evs ++ [EvPrint (PrMsg msg); EvPrint (PrProps d)])
     (after_point f s)).
Proof.
  intros Hf Hp Hd Hg.
  assert (Hskip : ∀ A t w, (skip_feature msg l : M A)
            (State t w (pctcover s) (pixel_count s) (feats s) (dicts s)) =
          (Continue, State (t ++ [EvPrint (PrMsg msg); EvPrint (PrProps d)]) w
                       (pctcover s) (pixel_count s) (feats s) (dicts s))).
  { intros A t w. by erewrite skip_feature_run. }
  destruct Hg as [Hr|fsrc Hr Hz|fsrc rv (Hr & Hz & Hsh) Hnd Hm
                 |fsrc rv (Hr & Hz & Hsh) Hnd Hm Hc].
  - acquire_go Hf; rewrite Hr; cbn; rewrite Hskip; by rewrite <- app_assoc.
  - acquire_go Hf; rewrite Hr; cbn; rewrite Hz; cbn; rewrite Hskip;
      by rewrite <- !app_assoc.
  - acquire_go Hf; rewrite Hr; cbn; rewrite Hz; cbn;
      (destruct (decide _) as [_|]; [|done]); cbn;
      (destruct (has "nodata" _); [rewrite Hnd by done|]); cbn;
      rewrite Hm; cbn; rewrite Hskip; by rewrite <- !app_assoc.
  - acquire_go Hf; rewrite Hr; cbn; rewrite Hz; cbn;
      (destruct (decide _) as [_|]; [|done]); cbn;
      (destruct (has "nodata" _); [rewrite Hnd by done|]); cbn;
      rewrite Hm; cbn; rewrite Hc; cbn; rewrite Hskip; by rewrite <- !app_assoc.
Qed.

(** The same memory error for a feature without a ['properties'] entry:
    the handler's own [print feat['properties']] raises [KeyError]. *)
Lemma acquire_guarded_memory_error_no_properties i l s f msg evs :
  feats s !! l = Some f → f_properties f = None →
  guarded_memory_error env su i f msg evs →
  acquire env su i l s =
  (Exc (KeyError "properties"),
   set_trace (trace s ++ evs ++ [EvPrint (PrMsg msg)]) (after_point f s)).
Proof.
  intros Hf Hp Hg.
  assert (Hskip : ∀ A t w, (skip_feature msg l : M A)
            (State t w (pctcover s) (pixel_count s) (feats s) (dicts s)) =
          (Exc (KeyError "properties"),
           State (t ++ [EvPrint (PrMsg msg)]) w
                 (pctcover s) (pixel_count s) (feats s) (dicts s))).
  { intros A t w. by erewrite skip_feature_no_properties. }
  destruct Hg as [Hr|fsrc Hr Hz|fsrc rv (Hr & Hz & Hsh) Hnd Hm
                 |fsrc rv (Hr & Hz & Hsh) Hnd Hm Hc].
  - acquire_go Hf; rewrite Hr; cbn; rewrite Hskip; by rewrite <- app_assoc.
  - acquire_go Hf; rewrite Hr; cbn; rewrite Hz; cbn; rewrite Hskip;
      by rewrite <- !app_assoc.
  - acquire_go Hf; rewrite Hr; cbn; rewrite Hz; cbn;
      (destruct (decide _) as [_|]; [|done]); cbn;
      (destruct (has "nodata" _); [rewrite Hnd by done|]); cbn;
      rewrite Hm; cbn; rewrite Hskip; by rewrite <- !app_assoc.
  - acquire_go Hf; rewrite Hr; cbn; rewrite Hz; cbn;
      (destruct (decide _) as [_|]; [|done]); cbn;
      (destruct (has "nodata" _); [rewrite Hnd by done|]); cbn;
      rewrite Hm; cbn; rewrite Hc; cbn; rewrite Hskip; by rewrite <- !app_assoc.
Qed.

(** A feature whose window, mask, masked array and compressed list are all
    obtained reaches the statistics with these values. *)
Lemma acquire_ok i l s f fsrc rv :
  feats s !! l = Some f →
  rasterized env su i f fsrc rv →
  arrays_fit env su i →
  acquire env su i l s =
  (Ret (masked_window_of env su f fsrc rv), rasterized_state env su i f s).
Proof.
  intros Hf (Hr & Hz & Hsh) (Hnd & Hm & Hc).
  unfold masked_window_of, rasterized_state, nodata_stat, mask_window.
  acquire_go Hf; rewrite Hr; cbn; rewrite Hz; cbn;
    (destruct (decide _) as [_|]; [|done]); cbn;
    (destruct (has "nodata" _); [rewrite Hnd by done|]); cbn;
    rewrite Hm; cbn; rewrite Hc; cbn; by rewrite <- app_assoc.
Qed.

(** The memory error that no handler surrounds: the array of the [nodata]
    statistic (line 188). *)
Lemma acquire_nodata_memory_error i l s f fsrc rv :
  feats s !! l = Some f →
  rasterized env su i f fsrc rv →
  has "nodata" (su_stats su) = true →
  oom_nodata_mask env i = true →
  acquire env su i l s =
  (Exc MemoryError,
   set_trace (trace s ++ [EvRead i (bounds (footprint env su f));
                          EvRasterize i (footprint env su f) (su_all_touched su)])
     (after_point f s)).
Proof.
  intros Hf (Hr & Hz & Hsh) Hnd Ho.
  acquire_go Hf; rewrite Hr; cbn; rewrite Hz; cbn;
    (destruct (decide _) as [_|]; [|done]); cbn;
    rewrite Hnd, Ho; cbn; by rewrite <- app_assoc.
Qed.

End Acquire.

(** C8. The shape of the rasterized mask is compared with the shape of the
    window for whichever feature is being processed. When they differ the
    loop ends there with [AssertionError]: the handler of the surrounding
    [try] does not run (nothing is printed), nothing is yielded, the store
    is untouched and the remaining features are not processed. *)
Theorem shape_mismatch_is_fatal env c su i l ls s f fsrc rv :
  feats s !! l = Some f →
  rast_read env i (su_rast su) (bounds (footprint env su f)) = Ok fsrc →
  rasterize_geom env i (footprint env su f) fsrc (su_all_touched su) = Ok rv →
  nd_shape rv ≠ w_shape fsrc →
  ∃ s', loop env c su i (l :: ls) s = (Raised AssertionError, s') ∧
        trace s' = trace s ++ [EvRead i (bounds (footprint env su f));
                               EvRasterize i (footprint env su f) (su_all_touched su)] ∧
        feats s' = feats s ∧ dicts s' = dicts s.
Proof.
  intros Hf Hr Hz Hne.
  pose proof (acquire_shape_mismatch env su i l s f fsrc rv Hf Hr Hz Hne) as Ha.
  eexists. simpl. unfold body. rewrite (bind_exc_run _ _ _ _ _ Ha).
  split; [reflexivity|]. split; [done|].
  destruct (after_point_store f s) as (Hfe & Hdi & _). by split.
Qed.

Lemma shape_mismatch_is_fatal_witness :
  ∃ s', loop Demo.env0 (Demo.call_with [6; 0]%nat StatsDefault)
          (Setup ["count"] false false (RasterCfg None None 1)) 0 [6; 0]%nat
          (State [] false None None Demo.fe0 Demo.di0)
        = (Raised AssertionError, s') ∧
        trace s' = [EvRead 0 (bounds Demo.gS); EvRasterize 0 Demo.gS false] ∧
        feats s' = Demo.fe0 ∧ dicts s' = Demo.di0.
Proof.
  apply (shape_mismatch_is_fatal Demo.env0 _
           (Setup ["count"] false false (RasterCfg None None 1)) 0 6%nat [0%nat]
           (State [] false None None Demo.fe0 Demo.di0)
           (Feature Demo.gS None) (Demo.win [1; 2]%Q)
           (NdArray (1, 3)%nat [[true; true; true]])).
  - reflexivity.
  - reflexivity.
  - reflexivity.
  - by_compute.
Defined.

Lemma yields_app t1 t2 : yields (t1 ++ t2) = yields t1 ++ yields t2.
Proof. unfold yields. apply omap_app. Qed.

Lemma emits_no_yield {A} (m : M A) s :
  emits no_yield m → yields (trace (m s).2) = yields (trace s).
Proof.
  intros Hm. destruct (Hm s) as (evs & -> & Hall).
  rewrite yields_app.
  assert (yields evs = []) as ->; [|by rewrite app_nil_r].
  induction Hall as [|e evs He _ IH]; [done|].
  destruct e; simpl in *; done.
Qed.

Lemma rasterized_state_store env su i f s :
  feats (rasterized_state env su i f s) = feats s ∧
  dicts (rasterized_state env su i f s) = dicts s ∧
  yields (trace (rasterized_state env su i f s)) = yields (trace s).
Proof.
  unfold rasterized_state. simpl.
  destruct (after_point_store f s) as (-> & -> & _).
  rewrite yields_app. simpl. by rewrite app_nil_r.
Qed.

(** ** What a completed computation has done *)

Lemma bind_ret_inv {A B} (m : M A) (k : A → M B) s b s' :
  (m ≫= k) s = (Ret b, s') → ∃ a s1, m s = (Ret a, s1) ∧ k a s1 = (Ret b, s').
Proof.
  rewrite bind_run. destruct (m s) as [[a| |e] s1]; try done. eauto.
Qed.

Lemma skip_feature_not_ret {A} msg l s (a : A) s' :
  (skip_feature msg l : M A) s ≠ (Ret a, s').
Proof.
  unfold skip_feature, print_properties, feat_properties, get_feat, get_dict.
  munfold. cbn. destruct (feats s !! l) as [f|]; cbn; [|done].
  destruct (f_properties f) as [pl|]; cbn; [|done].
  by destruct (dicts s !! pl).
Qed.

Lemma try_memory_skip_ret {A} (m : M A) msg l s a s' :
  try_memory m (skip_feature msg l) s = (Ret a, s') → m s = (Ret a, s').
Proof.
  unfold try_memory. destruct (m s) as [[x| |e] s1]; try done.
  destruct e; try done. intros H. by apply skip_feature_not_ret in H.
Qed.

Section AcquireInv.
Context (env : collaborators) (su : setup).

Lemma acquire_inv i l s w s' :
  acquire env su i l s = (Ret w, s') →
  ∃ f fsrc rv,
    feats s !! l = Some f ∧ rasterized env su i f fsrc rv ∧ arrays_fit env su i ∧
    w = masked_window_of env su f fsrc rv ∧ s' = rasterized_state env su i f s.
Proof.
  intros H. unfold acquire in H.
  apply bind_ret_inv in H as (f & s0 & Hf & H).
  unfold get_feat in Hf. destruct (feats s !! l) as [f0|] eqn:Hl; [|done].
  injection Hf as -> <-.
  apply bind_ret_inv in H as (geom & s1 & Hg & H).
  assert (geom = footprint env su f ∧ s1 = after_point f s) as [-> ->].
  { unfold footprint, after_point. destruct (str_contains _ _).
    - munfold. cbn in Hg. by injection Hg as <- <-.
    - munfold. by injection Hg as <- <-. }
  clear Hg.
  apply bind_ret_inv in H as (fsrc & s2 & Hr & H).
  apply try_memory_skip_ret in Hr.
  apply bind_ret_inv in Hr as ([] & s2' & He & Hr).
  unfold emit in He. munfold. injection He as <-.
  unfold lift in Hr.
  destruct (rast_read env i (su_rast su) (bounds (footprint env su f)))
    as [fsrc0|e] eqn:Hread; [|done].
  munfold. injection Hr as -> <-.
  apply bind_ret_inv in H as (rv & s3 & Hz & H).
  apply try_memory_skip_ret in Hz.
  apply bind_ret_inv in Hz as ([] & s3' & He & Hz).
  unfold emit in He. munfold. injection He as <-.
  apply bind_ret_inv in Hz as (rv0 & s3' & Hz & Hsh).
  unfold lift in Hz.
  destruct (rasterize_geom env i (footprint env su f) fsrc (su_all_touched su))
    as [rv1|e] eqn:Hrast; [|done].
  munfold. injection Hz as -> <-.
  destruct (decide (nd_shape rv0 = w_shape fsrc)) as [Hshape|]; [|done].
  injection Hsh as -> <-.
  apply bind_ret_inv in H as (fs & s4 & Hnd & H).
  apply bind_ret_inv in H as (masked & s5 & Hm & H).
  apply try_memory_skip_ret in Hm.
  apply bind_ret_inv in H as (compressed & s6 & Hc & H).
  apply try_memory_skip_ret in Hc.
  exists f, fsrc, rv. split; [done|]. split; [done|].
  unfold arrays_fit, masked_window_of, rasterized_state, nodata_stat, mask_window.
  destruct (has "nodata" (su_stats su)).
  - destruct (oom_nodata_mask env i); [done|].
    destruct (oom_masked env i); [done|].
    destruct (oom_compressed env i); [done|].
    munfold. injection Hnd as <- <-. injection Hm as <- <-.
    injection Hc as <- <-. injection H as <- <-.
    split; [done|]. split; [done|]. unfold set_trace. cbn.
    destruct (after_point_store f s) as (_ & _ & -> & _). by rewrite <- app_assoc.
  - destruct (oom_masked env i); [done|].
    destruct (oom_compressed env i); [done|].
    munfold. injection Hnd as <- <-. injection Hm as <- <-.
    injection Hc as <- <-. injection H as <- <-.
    split; [done|]. split; [done|]. unfold set_trace. cbn.
    destruct (after_point_store f s) as (_ & _ & -> & _). by rewrite <- app_assoc.
Qed.

End AcquireInv.

(** ** The touch policy *)

Lemma body_untouched env other c su i l s :
  su_all_touched su = true →
  body (untouched_as env other) c su i l s = body env c su i l s.
Proof.
  destruct su as [sts rc at' cfg]. simpl. intros ->. reflexivity.
Qed.

Lemma loop_untouched env other c su ls :
  su_all_touched su = true →
  ∀ i s, loop (untouched_as env other) c su i ls s = loop env c su i ls s.
Proof.
  intros Hsu. induction ls as [|l ls IH]; intros i s; simpl; [done|].
  rewrite body_untouched by done.
  destruct (body env c su i l s) as [[| |] s']; by rewrite ?IH.
Qed.

Lemma gen_zonal_stats_untouched env other c fe di sts rc :
  check_stats (DEFAULT_STATS env) (stats c) (categorical c) = Ok (sts, rc, true) →
  gen_zonal_stats (untouched_as env other) c fe di = gen_zonal_stats env c fe di.
Proof.
  intros Hc. unfold gen_zonal_stats.
  change (DEFAULT_STATS (untouched_as env other)) with (DEFAULT_STATS env).
  rewrite Hc.
  destruct (configure c sts rc true) as [ws su] eqn:Hcfg.
  assert (Hsu : su_all_touched su = true).
  { unfold configure in Hcfg. by injection Hcfg as _ <-. }
  by rewrite loop_untouched.
Qed.

(** C3. If a weighted statistic is among the requested ones, the set-up
    turns the all-touched policy on, whatever the caller passed, and the
    rasterization of every feature is done with it: every call of the
    rasterizer that the run records carries it, the mask of every feature
    whose window is obtained is what the rasterizer returns for the
    feature's geometry and window with [all_touched=True], and the run is
    the same whatever the rasterizer would do with [all_touched=False]. *)
Theorem weighted_stats_force_all_touched env c fe di name :
  name ∈ ["weighted_mean"; "weighted_sum"; "weighted_count"] →
  name ∈ resolve_stats (DEFAULT_STATS env) (stats c) →
  (∀ sts rc wts,
     check_stats (DEFAULT_STATS env) (stats c) (categorical c) = Ok (sts, rc, wts) →
     su_all_touched (configure c sts rc wts).2 = true) ∧
  (∀ i g touched,
     EvRasterize i g touched ∈ trace (gen_zonal_stats env c fe di).2 →
     touched = true) ∧
  (∀ sts rc wts i l s w s',
     check_stats (DEFAULT_STATS env) (stats c) (categorical c) = Ok (sts, rc, wts) →
     acquire env (configure c sts rc wts).2 i l s = (Ret w, s') →
     let su := (configure c sts rc wts).2 in
     ∃ f fsrc rv,
       feats s !! l = Some f ∧
       rast_read env i (su_rast su) (bounds (footprint env su f)) = Ok fsrc ∧
       rasterize_geom env i (footprint env su f) fsrc true = Ok rv ∧
       mw_masked w = mask_window fsrc rv) ∧
  (∀ other,
     gen_zonal_stats (untouched_as env other) c fe di = gen_zonal_stats env c fe di).
Proof.
  intros Hw Hin.
  assert (Hwts : ∀ sts rc wts,
     check_stats (DEFAULT_STATS env) (stats c) (categorical c) = Ok (sts, rc, wts) →
     wts = true).
  { intros sts rc wts Hc.
    apply check_stats_ok in Hc as (-> & _ & ->).
    apply existsb_exists. exists name. split; [by apply list_elem_of_In|].
    set_unfold in Hw. by destruct Hw as [->|[->|[->|[]]]]. }
  assert (Hsetup : ∀ sts rc wts,
     check_stats (DEFAULT_STATS env) (stats c) (categorical c) = Ok (sts, rc, wts) →
     su_all_touched (configure c sts rc wts).2 = true).
  { intros sts rc wts Hc. by rewrite (Hwts _ _ _ Hc). }
  split; [done|]. split; [|split].
  - intros i g touched Hev.
    destruct (gen_zonal_stats_trace env c fe di)
      as [(e & _ & Hg)|(sts & rc & wts & evs & Hc & Ht & Hall)].
    + rewrite Hg in Hev. by apply list_elem_of_singleton in Hev.
    + specialize (Hsetup _ _ _ Hc). cbv zeta in Ht. rewrite Ht in Hev.
      rewrite !elem_of_app, !list_elem_of_singleton in Hev.
      destruct Hev as [Hev|[Hev|[Hev|[Hev|Hev]]]]; try discriminate.
      * apply configure_warnings in Hev as [msg Hev]. discriminate.
      * rewrite Forall_forall in Hall. apply Hall in Hev.
        inversion Hev; subst. done.
  - intros sts rc wts i l s w s' Hc Hacq.
    apply acquire_inv in Hacq as (f & fsrc & rv & Hf & (Hr & Hrast & _) & _ & -> & _).
    rewrite (Hsetup _ _ _ Hc) in Hrast. by exists f, fsrc, rv.
  - intros other.
    destruct (check_stats (DEFAULT_STATS env) (stats c) (categorical c))
      as [[[sts rc] wts]|e] eqn:Hc.
    + pose proof (Hwts _ _ _ eq_refl) as ->. by eapply gen_zonal_stats_untouched.
    + unfold gen_zonal_stats.
      change (DEFAULT_STATS (untouched_as env other)) with (DEFAULT_STATS env).
      by rewrite Hc.
Qed.

Lemma weighted_stats_force_all_touched_witness :
  all_touched (Demo.call_with [0%nat] (StatsStr "count weighted_count")) = false ∧
  rasterize_geom Demo.env_touched 0 Demo.gA (Demo.win [1; 9999]%Q) false
    ≠ rasterize_geom Demo.env_touched 0 Demo.gA (Demo.win [1; 9999]%Q) true ∧
  EvRasterize 0 Demo.gA true ∈
    trace (gen_zonal_stats Demo.env_touched
             (Demo.call_with [0%nat] (StatsStr "count weighted_count"))
             Demo.fe0 Demo.di0).2 ∧
  yields (trace (gen_zonal_stats Demo.env_touched
             (Demo.call_with [0%nat] (StatsStr "count weighted_count"))
             Demo.fe0 Demo.di0).2)
    = [YStats {[ KStr "count" := PInt 1; KStr "weighted_count" := PFloat 2 ]}] ∧
  (∀ i g touched,
    EvRasterize i g touched ∈
      trace (gen_zonal_stats Demo.env_touched
               (Demo.call_with [0%nat] (StatsStr "count weighted_count"))
               Demo.fe0 Demo.di0).2 →
    touched = true) ∧
  (∀ other,
     gen_zonal_stats (untouched_as Demo.env_touched other)
       (Demo.call_with [0%nat] (StatsStr "count weighted_count"))
       Demo.fe0 Demo.di0
     = gen_zonal_stats Demo.env_touched
         (Demo.call_with [0%nat] (StatsStr "count weighted_count"))
         Demo.fe0 Demo.di0).
Proof.
  split; [reflexivity|]. split; [by_compute|]. split; [by_compute|].
  split; [by_compute|].
  destruct (weighted_stats_force_all_touched Demo.env_touched
              (Demo.call_with [0%nat] (StatsStr "count weighted_count"))
              Demo.fe0 Demo.di0 "weighted_count") as (_ & Hev & _ & Hrun);
    [by_compute|by_compute|].
  split; [exact Hev|exact Hrun].
Defined.

(** ** Memory errors *)

Section MemoryErrors.
Context (env : collaborators) (c : call) (su : setup).

(** A memory error of the coverage-weight rasterizer (lines 236-242). *)
Lemma populated_pctcover_memory_error i l w s f pl d :
  feats s !! l = Some f → f_properties f = Some pl → dicts s !! pl = Some d →
  weights s = true →
  rasterize_pctcover env i (mw_geom w) (mw_affine w) (mw_shape w) = Raise MemoryError →
  ∃ s', populated_stats env c su i l w s = (Continue, s') ∧
        trace s' = trace s ++ [EvPctcover i (mw_geom w);
                               EvPrint (PrMsg msg_pctcover);
                               EvPrint (PrProps d)] ∧
        feats s' = feats s ∧ dicts s' = dicts s.
Proof.
  intros Hf Hp Hd Hw Hr.
  assert (Hskip : ∀ A t w pc, (skip_feature msg_pctcover l : M A)
            (State t w (pctcover s) pc (feats s) (dicts s)) =
          (Continue, State (t ++ [EvPrint (PrMsg msg_pctcover);
                                  EvPrint (PrProps d)]) w
                       (pctcover s) pc (feats s) (dicts s))).
  { intros A t w' pc. by erewrite skip_feature_run. }
  unfold populated_stats, try_memory, lift. munfold. cbn.
  destruct (su_run_count su); cbn.
  - destruct (categorical c); cbn; [destruct (truthy_map _); cbn|];
      rewrite Hw; cbn; rewrite Hr; cbn; rewrite Hskip; cbn;
      eexists; (split; [reflexivity|]); cbn; by rewrite <- app_assoc.
  - rewrite Hw; cbn; rewrite Hr; cbn; rewrite Hskip; cbn;
      eexists; (split; [reflexivity|]); cbn; by rewrite <- app_assoc.
Qed.

(** The loop goes on after a skipped feature. *)
Lemma loop_continue i l ls s s' :
  body env c su i l s = (Continue, s') →
  loop env c su i (l :: ls) s = loop env c su (S i) ls s'.
Proof. intros H. simpl. by rewrite H. Qed.

Lemma loop_raise i l ls s e s' :
  body env c su i l s = (Exc e, s') →
  loop env c su i (l :: ls) s = (Raised e, s').
Proof. intros H. simpl. by rewrite H. Qed.

(** Isolation of a memory error that a [try] block surrounds, for a
    feature that has properties: the message and the properties are printed,
    nothing is yielded, the store is as before, and the loop goes on with
    the next feature. *)
Lemma memory_error_skips_feature i l ls s f pl d msg evs :
  feats s !! l = Some f → f_properties f = Some pl → dicts s !! pl = Some d →
  guarded_memory_error env su i f msg evs →
  loop env c su i (l :: ls) s =
  loop env c su (S i) ls
    (set_trace (trace s ++ evs ++ [EvPrint (PrMsg msg); EvPrint (PrProps d)])
       (after_point f s)).
Proof.
  intros Hf Hp Hd Hg. apply loop_continue. unfold body.
  apply bind_continue_run. by eapply acquire_guarded_memory_error.
Qed.

(** The same memory error for a feature without properties ends the loop:
    the handler fails while printing. *)
Lemma memory_error_without_properties_ends_loop i l ls s f msg evs :
  feats s !! l = Some f → f_properties f = None →
  guarded_memory_error env su i f msg evs →
  loop env c su i (l :: ls) s =
  (Raised (KeyError "properties"),
   set_trace (trace s ++ evs ++ [EvPrint (PrMsg msg)]) (after_point f s)).
Proof.
  intros Hf Hp Hg. apply loop_raise. unfold body.
  apply bind_exc_run. by eapply acquire_guarded_memory_error_no_properties.
Qed.

(** A memory error while the array of the [nodata] statistic is built
    (line 188) is not handled at all: it ends the loop. *)
Lemma nodata_memory_error_ends_loop i l ls s f fsrc rv :
  feats s !! l = Some f →
  rasterized env su i f fsrc rv →
  has "nodata" (su_stats su) = true →
  oom_nodata_mask env i = true →
  loop env c su i (l :: ls) s = (Raised MemoryError, rasterized_state env su i f s).
Proof.
  intros Hf Hrast Hnd Ho. apply loop_raise. unfold body.
  apply bind_exc_run. by eapply acquire_nodata_memory_error.
Qed.

End MemoryErrors.

(** A memory error of the coverage-weight rasterizer, for a feature with
    properties and surviving values in a run that computes weights: the
    feature is skipped like in the four earlier steps. *)
Lemma coverage_memory_error_skips_feature env c su i l ls s f pl d fsrc rv :
  feats s !! l = Some f → f_properties f = Some pl → dicts s !! pl = Some d →
  rasterized env su i f fsrc rv →
  arrays_fit env su i →
  ma_compressed (mask_window fsrc rv) ≠ [] →
  weights (after_point f s) = true →
  rasterize_pctcover env i (footprint env su f) (w_affine fsrc) (w_shape fsrc)
    = Raise MemoryError →
  ∃ s', loop env c su i (l :: ls) s = loop env c su (S i) ls s' ∧
        trace s' = trace s ++
          [EvRead i (bounds (footprint env su f));
           EvRasterize i (footprint env su f) (su_all_touched su);
           EvPctcover i (footprint env su f);
           EvPrint (PrMsg msg_pctcover);
           EvPrint (PrProps d)] ∧
        feats s' = feats s ∧ dicts s' = dicts s.
Proof.
  intros Hf Hp Hd Hrast Hfit Hne Hw Hpct.
  pose proof (acquire_ok env su i l s f fsrc rv Hf Hrast Hfit) as Hacq.
  destruct (rasterized_state_store env su i f s) as (Hfe1 & Hdi1 & _).
  destruct (populated_pctcover_memory_error env c su i l
              (masked_window_of env su f fsrc rv)
              (rasterized_state env su i f s) f pl d)
    as (s' & Hrun & Ht & Hfe & Hdi); [by rewrite Hfe1|done|by rewrite Hdi1|done|done|].
  exists s'. split; [|split; [|split; congruence]].
  - apply loop_continue. unfold body. rewrite (bind_ret_run _ _ _ _ _ Hacq).
    unfold aggregate. apply bind_continue_run. unfold builtin_stats.
    cbn [mw_compressed masked_window_of].
    destruct (ma_compressed (mask_window fsrc rv)); [done|]. exact Hrun.
  - rewrite Ht. unfold rasterized_state. cbn [trace set_trace].
    by rewrite <- app_assoc.
Qed.

(** C1. Two memory errors that end the whole run instead of skipping the
    feature. First run: the [nodata] statistic is requested and the masked
    array built for it on line 188, outside every [try], cannot be
    allocated for the first feature; the run ends with [MemoryError] and
    the second feature is never read. Second run: the window of the first
    feature cannot be allocated and the feature has no ['properties']
    entry, so the handler's [print feat['properties']] raises [KeyError];
    again the second feature is never read. *)
Theorem memory_error_aborts_run :
  gen_zonal_stats (Demo.env (λ i, bool_decide (i = 0%nat)))
    (Demo.call_with [0; 2]%nat (StatsStr "count nodata")) Demo.fe0 Demo.di0 =
  (Raised MemoryError,
   State [EvCheckStats; EvOpen (RasterCfg None None 1);
          EvRead 0 (bounds Demo.gA); EvRasterize 0 Demo.gA false; EvClose]
         false None None Demo.fe0 Demo.di0) ∧
  gen_zonal_stats Demo.env0
    (Demo.call_with [5; 2]%nat (StatsStr "count")) Demo.fe0 Demo.di0 =
  (Raised (KeyError "properties"),
   State [EvCheckStats; EvOpen (RasterCfg None None 1);
          EvRead 0 (bounds Demo.gM); EvPrint (PrMsg msg_fsrc);
          EvClose]
         false None None Demo.fe0 Demo.di0).
Proof. split; vm_compute; reflexivity. Qed.

(** The same window failure for a feature that has properties is skipped,
    and the next feature is processed and yielded. *)
Example memory_error_skipped_with_properties :
  zonal_stats Demo.env0
    (Demo.call_with [7; 2]%nat (StatsStr "count")) Demo.fe0 Demo.di0 =
  Ok [YStats {[KStr "count" := PInt 3]}].
Proof. vm_compute. reflexivity. Qed.

(** ** Coverage weights *)

(** C5. A window of two cells, the second holding the nodata value, both
    fully covered. One value survives, so [count] is 1, but
    [weighted_count] is 2: line 247 adds up the coverage of every cell of
    the window, the excluded one included. The sibling statistics do
    restrict the weights to the surviving cell: [weighted_sum] is 1 and
    [weighted_mean], whose denominator is the restricted weight total, is 1. *)
Theorem weighted_count_counts_excluded_cells :
  zonal_stats Demo.env0
    (Demo.call_with [0%nat]
       (StatsStr "count weighted_count weighted_sum weighted_mean"))
    Demo.fe0 Demo.di0 =
  Ok [YStats {[ KStr "count" := PInt 1;
                KStr "weighted_count" := PFloat 2;
                KStr "weighted_sum" := PFloat 1;
                KStr "weighted_mean" := PFloat 1 ]}].
Proof. vm_compute. reflexivity. Qed.

(** C4. Three features: polygon A (two cells, one valid), a point, polygon
    B (three valid cells), with [weighted_count] requested. The point sets
    the local [weights] to false and nothing sets it back: for the point
    and for B no coverage weights are computed (there is no [EvPctcover]
    event for them), and both report the stale weights of A, 2. When the
    point comes first the local [pctcover] was never assigned and the run
    ends with [UnboundLocalError]. *)
Theorem point_disables_weights_for_the_rest :
  gen_zonal_stats Demo.env0
    (Demo.call_with [0; 1; 2]%nat (StatsStr "count weighted_count"))
    Demo.fe0 Demo.di0 =
  (Done,
   State [EvCheckStats; EvOpen (RasterCfg None None 1);
          EvRead 0 (bounds Demo.gA); EvRasterize 0 Demo.gA true;
          EvPctcover 0 Demo.gA;
          EvYield (YStats {[ KStr "count" := PInt 1;
                             KStr "weighted_count" := PFloat 2 ]});
          EvRead 1 (bounds Demo.gBox); EvRasterize 1 Demo.gBox true;
          EvYield (YStats {[ KStr "count" := PInt 1;
                             KStr "weighted_count" := PFloat 2 ]});
          EvRead 2 (bounds Demo.gB); EvRasterize 2 Demo.gB true;
          EvYield (YStats {[ KStr "count" := PInt 3;
                             KStr "weighted_count" := PFloat 2 ]});
          EvClose]
         false (Some (NdArray (1, 2)%nat [[1; 1]%Q]))
         None Demo.fe0 Demo.di0) ∧
  zonal_stats Demo.env0
    (Demo.call_with [2%nat] (StatsStr "count weighted_count"))
    Demo.fe0 Demo.di0 =
  Ok [YStats {[ KStr "count" := PInt 3; KStr "weighted_count" := PFloat 3 ]}] ∧
  zonal_stats Demo.env0
    (Demo.call_with [1; 2]%nat (StatsStr "count weighted_count"))
    Demo.fe0 Demo.di0 =
  Raise (UnboundLocalError "pctcover").
Proof. repeat split; vm_compute; reflexivity. Qed.

(** ** Once a point has switched the weights off *)

Section Keeps.
Context (I : state → Prop).

Lemma keeps_silent {A} (m : M A) : (∀ s, (m s).2 = s) → keeps I m.
Proof. intros H s Hs. by rewrite H. Qed.

Lemma keeps_ret {A} (a : A) : keeps I (mret a).
Proof. by apply keeps_silent. Qed.

Lemma keeps_raise {A} e : keeps I (raise e : M A).
Proof. by apply keeps_silent. Qed.

Lemma keeps_continue {A} : keeps I (continue_ : M A).
Proof. by apply keeps_silent. Qed.

Lemma keeps_lift {A} (r : result A) : keeps I (lift r).
Proof. destruct r; [apply keeps_ret | apply keeps_raise]. Qed.

Lemma keeps_get_feat l : keeps I (get_feat l).
Proof.
  apply keeps_silent. intros s. unfold get_feat. by destruct (feats s !! l).
Qed.

Lemma keeps_get_dict l : keeps I (get_dict l).
Proof.
  apply keeps_silent. intros s. unfold get_dict. by destruct (dicts s !! l).
Qed.

Lemma keeps_modify (f : state → state) :
  (∀ s, I s → I (f s)) → keeps I (modify f).
Proof. intros H s Hs. by apply H. Qed.

Lemma keeps_bind {A B} (m : M A) (k : A → M B) :
  keeps I m → (∀ a, keeps I (k a)) → keeps I (m ≫= k).
Proof.
  intros Hm Hk s Hs. rewrite bind_run. specialize (Hm s Hs).
  destruct (m s) as [[a| |e] s1]; simpl in *; [|done..].
  by apply Hk.
Qed.

(** [m] may establish [I] itself, if what follows keeps it. *)
Lemma keeps_establish {A B} (m : M A) (k : A → M B) s :
  I (m s).2 → (∀ a, keeps I (k a)) → I ((m ≫= k) s).2.
Proof.
  intros Hm Hk. rewrite bind_run.
  destruct (m s) as [[a| |e] s1]; simpl in *; [|done..].
  by apply Hk.
Qed.

Lemma keeps_try_memory {A} (m h : M A) :
  keeps I m → keeps I h → keeps I (try_memory m h).
Proof.
  intros Hm Hh s Hs. unfold try_memory. specialize (Hm s Hs).
  destruct (m s) as [[a| |e] s1]; simpl in *; [done..|].
  destruct e; simpl; try done. by apply Hh.
Qed.

Lemma keeps_foldM {A B} (f : B → A → M B) l :
  (∀ b a, keeps I (f b a)) → ∀ b, keeps I (foldM f b l).
Proof.
  intros Hf. induction l as [|x l IH]; intros b; simpl.
  - apply keeps_ret.
  - apply keeps_bind; auto.
Qed.

End Keeps.

Section WeightsOff.
Context (env : collaborators) (c : call) (su : setup) (p : option (ndarray Q)).
Local Abbreviation Off := (weights_off p).

(** A state change that leaves the two locals alone. *)
Lemma keeps_off_frame (f : state → state) :
  (∀ s, weights (f s) = weights s ∧ pctcover (f s) = pctcover s) →
  keeps Off (modify f).
Proof.
  intros Hf. apply keeps_modify. intros s [Hw Hp].
  destruct (Hf s) as [Hw' Hp']. split; congruence.
Qed.

Lemma keeps_off_emit e : keeps Off (emit e).
Proof. by apply keeps_off_frame. Qed.

(** Reading [weights] in such a state gives false. *)
Lemma keeps_off_get_weights {B} (k : bool → M B) :
  keeps Off (k false) → keeps Off (get weights ≫= k).
Proof.
  intros Hk s Hs. rewrite bind_run. unfold get. simpl.
  destruct Hs as [Hw Hp]. rewrite Hw. by apply Hk.
Qed.

Ltac keeps_step :=
  match goal with
  | |- keeps _ (get weights ≫= _) => apply keeps_off_get_weights
  | |- keeps _ (mbind _ _) => apply keeps_bind; [|intros ?]
  | |- keeps _ (try_memory _ _) => apply keeps_try_memory
  | |- keeps _ (foldM _ _ _) => apply keeps_foldM; intros ? ?
  | |- keeps _ (emit _) => apply keeps_off_emit
  | |- keeps _ (mret _) => apply keeps_ret
  | |- keeps _ (raise _) => apply keeps_raise
  | |- keeps _ continue_ => apply keeps_continue
  | |- keeps _ (lift _) => apply keeps_lift
  | |- keeps _ (get_feat _) => apply keeps_get_feat
  | |- keeps _ (get_dict _) => apply keeps_get_dict
  | |- keeps _ (get _) => apply keeps_silent; reflexivity
  | |- keeps _ (modify _) => apply keeps_off_frame; intros ?; split; reflexivity
  | |- keeps _ (when false _) => apply keeps_ret
  | |- keeps _ (if ?b then _ else _) => destruct b
  | |- keeps _ (match ?x with _ => _ end) => destruct x
  end.

Lemma keeps_off_skip_feature {A} msg l : keeps Off (skip_feature msg l : M A).
Proof.
  unfold skip_feature, print_properties, feat_properties. repeat keeps_step.
Qed.

Lemma keeps_off_acquire i l : keeps Off (acquire env su i l).
Proof.
  unfold acquire.
  repeat first
    [ apply keeps_off_skip_feature
    | match goal with
      | |- keeps _ (modify (set_weights false)) =>
          apply keeps_modify; intros s [Hw Hp]; by split
      end
    | keeps_step ].
Qed.

Lemma keeps_off_stat_if name v fs :
  keeps Off v → keeps Off (stat_if su name v fs).
Proof. intros Hv. unfold stat_if. repeat keeps_step. done. Qed.

Lemma keeps_off_populated_stats i l w : keeps Off (populated_stats env c su i l w).
Proof.
  unfold populated_stats, range_stat, use_pctcover, use_pixel_count, extreme.
  repeat first [ apply keeps_off_stat_if | keeps_step ].
Qed.

Lemma keeps_off_merge_item l kv : keeps Off (merge_item l kv).
Proof.
  unfold merge_item.
  repeat first
    [ match goal with
      | |- keeps _ (new_properties _ _) => intros s [Hw Hp]; by split
      end
    | keeps_step ].
Qed.


Lemma keeps_off_aggregate i l w : keeps Off (aggregate env c su i l w).
Proof.
  unfold aggregate, builtin_stats, custom_stats, emit_record, feat_properties.
  repeat first [ apply keeps_off_populated_stats
               | apply keeps_off_merge_item | keeps_step ].
Qed.

Lemma keeps_off_body i l : keeps Off (body env c su i l).
Proof.
  unfold body. apply keeps_bind; [apply keeps_off_acquire|].
  intros w. apply keeps_off_aggregate.
Qed.

(** Nothing in the loop switches the weights on again or assigns
    [pctcover] while they are off: every later feature computes its
    weighted statistics from the same [pctcover]. *)
Lemma weights_stay_off ls : ∀ i s,
  weights_off p s → weights_off p (loop env c su i ls s).2.
Proof.
  induction ls as [|l ls IH]; intros i s Hs; simpl; [done|].
  pose proof (keeps_off_body i l s Hs) as Hb.
  destruct (body env c su i l s) as [[[]| |e] s1]; simpl in *; auto.
Qed.

(** A Point or MultiPoint feature leaves the weights switched off when its
    iteration ends, however it ends. *)
Lemma point_switches_weights_off i l s f :
  feats s !! l = Some f →
  geom_kind_of (f_geometry f) = Point ∨ geom_kind_of (f_geometry f) = MultiPoint →
  pctcover s = p →
  weights_off p (body env c su i l s).2.
Proof.
  intros Hf Hkind Hp.
  assert (Hpt : str_contains "Point" (geom_type (f_geometry f)) = true).
  { unfold geom_type. by destruct Hkind as [-> | ->]. }
  assert (Hget : get_feat l s = (Ret f, s)).
  { unfold get_feat. by rewrite Hf. }
  unfold body. apply keeps_establish; [|apply keeps_off_aggregate].
  unfold acquire. rewrite (bind_ret_run _ _ _ _ _ Hget).
  apply keeps_establish.
  - rewrite Hpt. by split.
  - intros geom.
    repeat first [ apply keeps_off_skip_feature | keeps_step ].
Qed.

End WeightsOff.

(** ** Range *)

(** C6. Categorical mode with a category map that labels the raster value
    1 as ["min"], and [range] requested without [min]. The surviving
    values are 1, 1, 1, 5: [max - min] is 4. Line 272 finds the key
    ['min'] in the result set (it holds the count of the category, 3) and
    reuses it: the reported range is 5 - 3 = 2. *)
Theorem range_reuses_a_category_count :
  zonal_stats Demo.env0
    (Demo.call_of [3%nat] (StatsStr "range") true
       (Some {[ KNum 1 := KStr "min" ]}) None false false)
    Demo.fe0 Demo.di0 =
  Ok [YStats {[ KStr "min" := PInt 3; KNum 5 := PInt 1;
                KStr "range" := PFloat 2 ]}] ∧
  Num.max [1; 1; 1; 5]%Q = Some 5%Q ∧ Num.min [1; 1; 1; 5]%Q = Some 1%Q.
Proof. repeat split; vm_compute; reflexivity. Qed.

Section Range.
Context (env : collaborators) (su : setup).

(** Without such a clash both ways of obtaining the extremes give the
    same range: computed afresh when the result set has neither key ... *)
Lemma range_stat_fresh compressed (fs : pydict) mn mx s :
  fs !! KStr "min" = None → fs !! KStr "max" = None →
  Num.min compressed = Some mn → Num.max compressed = Some mx →
  range_stat compressed fs s = (Ret (PFloat (Num.sub (Qred mx) (Qred mn))), s).
Proof.
  intros Hmin Hmax Hn Hx. unfold range_stat, extreme, lift. munfold.
  by rewrite Hmin, Hmax, Hn, Hx.
Qed.

(** ... and taken from the entries that lines 257 and 259 have stored. *)
Lemma range_stat_reuse compressed (fs : pydict) mn mx s :
  fs !! KStr "min" = Some (pyfloat mn) → fs !! KStr "max" = Some (pyfloat mx) →
  range_stat compressed fs s = (Ret (PFloat (Num.sub (Qred mx) (Qred mn))), s).
Proof.
  intros Hmin Hmax. unfold range_stat, extreme, lift. munfold.
  by rewrite Hmin, Hmax.
Qed.

End Range.

(** ** Dictionaries filled item by item *)

Section FoldInsert.
Context {K V : Type} `{Countable K}.

Lemma foldl_put_notin (l : list (K * V)) (m : gmap K V) k :
  k ∉ l.*1 → foldl put m l !! k = m !! k.
Proof.
  revert m. induction l as [|[k' v'] l IH]; intros m Hk; simpl; [done|].
  rewrite fmap_cons, not_elem_of_cons in Hk. destruct Hk as [Hne Hk].
  rewrite IH by done. unfold put. simpl. by rewrite lookup_insert_ne.
Qed.

Lemma foldl_put_in (l : list (K * V)) (m : gmap K V) k v :
  NoDup l.*1 → (k, v) ∈ l → foldl put m l !! k = Some v.
Proof.
  revert m. induction l as [|[k' v'] l IH]; intros m Hnd Hin; simpl.
  - by apply elem_of_nil in Hin.
  - rewrite fmap_cons in Hnd. apply NoDup_cons in Hnd as [Hk' Hnd].
    apply elem_of_cons in Hin as [[= -> ->]|Hin].
    + rewrite foldl_put_notin by done. unfold put. simpl.
      by rewrite lookup_insert_eq.
    + by apply IH.
Qed.

(** Filling a dictionary with the items of another gives their union, the
    new items winning. *)
Lemma foldl_put_map_to_list (fs d : gmap K V) :
  foldl put d (map_to_list fs) = fs ∪ d.
Proof.
  apply map_eq. intros k. destruct (fs !! k) as [v|] eqn:Hk.
  - rewrite (lookup_union_Some_l _ _ _ v) by done.
    apply foldl_put_in; [apply NoDup_fst_map_to_list|].
    by apply elem_of_map_to_list.
  - rewrite lookup_union_r by done. apply foldl_put_notin.
    intros Hin. apply list_elem_of_fmap in Hin as ([k' v'] & -> & Hin).
    apply elem_of_map_to_list in Hin. simpl in Hk. congruence.
Qed.

End FoldInsert.

(** ** Merging the statistics into the feature *)

Lemma state_eta s :
  State (trace s) (weights s) (pctcover s) (pixel_count s) (feats s) (dicts s) = s.
Proof. by destruct s. Qed.

Lemma foldM_cons {A B} (f : B → A → M B) b x r :
  foldM f b (x :: r) = (f b x ≫= λ b', foldM f b' r).
Proof. reflexivity. Qed.

Lemma merge_item_present l kv s f pl d :
  feats s !! l = Some f → f_properties f = Some pl → dicts s !! pl = Some d →
  merge_item l kv s = (Ret tt, set_dicts (<[pl := put d kv]> (dicts s)) s).
Proof.
  intros Hf Hp Hd. unfold merge_item, get_feat, get_dict. munfold. cbn.
  rewrite Hf. cbn. rewrite Hp. cbn. by rewrite Hd.
Qed.

Lemma merge_item_absent l kv s f :
  feats s !! l = Some f → f_properties f = None →
  merge_item l kv s =
  (Ret tt,
   set_feats (<[l := Feature (f_geometry f) (Some (fresh (dom (dicts s))))]> (feats s))
     (set_dicts (<[fresh (dom (dicts s)) := put ∅ kv]> (dicts s)) s)).
Proof.
  intros Hf Hp. unfold merge_item, get_feat, get_dict, new_properties. munfold. cbn.
  rewrite Hf. cbn. rewrite Hp. cbn. rewrite lookup_insert_eq. cbn.
  by rewrite insert_insert_eq.
Qed.

(** The feature has properties: every item is written into that
    dictionary. *)
Lemma merge_items_present l kvs : ∀ s f pl d,
  feats s !! l = Some f → f_properties f = Some pl → dicts s !! pl = Some d →
  foldM (λ _ kv, merge_item l kv) tt kvs s =
  (Ret tt, set_dicts (<[pl := foldl put d kvs]> (dicts s)) s).
Proof.
  induction kvs as [|kv kvs IH]; intros s f pl d Hf Hp Hd.
  - simpl. unfold set_dicts. munfold. rewrite insert_id by done.
    by rewrite state_eta.
  - rewrite foldM_cons.
    rewrite (bind_ret_run _ _ _ _ _ (merge_item_present l kv s f pl d Hf Hp Hd)).
    erewrite IH; [|done|done|apply lookup_insert_eq].
    unfold set_dicts. cbn. by rewrite insert_insert_eq.
Qed.

(** The feature has no properties: the first item creates the dictionary,
    at a fresh location, and the feature now refers to it. *)
Lemma merge_items_absent l kv kvs s f :
  feats s !! l = Some f → f_properties f = None →
  foldM (λ _ kv, merge_item l kv) tt (kv :: kvs) s =
  (Ret tt,
   set_feats (<[l := Feature (f_geometry f) (Some (fresh (dom (dicts s))))]> (feats s))
     (set_dicts (<[fresh (dom (dicts s)) := foldl put ∅ (kv :: kvs)]> (dicts s)) s)).
Proof.
  intros Hf Hp. rewrite foldM_cons.
  rewrite (bind_ret_run _ _ _ _ _ (merge_item_absent l kv s f Hf Hp)).
  erewrite merge_items_present;
    [|apply lookup_insert_eq|done|apply lookup_insert_eq].
  unfold set_dicts, set_feats. cbn. by rewrite !insert_insert_eq.
Qed.

(** The merged modes, for a feature that has properties. *)
Lemma emit_record_present c l fs s f pl d :
  geojson_out c || save_properties c = true →
  feats s !! l = Some f → f_properties f = Some pl → dicts s !! pl = Some d →
  emit_record c l fs s =
  (Ret tt,
   set_trace (trace s ++ [EvYield (if geojson_out c then YFeature l else YProps pl)])
     (set_dicts (<[pl := fs ∪ d]> (dicts s)) s)).
Proof.
  intros Hmode Hf Hp Hd. unfold emit_record. rewrite Hmode.
  rewrite (bind_ret_run _ _ _ _ _ (merge_items_present l _ s f pl d Hf Hp Hd)).
  rewrite foldl_put_map_to_list.
  destruct (geojson_out c); [done|].
  unfold feat_properties, get_feat. munfold. cbn. rewrite Hf. cbn. by rewrite Hp.
Qed.

(** The merged modes, for a feature without properties and at least one
    statistic to write. *)
Lemma emit_record_absent c l (fs : pydict) s f :
  geojson_out c || save_properties c = true →
  feats s !! l = Some f → f_properties f = None → fs ≠ ∅ →
  emit_record c l fs s =
  (Ret tt,
   set_trace (trace s ++ [EvYield (if geojson_out c then YFeature l
                                   else YProps (fresh (dom (dicts s))))])
     (set_feats (<[l := Feature (f_geometry f) (Some (fresh (dom (dicts s))))]> (feats s))
        (set_dicts (<[fresh (dom (dicts s)) := fs]> (dicts s)) s))).
Proof.
  intros Hmode Hf Hp Hne. unfold emit_record. rewrite Hmode.
  destruct (map_to_list fs) as [|kv kvs] eqn:Hl.
  { by apply map_to_list_empty_iff in Hl. }
  rewrite (bind_ret_run _ _ _ _ _ (merge_items_absent l kv kvs s f Hf Hp)).
  rewrite <- Hl, foldl_put_map_to_list, (right_id_L ∅ (∪)).
  destruct (geojson_out c); [done|].
  unfold feat_properties, get_feat. munfold. cbn. by rewrite lookup_insert_eq.
Qed.

(** C10 (as amended). With [geojson_out] or [save_properties] the statistics are
    written into the properties dictionary of the input feature itself:
    into the one it has, or, when it has none and there is at least one
    statistic to write, into a new one that the feature is made to refer
    to. What is yielded is a reference to the feature ([geojson_out]) or
    to that properties dictionary, so the consumer sees the mutated
    objects. With an empty result set nothing is written and no dictionary
    is created; [geojson_out] then yields the feature as it came. With
    neither flag the store is left as it was and the statistics are yielded
    as a dictionary of their own. [fs] is the result set after prefixing. *)
Theorem statistics_are_merged_in_place c l (fs : pydict) s f :
  feats s !! l = Some f →
  (geojson_out c || save_properties c = true →
     (∀ pl d, f_properties f = Some pl → dicts s !! pl = Some d →
        emit_record c l fs s =
        (Ret tt,
         set_trace (trace s ++
                    [EvYield (if geojson_out c then YFeature l else YProps pl)])
           (set_dicts (<[pl := fs ∪ d]> (dicts s)) s))) ∧
     (f_properties f = None → fs ≠ ∅ →
        dicts s !! fresh (dom (dicts s)) = None ∧
        emit_record c l fs s =
        (Ret tt,
         set_trace (trace s ++
                    [EvYield (if geojson_out c then YFeature l
                              else YProps (fresh (dom (dicts s))))])
           (set_feats
              (<[l := Feature (f_geometry f) (Some (fresh (dom (dicts s))))]> (feats s))
              (set_dicts (<[fresh (dom (dicts s)) := fs]> (dicts s)) s))))) ∧
  (geojson_out c = true → f_properties f = None → fs = ∅ →
     emit_record c l fs s =
     (Ret tt, set_trace (trace s ++ [EvYield (YFeature l)]) s)) ∧
  (geojson_out c || save_properties c = false →
     emit_record c l fs s =
     (Ret tt, set_trace (trace s ++ [EvYield (YStats fs)]) s)).
Proof.
  intros Hf. split_and!.
  - intros Hmode. split.
    + intros pl d Hp Hd. by eapply emit_record_present.
    + intros Hp Hne. split; [|by eapply emit_record_absent].
      apply not_elem_of_dom, is_fresh.
  - intros Hgeo Hp ->. unfold emit_record. rewrite Hgeo. simpl.
    by rewrite map_to_list_empty.
  - intros Hmode. unfold emit_record. by rewrite Hmode.
Qed.

Lemma statistics_are_merged_in_place_witness :
  emit_record (Demo.call_of [0%nat] StatsDefault false None None true false) 0%nat
    {[ KStr "count" := PInt 1 ]}
    (State [] false None None Demo.fe0 Demo.di0) =
  (Ret tt,
   State [EvYield (YProps 10%nat)] false None None Demo.fe0
     (<[10%nat := {[ KStr "count" := PInt 1; KStr "name" := PStr "A" ]}]> Demo.di0)).
Proof.
  pose proof (statistics_are_merged_in_place
    (Demo.call_of [0%nat] StatsDefault false None None true false) 0%nat
    {[ KStr "count" := PInt 1 ]}
    (State [] false None None Demo.fe0 Demo.di0)
    (Feature Demo.gA (Some 10%nat)) eq_refl) as (Hmerged & _ & _).
  destruct (Hmerged eq_refl) as [Hpresent _].
  rewrite (Hpresent 10%nat {[ KStr "name" := PStr "A" ]} eq_refl eq_refl).
  vm_compute. reflexivity.
Defined.

(** C10 (as stated). The properties dictionary is created by the first
    statistic that is written, so with an empty result set none is created,
    although the feature has none: here for a
    feature without properties and a statistics selection that names no
    statistic. With [geojson_out] the feature is yielded as it came; with
    [save_properties] alone, line 312 raises [KeyError]. *)
Lemma no_statistics_no_properties :
  f_properties <$> (Demo.fe0 !! 3%nat) = Some None ∧
  (gen_zonal_stats Demo.env0
     (Demo.call_of [3%nat] (StatsStr " ") false None None false true)
     Demo.fe0 Demo.di0).1 = Done ∧
  yields (trace (gen_zonal_stats Demo.env0
     (Demo.call_of [3%nat] (StatsStr " ") false None None false true)
     Demo.fe0 Demo.di0).2) = [YFeature 3%nat] ∧
  f_properties <$> (feats (gen_zonal_stats Demo.env0
     (Demo.call_of [3%nat] (StatsStr " ") false None None false true)
     Demo.fe0 Demo.di0).2 !! 3%nat) = Some None ∧
  zonal_stats Demo.env0
     (Demo.call_of [3%nat] (StatsStr " ") false None None true false)
     Demo.fe0 Demo.di0 = Raise (KeyError "properties").
Proof. repeat split; vm_compute; reflexivity. Qed.

(** ** Custom statistics *)

Section Custom.
Context (c : call) (i : nat) (masked : masked_array).

Local Abbreviation step :=
  (λ (fs : pydict) (nf : string * custom_stat),
     emit (EvCustom i nf.1 masked);;
     v ← lift (nf.2 masked);
     mret (<[KStr nf.1 := v]> fs)).

Local Abbreviation entry :=
  (λ nf : string * custom_stat, (KStr nf.1, returned (nf.2 masked))).

Local Abbreviation call_event :=
  (λ nf : string * custom_stat, EvCustom i nf.1 masked).

Lemma yields_custom_events (l : list (string * custom_stat)) :
  yields (call_event <$> l) = [].
Proof. induction l; [done|]. by simpl. Qed.

Lemma custom_step_ok nf (fs : pydict) s v :
  nf.2 masked = Ok v →
  step fs nf s =
  (Ret (<[KStr nf.1 := v]> fs), set_trace (trace s ++ [call_event nf]) s).
Proof.
  destruct nf as [name fn]. simpl. intros Hv.
  unfold lift. munfold. cbn. by rewrite Hv.
Qed.

Lemma custom_step_raise nf (fs : pydict) s e :
  nf.2 masked = Raise e →
  step fs nf s = (Exc e, set_trace (trace s ++ [call_event nf]) s).
Proof.
  destruct nf as [name fn]. simpl. intros Hv.
  unfold lift. munfold. cbn. by rewrite Hv.
Qed.

(** Every function returns: each is called on [masked], in turn, and its
    value stored under its name. *)
Lemma custom_fold_ok (l : list (string * custom_stat)) :
  Forall (λ nf, returns (nf.2 masked)) l →
  ∀ fs s, foldM step fs l s =
          (Ret (foldl put fs (entry <$> l)),
           set_trace (trace s ++ (call_event <$> l)) s).
Proof.
  induction 1 as [|nf l Hnf _ IH]; intros fs s.
  - simpl. unfold set_trace. munfold. by rewrite app_nil_r, state_eta.
  - destruct (nf.2 masked) as [v|e] eqn:Hv; [|done].
    rewrite foldM_cons, (bind_ret_run _ _ _ _ _ (custom_step_ok nf fs s v Hv)).
    rewrite IH, !fmap_cons. unfold set_trace. cbn.
    rewrite Hv, <- app_assoc. done.
Qed.

(** Some function raises: the first one that does ends the fold with its
    exception; up to there only calls of custom functions have happened. *)
Lemma custom_fold_raise (l : list (string * custom_stat)) :
  Exists (λ nf, ¬ returns (nf.2 masked)) l →
  ∀ fs s, ∃ nf e s',
    nf ∈ l ∧ nf.2 masked = Raise e ∧
    foldM step fs l s = (Exc e, s') ∧
    yields (trace s') = yields (trace s) ∧
    feats s' = feats s ∧ dicts s' = dicts s.
Proof.
  induction l as [|nf l IH]; intros Hex fs s.
  - by apply Exists_nil in Hex.
  - destruct (nf.2 masked) as [v|e] eqn:Hv; rewrite foldM_cons.
    + rewrite (bind_ret_run _ _ _ _ _ (custom_step_ok nf fs s v Hv)).
      apply Exists_cons in Hex as [Hex|Hex]; [by rewrite Hv in Hex|].
      destruct (IH Hex (<[KStr nf.1 := v]> fs)
                  (set_trace (trace s ++ [call_event nf]) s))
        as (nf' & e & s' & Hin & Hr & Hrun & Hy & Hfe & Hdi).
      exists nf', e, s'. split; [by apply elem_of_cons; right|].
      split; [done|]. split; [done|]. cbn in *.
      rewrite yields_app in Hy. simpl in Hy. rewrite app_nil_r in Hy. done.
    + rewrite (bind_exc_run _ _ _ _ _ (custom_step_raise nf fs s e Hv)).
      exists nf, e. eexists. split; [by apply elem_of_cons; left|].
      split; [done|]. split; [reflexivity|]. cbn.
      rewrite yields_app. simpl. by rewrite app_nil_r.
Qed.

Lemma custom_stats_ok fns (fs : pydict) s :
  add_stats c = Some fns →
  (∀ name fn, fns !! name = Some fn → returns (fn masked)) →
  custom_stats c i masked fs s =
  (Ret (foldl put fs (entry <$> map_to_list fns)),
   set_trace (trace s ++ (call_event <$> map_to_list fns)) s).
Proof.
  intros Ha Hret. unfold custom_stats. rewrite Ha. apply custom_fold_ok.
  apply Forall_forall. intros [name fn] Hin.
  apply elem_of_map_to_list in Hin. by eapply Hret.
Qed.

Lemma NoDup_entries (fns : gmap string custom_stat) :
  NoDup (entry <$> map_to_list fns).*1.
Proof.
  rewrite <- list_fmap_compose.
  assert ((fst ∘ entry) = (KStr ∘ fst)) as -> by done.
  rewrite list_fmap_compose. apply (NoDup_fmap_2 _).
  apply NoDup_fst_map_to_list.
Qed.

(** The entry of a custom statistic after the loop of lines 287-289. *)
Lemma custom_entry_lookup fns (fs : pydict) name fn :
  fns !! name = Some fn →
  foldl put fs (entry <$> map_to_list fns) !! KStr name = Some (returned (fn masked)).
Proof.
  intros Hfn. apply foldl_put_in; [apply NoDup_entries|].
  apply list_elem_of_fmap. exists (name, fn). split; [done|].
  by apply elem_of_map_to_list.
Qed.

(** The other entries are as before. *)
Lemma custom_other_lookup fns (fs : pydict) k :
  (∀ name, k = KStr name → fns !! name = None) →
  foldl put fs (entry <$> map_to_list fns) !! k = fs !! k.
Proof.
  intros Hk. apply foldl_put_notin. intros Hin.
  apply list_elem_of_fmap in Hin as ([k' v] & -> & Hin).
  apply list_elem_of_fmap in Hin as ([name fn] & [= -> ->] & Hin).
  apply elem_of_map_to_list in Hin. by rewrite (Hk name) in Hin.
Qed.

End Custom.

(** C9. For a feature that reaches the statistics (window [fsrc], mask
    [rv]) and whose built-in statistics are computed ([fs]):
    - what the first half of the iteration hands on is the full masked
      array [mask_window fsrc rv] (all values of the window, with the
      mask) next to its compressed list;
    - when every custom function returns, each has been called on that
      full array and its value is stored under its name in the result set
      from which the record is then shaped;
    - when one raises, the loop ends with the exception of a custom
      function: nothing is yielded for the feature and the remaining
      features are not processed. *)
Theorem custom_statistics_contract env c su i l ls s f fsrc rv fns fs s2 :
  feats s !! l = Some f →
  rasterized env su i f fsrc rv →
  arrays_fit env su i →
  add_stats c = Some fns →
  builtin_stats env c su i l (masked_window_of env su f fsrc rv)
    (rasterized_state env su i f s) = (Ret fs, s2) →
  acquire env su i l s =
    (Ret (masked_window_of env su f fsrc rv), rasterized_state env su i f s) ∧
  ((∀ name fn, fns !! name = Some fn → returns (fn (mask_window fsrc rv))) →
   ∃ fs' s3,
     custom_stats c i (mask_window fsrc rv) fs s2 = (Ret fs', s3) ∧
     body env c su i l s =
       emit_record c l
         (apply_prefix env c (attach_raster c (masked_window_of env su f fsrc rv) fs'))
         s3 ∧
     ∀ name fn, fns !! name = Some fn →
       EvCustom i name (mask_window fsrc rv) ∈ trace s3 ∧
       fs' !! KStr name = Some (returned (fn (mask_window fsrc rv)))) ∧
  ((∃ name fn, fns !! name = Some fn ∧ ¬ returns (fn (mask_window fsrc rv))) →
   ∃ name fn e s',
     fns !! name = Some fn ∧ fn (mask_window fsrc rv) = Raise e ∧
     loop env c su i (l :: ls) s = (Raised e, s') ∧
     yields (trace s') = yields (trace s)).
Proof.
  intros Hf Hrast Hfit Hadd Hb.
  pose proof (acquire_ok env su i l s f fsrc rv Hf Hrast Hfit) as Hacq.
  split; [done|]. split.
  - intros Hret.
    pose proof (custom_stats_ok c i (mask_window fsrc rv) fns fs s2 Hadd Hret) as Hc.
    eexists _, _. split; [exact Hc|]. split.
    + unfold body. rewrite (bind_ret_run _ _ _ _ _ Hacq). unfold aggregate.
      rewrite (bind_ret_run _ _ _ _ _ Hb). cbn [mw_masked masked_window_of].
      by rewrite (bind_ret_run _ _ _ _ _ Hc).
    + intros name fn Hfn. split.
      * simpl. apply elem_of_app. right.
        apply list_elem_of_fmap. exists (name, fn). split; [done|].
        by apply elem_of_map_to_list.
      * by apply custom_entry_lookup.
  - intros (name & fn & Hfn & Hraise).
    assert (Hex : Exists (λ nf : string * custom_stat,
                            ¬ returns (nf.2 (mask_window fsrc rv)))
                         (map_to_list fns)).
    { apply Exists_exists. exists (name, fn). split; [|done].
      by apply elem_of_map_to_list. }
    destruct (custom_fold_raise i (mask_window fsrc rv) _ Hex fs s2)
      as ([name' fn'] & e & s' & Hin & Hr & Hrun & Hy & _).
    exists name', fn', e, s'. split; [by apply elem_of_map_to_list|].
    split; [done|]. split.
    + apply loop_raise. unfold body. rewrite (bind_ret_run _ _ _ _ _ Hacq).
      unfold aggregate. rewrite (bind_ret_run _ _ _ _ _ Hb).
      apply bind_exc_run. unfold custom_stats. by rewrite Hadd.
    + rewrite Hy.
      assert (s2 = (builtin_stats env c su i l (masked_window_of env su f fsrc rv)
                      (rasterized_state env su i f s)).2) as -> by by rewrite Hb.
      rewrite emits_no_yield; [apply rasterized_state_store|].
      by apply emits_builtin_stats.
Qed.

Lemma custom_statistics_contract_witness :
  (∃ fs' s3,
     custom_stats (Demo.call_of [0; 2]%nat (StatsStr "count") false None
                     (Some {[ "cells" := Demo.cells ]}) false false) 0
       (mask_window (Demo.win [1; 9999]%Q) (NdArray (1, 2)%nat [[true; true]]))
       {[ KStr "count" := PInt 1 ]}
       (rasterized_state Demo.env0 (Demo.setup_of ["count"]) 0
          (Feature Demo.gA (Some 10%nat))
          (State [] false None None Demo.fe0 Demo.di0)) = (Ret fs', s3) ∧
     fs' !! KStr "cells" = Some (PInt 2)) ∧
  (∃ name fn e s',
     ({[ "cells" := Demo.cells; "boom" := Demo.boom ]} : gmap string custom_stat)
       !! name = Some fn ∧
     fn (mask_window (Demo.win [1; 9999]%Q) (NdArray (1, 2)%nat [[true; true]]))
       = Raise e ∧
     loop Demo.env0
       (Demo.call_of [0; 2]%nat (StatsStr "count") false None
          (Some {[ "cells" := Demo.cells; "boom" := Demo.boom ]}) false false)
       (Demo.setup_of ["count"]) 0 [0; 2]%nat
       (State [] false None None Demo.fe0 Demo.di0) = (Raised e, s') ∧
     yields (trace s') = []).
Proof.
  split.
  - destruct (custom_statistics_contract Demo.env0
           (Demo.call_of [0; 2]%nat (StatsStr "count") false None
              (Some {[ "cells" := Demo.cells ]}) false false)
           (Demo.setup_of ["count"]) 0 0%nat [2%nat]
           (State [] false None None Demo.fe0 Demo.di0)
           (Feature Demo.gA (Some 10%nat)) (Demo.win [1; 9999]%Q)
           (NdArray (1, 2)%nat [[true; true]])
           {[ "cells" := Demo.cells ]}
           {[ KStr "count" := PInt 1 ]}
           (rasterized_state Demo.env0 (Demo.setup_of ["count"]) 0
              (Feature Demo.gA (Some 10%nat))
              (State [] false None None Demo.fe0 Demo.di0)))
      as (_ & Hok & _).
    + reflexivity.
    + repeat split; reflexivity.
    + repeat split; intros; reflexivity.
    + reflexivity.
    + vm_compute. reflexivity.
    + destruct Hok as (fs' & s3 & Hrun & _ & Hall).
      * intros name fn Hfn.
        apply lookup_singleton_Some in Hfn as [_ <-]. exact I.
      * exists fs', s3. split; [exact Hrun|].
        apply (Hall "cells" Demo.cells). reflexivity.
  - apply (custom_statistics_contract Demo.env0
           (Demo.call_of [0; 2]%nat (StatsStr "count") false None
              (Some {[ "cells" := Demo.cells; "boom" := Demo.boom ]}) false false)
           (Demo.setup_of ["count"]) 0 0%nat [2%nat]
           (State [] false None None Demo.fe0 Demo.di0)
           (Feature Demo.gA (Some 10%nat)) (Demo.win [1; 9999]%Q)
           (NdArray (1, 2)%nat [[true; true]])
           {[ "cells" := Demo.cells; "boom" := Demo.boom ]}
           {[ KStr "count" := PInt 1 ]}
           (rasterized_state Demo.env0 (Demo.setup_of ["count"]) 0
              (Feature Demo.gA (Some 10%nat))
              (State [] false None None Demo.fe0 Demo.di0))).
    + reflexivity.
    + repeat split; reflexivity.
    + repeat split; intros; reflexivity.
    + reflexivity.
    + vm_compute. reflexivity.
    + exists "boom", Demo.boom. split; [reflexivity|]. simpl. tauto.
Defined.

(** ** Features without surviving values *)

Lemma append_inj_r (p a b : string) : p +:+ a = p +:+ b → a = b.
Proof. induction p as [|ch p IH]; simpl; [done|]. intros [= Heq]. auto. Qed.

Lemma none_dict_lookup (names : list string) name :
  (list_to_map ((λ stat, (KStr stat, PNone)) <$> names) : pydict) !! KStr name =
  if decide (name ∈ names) then Some PNone else None.
Proof.
  induction names as [|x names IH].
  - rewrite fmap_nil, list_to_map_nil, lookup_empty.
    case_decide as Hin; [by apply elem_of_nil in Hin | done].
  - rewrite fmap_cons, list_to_map_cons, lookup_insert, IH.
    destruct (decide (KStr x = KStr name)) as [[= ->]|Hne].
    + by rewrite decide_True by apply list_elem_of_here.
    + destruct (decide (name ∈ names)) as [Hin|Hnin].
      * by rewrite decide_True by by apply list_elem_of_further.
      * rewrite decide_False; [done|].
        rewrite elem_of_cons. intros [->|]; done.
Qed.

Lemma none_dict_string_keys (names : list string) :
  string_keys (list_to_map ((λ stat, (KStr stat, PNone)) <$> names)).
Proof.
  induction names as [|x names IH]; intros k.
  - rewrite fmap_nil, list_to_map_nil, lookup_empty. by intros [? ?].
  - rewrite fmap_cons, list_to_map_cons, lookup_insert.
    destruct (decide (KStr x = k)) as [<-|Hne]; eauto.
Qed.

Lemma string_keys_insert (fs : pydict) name v :
  string_keys fs → string_keys (<[KStr name := v]> fs).
Proof.
  intros Hfs k. rewrite lookup_insert.
  destruct (decide (KStr name = k)) as [<-|Hne]; eauto.
Qed.

Section EmptyFeature.
Context (env : collaborators) (c : call) (su : setup).

(** The result set of lines 220-224. *)
Lemma empty_stats_lookup name :
  name ∈ su_stats su →
  empty_stats su !! KStr name =
  Some (if decide (name = "count") then PInt 0 else PNone).
Proof.
  intros Hin. unfold empty_stats, has.
  destruct (decide (name = "count")) as [->|Hne].
  - rewrite bool_decide_eq_true_2 by done. apply lookup_insert_eq.
  - assert (Hl : (list_to_map ((λ stat, (KStr stat, PNone)) <$> su_stats su)
                   : pydict) !! KStr name = Some PNone).
    { rewrite none_dict_lookup. by rewrite decide_True. }
    case_bool_decide; [|done].
    rewrite lookup_insert_ne; [done|]. congruence.
Qed.

Lemma empty_stats_string_keys : string_keys (empty_stats su).
Proof.
  unfold empty_stats. destruct (has "count" _).
  - apply string_keys_insert, none_dict_string_keys.
  - apply none_dict_string_keys.
Qed.

(** The names that [raster_out] adds are not statistic names. *)
Lemma acceptable_not_raster_key name :
  acceptable name = true →
  name ≠ "mini_raster_array" ∧ name ≠ "mini_raster_affine" ∧
  name ≠ "mini_raster_nodata".
Proof. intros Ha. split_and!; intros ->; by vm_compute in Ha. Qed.

Lemma attach_raster_lookup w (fs : pydict) name :
  acceptable name = true →
  attach_raster c w fs !! KStr name = fs !! KStr name.
Proof.
  intros Ha. apply acceptable_not_raster_key in Ha as (H1 & H2 & H3).
  unfold attach_raster. destruct (raster_out c); [|done].
  rewrite !lookup_insert_ne; [done|..]; by intros [= <-].
Qed.

Lemma attach_raster_string_keys w (fs : pydict) :
  string_keys fs → string_keys (attach_raster c w fs).
Proof.
  intros Hfs. unfold attach_raster. destruct (raster_out c); [|done].
  by repeat apply string_keys_insert.
Qed.

(** Prefixing a result set whose keys are strings renames every key and
    keeps its value. *)
Lemma apply_prefix_lookup (fs : pydict) name :
  string_keys fs →
  apply_prefix env c fs !! KStr (default "" (prefix c) +:+ name) = fs !! KStr name.
Proof.
  intros Hkeys. unfold apply_prefix. destruct (prefix c) as [p|]; [|done].
  simpl.
  set (g := λ kv : key * pyval, (KStr (p +:+ str_of_key env kv.1), kv.2)).
  assert (Hfold : ∀ l acc,
            foldl (λ acc kv, <[KStr (p +:+ str_of_key env kv.1) := kv.2]> acc) acc l
            = foldl put acc (g <$> l)).
  { induction l as [|kv l IH]; intros acc; simpl; [done|]. by rewrite IH. }
  rewrite Hfold.
  assert (Hinj : ∀ kv kv', kv ∈ map_to_list fs → kv' ∈ map_to_list fs →
                           (g kv).1 = (g kv').1 → kv.1 = kv'.1).
  { intros [k v] [k' v'] Hin Hin' [= Heq].
    apply elem_of_map_to_list in Hin, Hin'.
    destruct (Hkeys k) as [n ->]; [by eexists|].
    destruct (Hkeys k') as [n' ->]; [by eexists|].
    simpl in Heq. apply append_inj_r in Heq. by subst. }
  destruct (fs !! KStr name) as [v|] eqn:Hl.
  - apply foldl_put_in.
    + rewrite <- list_fmap_compose. apply NoDup_fmap_2_strong.
      * intros [k v1] [k' v2] Hin Hin' Heq.
        pose proof (Hinj _ _ Hin Hin' Heq) as Hk. simpl in Hk. subst k'.
        apply elem_of_map_to_list in Hin, Hin'. congruence.
      * apply NoDup_map_to_list.
    + apply list_elem_of_fmap. exists (KStr name, v). split; [done|].
      by apply elem_of_map_to_list.
  - rewrite foldl_put_notin; [done|]. intros Hin.
    apply list_elem_of_fmap in Hin as ([k' v'] & Hk & Hin).
    apply list_elem_of_fmap in Hin as ([k v] & [= -> ->] & Hin).
    apply elem_of_map_to_list in Hin.
    destruct (Hkeys k) as [n ->]; [by eexists|].
    simpl in Hk. injection Hk as Hk. apply append_inj_r in Hk. congruence.
Qed.

End EmptyFeature.

(** Every entry of the result set can be read off the yielded record, in
    each of the three output modes. *)
Lemma emit_record_lookup c l (fs : pydict) s f k v :
  feats s !! l = Some f →
  (∀ pl, f_properties f = Some pl → is_Some (dicts s !! pl)) →
  fs !! k = Some v →
  ∃ r s', emit_record c l fs s = (Ret tt, s') ∧
          trace s' = trace s ++ [EvYield r] ∧
          record_lookup s' r k = Some v.
Proof.
  intros Hf Hwf Hk.
  destruct (geojson_out c || save_properties c) eqn:Hmode.
  - destruct (f_properties f) as [pl|] eqn:Hp.
    + destruct (Hwf pl eq_refl) as [d Hd].
      eexists _, _. split; [by eapply emit_record_present|].
      split; [done|].
      destruct (geojson_out c); simpl.
      * rewrite Hf. simpl. rewrite Hp. simpl. rewrite lookup_insert_eq. simpl.
        by apply lookup_union_Some_l.
      * rewrite lookup_insert_eq. simpl. by apply lookup_union_Some_l.
    + assert (Hne : fs ≠ ∅).
      { intros ->. by rewrite lookup_empty in Hk. }
      eexists _, _. split; [by eapply emit_record_absent|].
      split; [done|].
      destruct (geojson_out c); simpl.
      * rewrite lookup_insert_eq. simpl. by rewrite lookup_insert_eq.
      * by rewrite lookup_insert_eq.
  - eexists _, _. split; [unfold emit_record; by rewrite Hmode|].
    by split.
Qed.

(** C2 (as amended). A feature with no surviving value that reaches the
    statistics, in a run whose statistic names passed validation: the
    record yielded for it holds, for every requested statistic and under
    the prefixed key, [None], or [0] for [count] -- unless a custom
    statistic of the same name was supplied, whose value then takes the
    place. *)
Theorem empty_feature_statistics env c su i l s f fsrc rv name :
  feats s !! l = Some f →
  (∀ pl, f_properties f = Some pl → is_Some (dicts s !! pl)) →
  rasterized env su i f fsrc rv →
  arrays_fit env su i →
  ma_compressed (mask_window fsrc rv) = [] →
  (∀ fns n fn, add_stats c = Some fns → fns !! n = Some fn →
               returns (fn (mask_window fsrc rv))) →
  Forall (λ x, acceptable x = true) (su_stats su) →
  name ∈ su_stats su →
  ∃ r s', body env c su i l s = (Ret tt, s') ∧
          yields (trace s') = yields (trace s) ++ [r] ∧
          record_lookup s' r (KStr (default "" (prefix c) +:+ name)) =
            Some (match add_stats c ≫= (.!! name) with
                  | Some fn => returned (fn (mask_window fsrc rv))
                  | None => if decide (name = "count") then PInt 0 else PNone
                  end).
Proof.
  intros Hf Hwf Hrast Hfit Hempty Hret Hvalid Hin.
  pose proof (acquire_ok env su i l s f fsrc rv Hf Hrast Hfit) as Hacq.
  set (w := masked_window_of env su f fsrc rv) in *.
  set (s1 := rasterized_state env su i f s) in *.
  destruct (rasterized_state_store env su i f s) as (Hfe1 & Hdi1 & Hy1).
  fold s1 in Hfe1, Hdi1, Hy1.
  assert (Hb : builtin_stats env c su i l w s1 = (Ret (empty_stats su), s1)).
  { unfold builtin_stats. simpl. by rewrite Hempty. }
  set (expected := match add_stats c ≫= (.!! name) with
                   | Some fn => returned (fn (mask_window fsrc rv))
                   | None => if decide (name = "count") then PInt 0 else PNone
                   end).
  assert (Hc : ∃ fs2 s3,
             custom_stats c i (mask_window fsrc rv) (empty_stats su) s1 = (Ret fs2, s3) ∧
             feats s3 = feats s ∧ dicts s3 = dicts s ∧
             yields (trace s3) = yields (trace s) ∧
             string_keys fs2 ∧ fs2 !! KStr name = Some expected).
  { unfold expected. destruct (add_stats c) as [fns|] eqn:Hadd.
    - eexists _, _. split.
      { apply custom_stats_ok; [done|]. intros n fn. by apply Hret. }
      split; [done|]. split; [done|]. split.
      { simpl. by rewrite yields_app, yields_custom_events, app_nil_r. }
      split.
      { clear. induction (map_to_list fns) as [|nf lst IH] using rev_ind.
        - apply empty_stats_string_keys.
        - rewrite fmap_app, foldl_app. simpl. by apply string_keys_insert. }
      simpl. destruct (fns !! name) as [fn|] eqn:Hfn.
      + by apply custom_entry_lookup.
      + rewrite custom_other_lookup; [by apply empty_stats_lookup|].
        by intros ? [= <-].
    - exists (empty_stats su), s1. split; [unfold custom_stats; by rewrite Hadd|].
      split; [done|]. split; [done|]. split; [done|].
      split; [apply empty_stats_string_keys | by apply empty_stats_lookup]. }
  destruct Hc as (fs2 & s3 & Hc & Hfe3 & Hdi3 & Hy3 & Hkeys & Hl).
  assert (Hname : acceptable name = true).
  { rewrite Forall_forall in Hvalid. by apply Hvalid. }
  destruct (emit_record_lookup c l (apply_prefix env c (attach_raster c w fs2)) s3 f
              (KStr (default "" (prefix c) +:+ name)) expected)
    as (r & s' & He & Ht & Hr).
  { by rewrite Hfe3. }
  { by rewrite Hdi3. }
  { rewrite apply_prefix_lookup by by apply attach_raster_string_keys.
    by rewrite attach_raster_lookup. }
  exists r, s'. split; [|split; [|done]].
  - unfold body. rewrite (bind_ret_run _ _ _ _ _ Hacq). unfold aggregate.
    rewrite (bind_ret_run _ _ _ _ _ Hb).
    by rewrite (bind_ret_run _ _ _ _ _ Hc).
  - rewrite Ht, yields_app, Hy3. done.
Qed.

Lemma empty_feature_statistics_witness :
  ∃ r s',
    body Demo.env0 (Demo.call_with [4%nat] (StatsStr "mean count"))
      (Demo.setup_of ["mean"; "count"]) 0 4%nat
      (State [] false None None Demo.fe0 Demo.di0) = (Ret tt, s') ∧
    yields (trace s') = [] ++ [r] ∧
    record_lookup s' r (KStr "mean") = Some PNone.
Proof.
  apply (empty_feature_statistics Demo.env0
           (Demo.call_with [4%nat] (StatsStr "mean count"))
           (Demo.setup_of ["mean"; "count"]) 0 4%nat
           (State [] false None None Demo.fe0 Demo.di0)
           (Feature Demo.gE None) (Demo.win [9999]%Q)
           (NdArray (1, 1)%nat [[true]]) "mean").
  - reflexivity.
  - intros pl Hpl. discriminate Hpl.
  - repeat split; reflexivity.
  - repeat split; intros; reflexivity.
  - vm_compute. reflexivity.
  - intros fns n fn Hadd. discriminate Hadd.
  - by_compute.
  - by_compute.
Defined.

(** C2 (as stated). The window of feature 4 holds only the nodata value,
    so no value survives; [mean] and [count] are requested and a custom
    statistic is supplied under the name ["mean"]. In the feature's result
    [mean] is 7, not [None]. *)
Lemma custom_statistic_overrides_empty_result :
  ma_compressed (mask_window (Demo.win [9999]%Q) (NdArray (1, 1)%nat [[true]])) = [] ∧
  zonal_stats Demo.env0
    (Demo.call_of [4%nat] (StatsStr "mean count") false None
       (Some {[ "mean" := Demo.seven ]}) false false)
    Demo.fe0 Demo.di0 =
  Ok [YStats {[ KStr "mean" := PInt 7; KStr "count" := PInt 0 ]}] ∧
  ({[ KStr "mean" := PInt 7; KStr "count" := PInt 0 ]} : pydict) !! KStr "mean"
    ≠ Some PNone.
Proof. split_and!; [vm_compute; reflexivity..|]. by vm_compute. Qed.

(** * Further properties *)

(** ** Which cells are valid *)

Lemma unmasked_app l1 l2 : unmasked (l1 ++ l2) = unmasked l1 ++ unmasked l2.
Proof. apply omap_app. Qed.

Lemma row_valid_values v (ra : list Q) : ∀ rb : list bool,
  unmasked (zip_with pair ra (zip_with orb (map (is_nodata v) ra) (map negb rb))) =
  List.filter (λ x, negb (is_nodata v x)) (unmasked (zip_with pair ra (map negb rb))).
Proof.
  induction ra as [|x ra IH]; intros [|b rb]; simpl; try done.
  unfold unmasked in *. simpl.
  destruct b; simpl.
  - rewrite orb_false_r. destruct (is_nodata v x); simpl; by rewrite IH.
  - rewrite orb_true_r. simpl. apply IH.
Qed.

Lemma rows_valid_values v (a : list (list Q)) : ∀ rv : list (list bool),
  unmasked (concat (zip_with (zip_with pair) a
     (zip_with (zip_with orb) (map (map (is_nodata v)) a) (map (map negb) rv)))) =
  List.filter (λ x, negb (is_nodata v x))
    (unmasked (concat (zip_with (zip_with pair) a (map (map negb) rv)))).
Proof.
  induction a as [|ra a IH]; intros [|rb rv]; simpl; try done.
  rewrite !unmasked_app, List.filter_app, IH, row_valid_values. done.
Qed.

Lemma compressed_mask_window fsrc rv :
  ma_compressed (mask_window fsrc rv) =
  List.filter (λ x, negb (is_nodata (w_nodata fsrc) x)) (covered_values fsrc rv).
Proof.
  unfold covered_values, ma_compressed, ma_cells, mask_window, nd_flat, nd_zip_with,
    np_logical_or, np_logical_not, np_eq_scalar, nd_zip_with, nd_map. simpl.
  apply rows_valid_values.
Qed.

Lemma filter_partition_length {A} (p : A → bool) (l : list A) :
  length (List.filter p l) + length (List.filter (λ x, negb (p x)) l) = length l.
Proof.
  induction l as [|x l IH]; simpl; [done|].
  destruct (p x); simpl; lia.
Qed.

(** ** The statistics of lines 244-284, statement by statement *)

Section Chain.
Context (su : setup).

Lemma stat_if_inv name v (fs : pydict) s fs' s' :
  stat_if su name v fs s = (Ret fs', s') →
  if has name (su_stats su)
  then ∃ x, v s = (Ret x, s') ∧ fs' = <[KStr name := x]> fs
  else fs' = fs ∧ s' = s.
Proof.
  unfold stat_if. destruct (has name (su_stats su)).
  - intros H. apply bind_ret_inv in H as (x & s1 & Hv & H).
    munfold. injection H as <- <-. eauto.
  - munfold. by intros [= <- <-].
Qed.

Lemma chain_inv {B} table : ∀ (fs0 : pydict) (k : pydict → M B) s b s',
  Forall (λ nv, ∀ fs, reads_only (nv.2 fs)) table →
  chain su table fs0 k s = (Ret b, s') →
  ∃ fs1, ran su table s fs0 fs1 ∧ k fs1 s = (Ret b, s').
Proof.
  induction table as [|nv r IH]; intros fs0 k s b s' Hro H.
  - exists fs0. by split.
  - apply Forall_cons in Hro as [Hnv Hro]. simpl in H.
    apply bind_ret_inv in H as (fs' & s1 & Hst & H).
    apply stat_if_inv in Hst. simpl.
    destruct (has nv.1 (su_stats su)).
    + destruct Hst as (x & Hv & ->).
      assert (s1 = s) as ->. { specialize (Hnv fs0 s). by rewrite Hv in Hnv. }
      destruct (IH _ _ _ _ _ Hro H) as (fs1 & Hran & Hk).
      exists fs1. split; [|done]. eexists. split; [|exact Hran]. eauto.
    + destruct Hst as [-> ->].
      destruct (IH _ _ _ _ _ Hro H) as (fs1 & Hran & Hk).
      exists fs1. split; [|done]. eexists. split; [|exact Hran]. done.
Qed.

Lemma chain_run {B} table : ∀ (fs0 fs1 : pydict) (k : pydict → M B) s,
  ran su table s fs0 fs1 → chain su table fs0 k s = k fs1 s.
Proof.
  induction table as [|nv r IH]; intros fs0 fs1 k s Hran; simpl in *.
  - by subst.
  - destruct Hran as (fs' & Hstep & Hran). unfold stat_if.
    destruct (has nv.1 (su_stats su)).
    + destruct Hstep as (x & Hv & ->).
      rewrite bind_run, bind_run, Hv. munfold. by apply IH.
    + subst fs'. rewrite bind_run. munfold. by apply IH.
Qed.

Lemma ran_app t1 t2 s (fs0 fs1 : pydict) :
  ran su (t1 ++ t2) s fs0 fs1 ↔ ∃ fsj, ran su t1 s fs0 fsj ∧ ran su t2 s fsj fs1.
Proof.
  revert fs0. induction t1 as [|nv r IH]; intros fs0; simpl.
  - split; [eauto | by intros (? & -> & ?)].
  - split.
    + intros (fs' & Hstep & Hran). apply IH in Hran as (fsj & H1 & H2). eauto.
    + intros (fsj & (fs' & Hstep & H1) & H2). exists fs'. split; [done|].
      apply IH. eauto.
Qed.

(** A key that no executed statement writes keeps its entry. *)
Lemma ran_lookup_other table s : ∀ (fs0 fs1 : pydict) k,
  ran su table s fs0 fs1 →
  (∀ n, k = KStr n → n ∈ table.*1 → has n (su_stats su) = false) →
  fs1 !! k = fs0 !! k.
Proof.
  induction table as [|nv r IH]; intros fs0 fs1 k Hran Hk; simpl in *.
  - by subst.
  - destruct Hran as (fs' & Hstep & Hran).
    rewrite (IH _ _ _ Hran).
    2:{ intros n Hn Hin. apply Hk; [done|]. by apply elem_of_cons; right. }
    destruct (has nv.1 (su_stats su)) eqn:Hhas; [|by subst].
    destruct Hstep as (x & _ & ->). apply lookup_insert_ne.
    intros <-. specialize (Hk nv.1 eq_refl). rewrite Hhas in Hk.
    discriminate Hk. apply list_elem_of_here.
Qed.

(** The entry of a requested statistic is the value that its statement
    computed from the result set of the statements before it. *)
Lemma ran_split t1 nv t2 s (fs0 fs1 : pydict) :
  ran su (t1 ++ nv :: t2) s fs0 fs1 →
  has nv.1 (su_stats su) = true → nv.1 ∉ t2.*1 →
  ∃ fsj x, ran su t1 s fs0 fsj ∧ nv.2 fsj s = (Ret x, s) ∧
           fs1 !! KStr nv.1 = Some x.
Proof.
  intros Hran Hhas Hnin. apply ran_app in Hran as (fsj & H1 & H2).
  simpl in H2. rewrite Hhas in H2. destruct H2 as (fs' & (x & Hv & ->) & H2).
  exists fsj, x. split; [done|]. split; [done|].
  rewrite (ran_lookup_other _ _ _ _ _ H2); [apply lookup_insert_eq|].
  intros n [= <-] Hin. done.
Qed.

Lemma ran_keys table s : ∀ (fs0 fs1 : pydict) k,
  ran su table s fs0 fs1 →
  is_Some (fs1 !! k) ↔
  is_Some (fs0 !! k) ∨ ∃ n, k = KStr n ∧ n ∈ table.*1 ∧ has n (su_stats su) = true.
Proof.
  induction table as [|nv r IH]; intros fs0 fs1 k Hran; simpl in *.
  - subst. split; [by left|]. intros [?|(n & _ & Hin & _)]; [done|].
    by apply elem_of_nil in Hin.
  - destruct Hran as (fs' & Hstep & Hran). rewrite (IH _ _ _ Hran).
    setoid_rewrite elem_of_cons.
    destruct (has nv.1 (su_stats su)) eqn:Hhas.
    + destruct Hstep as (x & _ & ->). rewrite lookup_insert.
      destruct (decide (KStr nv.1 = k)) as [<-|Hne].
      * split; [|by eauto]. intros _. right. exists nv.1. eauto.
      * split.
        { intros [?|(n & -> & Hin & Hn)]; [by left | right; exists n; eauto]. }
        intros [?|(n & -> & [->|Hin] & Hn)]; [by left|done|right; exists n; eauto].
    + subst fs'. split.
      { intros [?|(n & -> & Hin & Hn)]; [by left | right; exists n; eauto]. }
      intros [?|(n & -> & [->|Hin] & Hn)]; [by left|congruence|right; exists n; eauto].
Qed.

End Chain.

Section Percentiles.
Context (env : collaborators) (compressed : list Q).

Lemma percentile_fold_inv l : ∀ (fs fs' : pydict) s s',
  foldM (percentile_step env compressed) fs l s = (Ret fs', s') →
  s' = s ∧
  (∀ k, (∀ n, k = KStr n → n ∉ l) → fs' !! k = fs !! k) ∧
  (∀ p, p ∈ l → ∃ q, get_percentile p = Ok q ∧
                     fs' !! KStr p = Some (PFloat (np_percentile env compressed q))) ∧
  (∀ k, is_Some (fs' !! k) ↔ is_Some (fs !! k) ∨ ∃ n, k = KStr n ∧ n ∈ l).
Proof.
  induction l as [|x l IH]; intros fs fs' s s' H.
  - simpl in H. munfold. injection H as <- <-.
    split; [done|]. split; [done|]. split.
    + intros p Hp. by apply elem_of_nil in Hp.
    + intros k. split; [by left|]. intros [?|(n & _ & Hn)]; [done|].
      by apply elem_of_nil in Hn.
  - rewrite foldM_cons in H. apply bind_ret_inv in H as (fs1 & s1 & Hx & H).
    unfold percentile_step, lift in Hx.
    destruct (get_percentile x) as [q|e] eqn:Hq; [|done].
    munfold. injection Hx as <- <-.
    destruct (IH _ _ _ _ H) as (-> & Hother & Hin & Hkeys).
    split; [done|]. split; [|split].
    + intros k Hk. rewrite Hother.
      * apply lookup_insert_ne. intros <-. apply (Hk x eq_refl), list_elem_of_here.
      * intros n Hn Hnl. apply (Hk n Hn). by apply list_elem_of_further.
    + intros p Hp. destruct (decide (p ∈ l)) as [Hpl|Hpl]; [by apply Hin|].
      apply elem_of_cons in Hp as [->|Hp]; [|done].
      exists q. split; [done|]. rewrite Hother; [apply lookup_insert_eq|].
      by intros n [= <-].
    + intros k. rewrite Hkeys, lookup_insert. setoid_rewrite elem_of_cons.
      destruct (decide (KStr x = k)) as [<-|Hne].
      * split; [|by eauto]. intros _. right. exists x. eauto.
      * split.
        { intros [?|(n & -> & Hn)]; [by left | right; exists n; eauto]. }
        intros [?|(n & -> & [->|Hn])]; [by left|done|right; exists n; eauto].
Qed.

Lemma percentile_fold_run l : ∀ (fs : pydict) s,
  (∀ p, p ∈ l → ∃ q, get_percentile p = Ok q) →
  ∃ fs', foldM (percentile_step env compressed) fs l s = (Ret fs', s).
Proof.
  induction l as [|x l IH]; intros fs s Hok.
  - by exists fs.
  - destruct (Hok x) as [q Hq]; [apply list_elem_of_here|].
    rewrite foldM_cons, bind_run. unfold percentile_step at 1, lift.
    rewrite Hq. munfold. apply IH. intros p Hp. apply Hok.
    by apply list_elem_of_further.
Qed.

End Percentiles.

Lemma reads_only_bind {A B} (m : M A) (k : A → M B) :
  reads_only m → (∀ a, reads_only (k a)) → reads_only (m ≫= k).
Proof.
  intros Hm Hk s. rewrite bind_run. specialize (Hm s).
  destruct (m s) as [[a| |e] s1]; simpl in *; subst; [apply Hk|done..].
Qed.

Lemma reads_only_lift {A} (r : result A) : reads_only (lift r).
Proof. by destruct r. Qed.

Lemma reads_only_extreme o : reads_only (extreme o).
Proof. by destruct o. Qed.

Lemma stat_table_reads_only env masked compressed :
  Forall (λ nv : string * (pydict → M pyval), ∀ fs, reads_only (nv.2 fs))
         (stat_table env masked compressed).
Proof.
  unfold stat_table.
  repeat (apply Forall_cons_2; [|try apply Forall_nil_2]); intros fs; simpl;
    unfold use_pctcover, use_pixel_count, range_stat;
    repeat first
      [ apply reads_only_bind; [|intros ?]
      | apply reads_only_lift
      | apply reads_only_extreme
      | match goal with
        | |- reads_only (match ?x with _ => _ end) => destruct x
        end
      | done ].
Qed.

Section PopulatedInv.
Context (env : collaborators) (c : call) (su : setup).

Lemma populated_stats_inv i l w s fs s' :
  populated_stats env c su i l w s = (Ret fs, s') →
  ∃ s1 fs1,
    prepared env su i w s s1 ∧ s' = s1 ∧
    ran su (stat_table env (mw_masked w) (mw_compressed w)) s1 (hist_stats c su w) fs1 ∧
    foldM (percentile_step env (mw_compressed w)) fs1
      (List.filter (String.prefix "percentile_") (su_stats su)) s1 = (Ret fs, s').
Proof.
  intros H. unfold populated_stats in H.
  apply bind_ret_inv in H as (fs0 & s0 & H0 & H).
  assert (Hs0 : fs0 = hist_stats c su w ∧
                s0 = if su_run_count su
                     then set_pixel_count (Some (np_unique_counts (mw_compressed w))) s
                     else s).
  { unfold hist_stats. destruct (su_run_count su); simpl.
    - apply bind_ret_inv in H0 as ([] & s0' & Hm & H0).
      munfold. injection Hm as <-.
      destruct (categorical c); [destruct (truthy_map _)|];
        by injection H0 as <- <-.
    - munfold. by injection H0 as <- <-. }
  destruct Hs0 as [-> Hs0]. clear H0.
  apply bind_ret_inv in H as (wts & s0' & Hw & H).
  unfold get in Hw. injection Hw as <- <-.
  apply bind_ret_inv in H as ([] & s1 & Hp & H).
  change (chain su (stat_table env (mw_masked w) (mw_compressed w))
            (hist_stats c su w)
            (λ fs, foldM (percentile_step env (mw_compressed w)) fs
                     (List.filter (String.prefix "percentile_") (su_stats su)))
            s1 = (Ret fs, s')) in H.
  apply chain_inv in H as (fs1 & Hran & Hfold); [|apply stat_table_reads_only].
  pose proof (percentile_fold_inv _ _ _ _ _ _ _ Hfold) as (-> & _).
  exists s1, fs1. split; [|by split].
  assert (Hw0 : weights s0 = weights s) by (subst s0; by destruct (su_run_count su)).
  assert (Hprep : pixel_count s0 = (if su_run_count su
                    then Some (np_unique_counts (mw_compressed w))
                    else pixel_count s) ∧ feats s0 = feats s ∧ dicts s0 = dicts s ∧
                  pctcover s0 = pctcover s ∧ trace s0 = trace s).
  { subst s0. by destruct (su_run_count su). }
  destruct Hprep as (Hpc & Hfe & Hdi & Hpct & Htr).
  unfold prepared. rewrite <- Hw0.
  destruct (weights s0) eqn:Hws0; simpl in Hp.
  - apply try_memory_skip_ret in Hp.
    apply bind_ret_inv in Hp as ([] & s2 & He & Hp).
    unfold emit in He. munfold. injection He as <-.
    apply bind_ret_inv in Hp as (p & s3 & Hr & Hp).
    unfold lift in Hr.
    destruct (rasterize_pctcover env i (mw_geom w) (mw_affine w) (mw_shape w))
      as [p0|e] eqn:Hpc0; [|done].
    munfold. injection Hr as -> <-. injection Hp as <-. cbn.
    do 4 (split; [done|]). exists p. rewrite Htr. by split_and!.
  - munfold. injection Hp as <-. by split_and!.
Qed.

End PopulatedInv.

(** ** Extremes *)

Lemma leb_le a b : Num.leb a b = true ↔ (a <= b)%Q.
Proof. apply Qle_bool_iff. Qed.

Lemma leb_gt a b : Num.leb a b = false → (b <= a)%Q.
Proof.
  intros H. destruct (Qlt_le_dec b a) as [Hlt|Hle]; [by apply Qlt_le_weak|].
  apply leb_le in Hle. congruence.
Qed.

Lemma foldl_min_spec (r : list Q) : ∀ x,
  let m := foldl (λ m y, if Num.leb m y then m else y) x r in
  m ∈ x :: r ∧ ∀ y, y ∈ x :: r → (m <= y)%Q.
Proof.
  induction r as [|z r IH]; intros x; simpl.
  - split; [apply list_elem_of_here|]. intros y Hy.
    apply list_elem_of_singleton in Hy as ->. apply Qle_refl.
  - destruct (Num.leb x z) eqn:Hxz.
    + destruct (IH x) as [Hin Hle]. split.
      * apply elem_of_cons in Hin as [->|Hin]; [apply list_elem_of_here|].
        by do 2 apply list_elem_of_further.
      * intros y Hy. apply elem_of_cons in Hy as [->|Hy];
          [apply Hle, list_elem_of_here|].
        apply elem_of_cons in Hy as [->|Hy].
        -- eapply Qle_trans; [apply Hle, list_elem_of_here|]. by apply leb_le.
        -- by apply Hle, list_elem_of_further.
    + destruct (IH z) as [Hin Hle]. split.
      * by apply list_elem_of_further.
      * intros y Hy. apply elem_of_cons in Hy as [->|Hy]; [|by apply Hle].
        eapply Qle_trans; [apply Hle, list_elem_of_here|]. by apply leb_gt.
Qed.

Lemma foldl_max_spec (r : list Q) : ∀ x,
  let m := foldl (λ m y, if Num.leb y m then m else y) x r in
  m ∈ x :: r ∧ ∀ y, y ∈ x :: r → (y <= m)%Q.
Proof.
  induction r as [|z r IH]; intros x; simpl.
  - split; [apply list_elem_of_here|]. intros y Hy.
    apply list_elem_of_singleton in Hy as ->. apply Qle_refl.
  - destruct (Num.leb z x) eqn:Hxz.
    + destruct (IH x) as [Hin Hle]. split.
      * apply elem_of_cons in Hin as [->|Hin]; [apply list_elem_of_here|].
        by do 2 apply list_elem_of_further.
      * intros y Hy. apply elem_of_cons in Hy as [->|Hy];
          [apply Hle, list_elem_of_here|].
        apply elem_of_cons in Hy as [->|Hy].
        -- eapply Qle_trans; [|apply Hle, list_elem_of_here]. by apply leb_le.
        -- by apply Hle, list_elem_of_further.
    + destruct (IH z) as [Hin Hle]. split.
      * by apply list_elem_of_further.
      * intros y Hy. apply elem_of_cons in Hy as [->|Hy]; [|by apply Hle].
        eapply Qle_trans; [|apply Hle, list_elem_of_here]. by apply leb_gt.
Qed.

Lemma num_min_spec l : l ≠ [] →
  ∃ m, Num.min l = Some m ∧ m ∈ l ∧ ∀ y, y ∈ l → (m <= y)%Q.
Proof.
  destruct l as [|x r]; [done|]. intros _. eexists. split; [reflexivity|].
  apply foldl_min_spec.
Qed.

Lemma num_max_spec l : l ≠ [] →
  ∃ m, Num.max l = Some m ∧ m ∈ l ∧ ∀ y, y ∈ l → (y <= m)%Q.
Proof.
  destruct l as [|x r]; [done|]. intros _. eexists. split; [reflexivity|].
  apply foldl_max_spec.
Qed.

(** ** The histogram *)

Lemma unique_counts_fold (l : list Q) : ∀ (m : gmap Q Z) q,
  foldl (λ m v, <[Qred v := (default 0 (m !! Qred v) + 1)%Z]> m) m l !! q =
  if (occurrences q l =? 0)%nat then m !! q
  else Some (default 0 (m !! q) + Z.of_nat (occurrences q l))%Z.
Proof.
  unfold occurrences.
  induction l as [|v l IH]; intros m q; simpl; [done|].
  rewrite IH. case_bool_decide as Hv; simpl.
  - subst q. rewrite lookup_insert_eq. simpl.
    destruct (length _ =? 0)%nat eqn:Hz.
    + apply Nat.eqb_eq in Hz. by rewrite Hz.
    + f_equal. lia.
  - by rewrite lookup_insert_ne.
Qed.

Lemma np_unique_counts_lookup l q :
  np_unique_counts l !! q =
  if (occurrences q l =? 0)%nat then None else Some (Z.of_nat (occurrences q l)).
Proof.
  unfold np_unique_counts. rewrite unique_counts_fold, lookup_empty. simpl.
  destruct (_ =? _)%nat; [done|]. f_equal.
Qed.

Lemma occurrences_pos q l : (0 < occurrences q l)%nat ↔ q ∈ Qred <$> l.
Proof.
  unfold occurrences. induction l as [|v l IH].
  - simpl. split; [lia|]. intros H. by apply elem_of_nil in H.
  - rewrite fmap_cons, elem_of_cons. simpl. case_bool_decide as Hv; simpl.
    + split; [by left | lia].
    + rewrite IH. split; [by right|]. by intros [->|?].
Qed.

Lemma np_unique_counts_dom l :
  dom (np_unique_counts l) = list_to_set (Qred <$> l).
Proof.
  apply set_eq. intros q. rewrite elem_of_dom, np_unique_counts_lookup.
  rewrite elem_of_list_to_set, <- occurrences_pos.
  destruct (occurrences q l); simpl.
  - split; [by intros [? ?] | lia].
  - split; [lia | by eauto].
Qed.

Lemma np_unique_counts_size l :
  size (np_unique_counts l) = length (remove_dups (Qred <$> l)).
Proof.
  rewrite <- size_dom, np_unique_counts_dom.
  rewrite <- (size_list_to_set (C:=gset Q) (remove_dups (Qred <$> l)))
    by apply NoDup_remove_dups.
  f_equal. apply set_eq. intros q.
  by rewrite !elem_of_list_to_set, elem_of_remove_dups.
Qed.

(** ** The built-in statistics of a feature *)

(** [munfold] in a hypothesis. *)
Ltac munfold_in H :=
  unfold mbind, M_bind, mret, M_ret, emit, modify, get, raise, continue_, when,
    set_trace, set_weights, set_pctcover, set_pixel_count, set_feats, set_dicts in H.

Lemma has_elem name (l : list string) : has name l = true ↔ name ∈ l.
Proof. unfold has. apply bool_decide_eq_true. Qed.

Lemma ran_nth su table s (fs0 fs1 : pydict) j nv :
  table !! j = Some nv →
  ran su table s fs0 fs1 →
  has nv.1 (su_stats su) = true → nv.1 ∉ (drop (S j) table).*1 →
  ∃ fsj x, ran su (take j table) s fs0 fsj ∧ nv.2 fsj s = (Ret x, s) ∧
           fs1 !! KStr nv.1 = Some x.
Proof.
  intros Hj Hran Hhas Hnin. rewrite <- (take_drop_middle table j nv Hj) in Hran.
  by eapply ran_split.
Qed.

Section Populated.
Context (env : collaborators) (c : call) (su : setup).

Lemma builtin_stats_populated i l w s fs s' :
  mw_compressed w ≠ [] →
  builtin_stats env c su i l w s = (Ret fs, s') →
  populated_stats env c su i l w s = (Ret fs, s').
Proof.
  unfold builtin_stats. by destruct (mw_compressed w).
Qed.

(** The entry of a requested statistic of lines 244-279 in the result set
    of a feature with valid cells. *)
Lemma populated_entry i l w s fs s' j nv :
  populated_stats env c su i l w s = (Ret fs, s') →
  stat_table env (mw_masked w) (mw_compressed w) !! j = Some nv →
  has nv.1 (su_stats su) = true →
  nv.1 ∉ (drop (S j) (stat_table env (mw_masked w) (mw_compressed w))).*1 →
  String.prefix "percentile_" nv.1 = false →
  ∃ fsj x,
    prepared env su i w s s' ∧
    ran su (take j (stat_table env (mw_masked w) (mw_compressed w))) s'
      (hist_stats c su w) fsj ∧
    nv.2 fsj s' = (Ret x, s') ∧ fs !! KStr nv.1 = Some x.
Proof.
  intros H Hj Hhas Hnin Hpre.
  apply populated_stats_inv in H as (s1 & fs1 & Hprep & -> & Hran & Hfold).
  apply percentile_fold_inv in Hfold as (_ & Hother & _).
  destruct (ran_nth _ _ _ _ _ _ _ Hj Hran Hhas Hnin) as (fsj & x & H1 & Hx & Hl).
  exists fsj, x. split_and!; try done. rewrite Hother; [done|].
  intros n [= <-] Hin. apply list_elem_of_In, filter_In in Hin as [_ Hin].
  congruence.
Qed.

(** An entry that lines 244-284 do not write. *)
Lemma populated_other i l w s fs s' k :
  populated_stats env c su i l w s = (Ret fs, s') →
  (∀ n, k = KStr n →
        String.prefix "percentile_" n = false ∧
        (n ∈ (stat_table env (mw_masked w) (mw_compressed w)).*1 →
         has n (su_stats su) = false)) →
  fs !! k = hist_stats c su w !! k.
Proof.
  intros H Hk.
  apply populated_stats_inv in H as (s1 & fs1 & Hprep & -> & Hran & Hfold).
  apply percentile_fold_inv in Hfold as (_ & Hother & _).
  rewrite Hother.
  - eapply ran_lookup_other; [done|]. intros n Hn. by apply Hk.
  - intros n Hn Hin. apply list_elem_of_In, filter_In in Hin as [_ Hin].
    destruct (Hk n Hn). congruence.
Qed.

End Populated.

(** X1. [count] is the number of valid cells of the feature, whether there
    are any or not, in every mode: in particular a category that the
    category map labels ["count"] does not take its place. *)
Theorem count_is_the_number_of_valid_cells env c su i l w s fs s' :
  has "count" (su_stats su) = true →
  builtin_stats env c su i l w s = (Ret fs, s') →
  fs !! KStr "count" = Some (PInt (Z.of_nat (length (mw_compressed w)))).
Proof.
  intros Hhas H. destruct (mw_compressed w) as [|x r] eqn:Hc.
  - unfold builtin_stats in H. rewrite Hc in H. simpl in H.
    munfold. injection H as <- <-.
    rewrite empty_stats_lookup by by apply has_elem. done.
  - apply builtin_stats_populated in H; [|by rewrite Hc].
    destruct (populated_entry env c su i l w s fs s' 4 _ H eq_refl Hhas)
      as (fsj & v & _ & _ & Hv & Hl); [by_compute|done|].
    simpl in Hv, Hl. munfold. injection Hv as <-. by rewrite Hl, Hc.
Qed.

Lemma count_is_the_number_of_valid_cells_witness :
  ({[ KStr "count" := PInt 1 ]} : pydict) !! KStr "count" =
  Some (PInt (Z.of_nat (length (ma_compressed
     (mask_window (Demo.win [1; 9999]%Q) (NdArray (1, 2)%nat [[true; true]])))))).
Proof.
  apply (count_is_the_number_of_valid_cells Demo.env0
           (Demo.call_with [0%nat] (StatsStr "count")) (Demo.setup_of ["count"])
           0 0%nat
           (masked_window_of Demo.env0 (Demo.setup_of ["count"])
              (Feature Demo.gA (Some 10%nat)) (Demo.win [1; 9999]%Q)
              (NdArray (1, 2)%nat [[true; true]]))
           (State [] false None None Demo.fe0 Demo.di0)
           {[ KStr "count" := PInt 1 ]}
           (State [] false None None Demo.fe0 Demo.di0)).
  - reflexivity.
  - vm_compute. reflexivity.
Defined.



Lemma hist_stats_plain c su w :
  categorical c = false → hist_stats c su w = mw_stats w.
Proof. intros Hc. unfold hist_stats. by rewrite Hc, andb_false_r. Qed.

Lemma nodata_stat_lookup su fsrc rv name :
  name ≠ "nodata" → nodata_stat su fsrc rv !! KStr name = None.
Proof.
  intros Hne. unfold nodata_stat. destruct (has "nodata" _); [|done].
  apply lookup_singleton_ne. congruence.
Qed.



(** X5. In categorical mode without a category map, the result set of a
    feature with valid cells holds, under every raster value that occurs
    among them, the number of its occurrences, and no entry for any other
    number. *)
Theorem categorical_counts_every_value env c su i l w s fs s' :
  su_run_count su = true → categorical c = true →
  truthy_map (category_map c) = false →
  mw_compressed w ≠ [] →
  builtin_stats env c su i l w s = (Ret fs, s') →
  ∀ q, fs !! KNum q =
       if (occurrences q (mw_compressed w) =? 0)%nat then None
       else Some (PInt (Z.of_nat (occurrences q (mw_compressed w)))).
Proof.
  intros Hrc Hcat Hmap Hne H q. apply builtin_stats_populated in H; [|done].
  rewrite (populated_other env c su i l w s fs s' (KNum q) H) by done.
  unfold hist_stats. rewrite Hrc, Hcat, Hmap. simpl.
  rewrite (lookup_kmap KNum), lookup_fmap, np_unique_counts_lookup.
  by destruct (_ =? _)%nat.
Qed.

Lemma categorical_counts_every_value_witness :
  ({[ KNum 1 := PInt 3; KNum 5 := PInt 1 ]} : pydict) !! KNum 1 =
  if (occurrences 1 [1; 1; 1; 5]%Q =? 0)%nat then None
  else Some (PInt (Z.of_nat (occurrences 1 [1; 1; 1; 5]%Q))).
Proof.
  apply (categorical_counts_every_value Demo.env0
           (Demo.call_of [3%nat] (StatsList []) true None None false false)
           (Setup [] true false (RasterCfg None None 1)) 0 3%nat
           (masked_window_of Demo.env0 (Setup [] true false (RasterCfg None None 1))
              (Feature Demo.gC None) (Demo.win [1; 1; 1; 5]%Q)
              (Demo.row [true; true; true; true]))
           Demo.start _
           (set_pixel_count (Some (np_unique_counts [1; 1; 1; 5]%Q)) Demo.start)).
  - by_compute.
  - by_compute.
  - by_compute.
  - by vm_compute.
  - by_compute.
Defined.

(** X6. When the run counts values, [unique] of a feature with valid
    cells is the number of distinct valid values. *)
Theorem unique_is_the_number_of_distinct_values env c su i l w s fs s' :
  su_run_count su = true →
  has "unique" (su_stats su) = true →
  mw_compressed w ≠ [] →
  builtin_stats env c su i l w s = (Ret fs, s') →
  fs !! KStr "unique" =
  Some (PInt (Z.of_nat (length (remove_dups (Qred <$> mw_compressed w))))).
Proof.
  intros Hrc Hhas Hne H. apply builtin_stats_populated in H; [|done].
  destruct (populated_entry env c su i l w s fs s' 12 _ H eq_refl Hhas)
    as (? & v & Hprep & _ & Hv & Hl); [by_compute|done|].
  destruct Hprep as (Hpc & _). rewrite Hrc in Hpc.
  simpl in Hv, Hl. unfold use_pixel_count in Hv. munfold_in Hv. cbn in Hv.
  rewrite Hpc in Hv. injection Hv as <-.
  by rewrite Hl, np_unique_counts_size.
Qed.

Lemma unique_is_the_number_of_distinct_values_witness :
  ({[ KStr "unique" := PInt 2 ]} : pydict) !! KStr "unique" =
  Some (PInt (Z.of_nat (length (remove_dups (Qred <$> [1; 1; 1; 5]%Q))))).
Proof.
  apply (unique_is_the_number_of_distinct_values Demo.env0
           (Demo.call_with [3%nat] (StatsStr "unique"))
           (Setup ["unique"] true false (RasterCfg None None 1)) 0 3%nat
           (masked_window_of Demo.env0
              (Setup ["unique"] true false (RasterCfg None None 1))
              (Feature Demo.gC None) (Demo.win [1; 1; 1; 5]%Q)
              (Demo.row [true; true; true; true]))
           Demo.start _
           (set_pixel_count (Some (np_unique_counts [1; 1; 1; 5]%Q)) Demo.start)).
  - by_compute.
  - by_compute.
  - by vm_compute.
  - by_compute.
Defined.

(** X7. While the local [weights] is on, the coverage of a feature with
    valid cells is computed for this very feature -- from its geometry and
    the affine and shape of its window -- and the weighted statistics that
    were requested are computed from it. *)
Theorem weighted_statistics_use_the_coverage_of_the_feature
    env c su i l w s fs s' :
  weights s = true →
  mw_compressed w ≠ [] →
  builtin_stats env c su i l w s = (Ret fs, s') →
  ∃ p, rasterize_pctcover env i (mw_geom w) (mw_affine w) (mw_shape w) = Ok p ∧
       pctcover s' = Some p ∧
       trace s' = trace s ++ [EvPctcover i (mw_geom w)] ∧
       (has "weighted_count" (su_stats su) = true →
        fs !! KStr "weighted_count" = Some (weighted_count p)) ∧
       (has "weighted_sum" (su_stats su) = true →
        ∃ v, weighted_sum (mw_masked w) p = Ok v ∧
             fs !! KStr "weighted_sum" = Some v) ∧
       (has "weighted_mean" (su_stats su) = true →
        ∃ v, weighted_mean (mw_masked w) p = Ok v ∧
             fs !! KStr "weighted_mean" = Some v).
Proof.
  intros Hw Hne H. apply builtin_stats_populated in H; [|done].
  destruct (populated_stats_inv env c su i l w s fs s' H)
    as (s1 & fs1 & Hprep & -> & _).
  destruct Hprep as (_ & _ & _ & _ & Hp). rewrite Hw in Hp.
  destruct Hp as (p & Hr & Hp & Ht).
  exists p. split_and!; try done.
  - intros Hhas.
    destruct (populated_entry env c su i l w s fs s1 1 _ H eq_refl Hhas)
      as (? & v & _ & _ & Hv & Hl); [by_compute|done|].
    simpl in Hv, Hl. unfold use_pctcover in Hv. munfold_in Hv. cbn in Hv.
    rewrite Hp in Hv. by injection Hv as <-.
  - intros Hhas.
    destruct (populated_entry env c su i l w s fs s1 2 _ H eq_refl Hhas)
      as (? & v & _ & _ & Hv & Hl); [by_compute|done|].
    simpl in Hv, Hl. unfold use_pctcover, lift in Hv. munfold_in Hv. cbn in Hv.
    rewrite Hp in Hv. destruct (weighted_sum (mw_masked w) p) as [v'|]; [|done].
    injection Hv as <-. eauto.
  - intros Hhas.
    destruct (populated_entry env c su i l w s fs s1 0 _ H eq_refl Hhas)
      as (? & v & _ & _ & Hv & Hl); [by_compute|done|].
    simpl in Hv, Hl. unfold use_pctcover, lift in Hv. munfold_in Hv. cbn in Hv.
    rewrite Hp in Hv. destruct (weighted_mean (mw_masked w) p) as [v'|]; [|done].
    injection Hv as <-. eauto.
Qed.

Lemma weighted_statistics_use_the_coverage_of_the_feature_witness :
  ∃ p, rasterize_pctcover Demo.env0 0 Demo.gB Demo.aff0 (1, 3)%nat = Ok p ∧
       Some (NdArray (1, 3)%nat [[1; 1; 1]%Q]) = Some p ∧
       [EvPctcover 0 Demo.gB] = [] ++ [EvPctcover 0 Demo.gB] ∧
       (has "weighted_count" ["weighted_sum"] = true →
        ({[ KStr "weighted_sum" := PFloat 12 ]} : pydict) !! KStr "weighted_count"
          = Some (weighted_count p)) ∧
       (has "weighted_sum" ["weighted_sum"] = true →
        ∃ v, weighted_sum
               (mask_window (Demo.win [3; 4; 5]%Q) (Demo.row [true; true; true])) p
               = Ok v ∧
             ({[ KStr "weighted_sum" := PFloat 12 ]} : pydict) !! KStr "weighted_sum"
               = Some v) ∧
       (has "weighted_mean" ["weighted_sum"] = true →
        ∃ v, weighted_mean
               (mask_window (Demo.win [3; 4; 5]%Q) (Demo.row [true; true; true])) p
               = Ok v ∧
             ({[ KStr "weighted_sum" := PFloat 12 ]} : pydict) !! KStr "weighted_mean"
               = Some v).
Proof.
  apply (weighted_statistics_use_the_coverage_of_the_feature Demo.env0
           (Demo.call_with [2%nat] (StatsStr "weighted_sum"))
           (Setup ["weighted_sum"] false true (RasterCfg None None 1)) 0 2%nat
           (masked_window_of Demo.env0
              (Setup ["weighted_sum"] false true (RasterCfg None None 1))
              (Feature Demo.gB (Some 12%nat)) (Demo.win [3; 4; 5]%Q)
              (Demo.row [true; true; true]))
           (set_weights true Demo.start)
           {[ KStr "weighted_sum" := PFloat 12 ]}
           (State [EvPctcover 0 Demo.gB] true
              (Some (NdArray (1, 3)%nat [[1; 1; 1]%Q])) None Demo.fe0 Demo.di0)).
  - by_compute.
  - by vm_compute.
  - by_compute.
Defined.

Lemma nodata_count_covered fsrc rv :
  ma_count_eq (MaskedArray (w_array fsrc) (np_logical_not rv)) (w_nodata fsrc) =
  length (List.filter (is_nodata (w_nodata fsrc)) (covered_values fsrc rv)).
Proof. reflexivity. Qed.

(** X8. Outside categorical mode, for a feature with valid cells, [count]
    and [nodata] add up to the number of window cells that the rasterized
    geometry covers: every covered cell is either valid or holds the
    nodata value. *)
Theorem count_and_nodata_partition_the_covered_cells
    env c su i l f fsrc rv s fs s' :
  categorical c = false →
  has "count" (su_stats su) = true → has "nodata" (su_stats su) = true →
  ma_compressed (mask_window fsrc rv) ≠ [] →
  builtin_stats env c su i l (masked_window_of env su f fsrc rv) s = (Ret fs, s') →
  ∃ n k : nat,
    fs !! KStr "count" = Some (PInt (Z.of_nat n)) ∧
    fs !! KStr "nodata" = Some (pyfloat (Num.of_nat k)) ∧
    (n + k = length (covered_values fsrc rv))%nat.
Proof.
  intros Hcat Hcount Hnd Hne H.
  set (w := masked_window_of env su f fsrc rv) in *.
  apply builtin_stats_populated in H; [|done].
  destruct (populated_entry env c su i l w s fs s' 4 _ H eq_refl Hcount)
    as (? & v & _ & _ & Hv & Hl); [by_compute|done|].
  simpl in Hv, Hl. munfold. injection Hv as <-.
  eexists _, _. split; [exact Hl|]. split.
  - rewrite (populated_other env c su i l w s fs s' _ H).
    + rewrite hist_stats_plain by done. simpl. unfold nodata_stat.
      rewrite Hnd. apply lookup_singleton_eq.
    + intros n [= <-]. split; [done|]. intros Hin. exfalso. revert Hin. by_compute.
  - simpl. rewrite compressed_mask_window, nodata_count_covered.
    rewrite Nat.add_comm. apply filter_partition_length.
Qed.

Lemma count_and_nodata_partition_the_covered_cells_witness :
  ∃ n k : nat,
    ({[ KStr "count" := PInt 1; KStr "nodata" := PFloat 1 ]} : pydict) !! KStr "count"
      = Some (PInt (Z.of_nat n)) ∧
    ({[ KStr "count" := PInt 1; KStr "nodata" := PFloat 1 ]} : pydict) !! KStr "nodata"
      = Some (pyfloat (Num.of_nat k)) ∧
    (n + k = length (covered_values (Demo.win [1; 9999]%Q) (Demo.row [true; true])))%nat.
Proof.
  apply (count_and_nodata_partition_the_covered_cells Demo.env0
           (Demo.call_with [0%nat] (StatsStr "count nodata"))
           (Demo.setup_of ["count"; "nodata"]) 0 0%nat
           (Feature Demo.gA (Some 10%nat)) (Demo.win [1; 9999]%Q)
           (Demo.row [true; true]) Demo.start _ Demo.start).
  - by_compute.
  - by_compute.
  - by_compute.
  - by vm_compute.
  - by_compute.
Defined.

(** X9. In categorical mode without a category map the [nodata]
    statistic is not reported for a feature with valid cells: line 232
    replaces the result set that held it by the histogram. *)
Theorem categorical_mode_drops_the_nodata_statistic env c su i l w s fs s' :
  su_run_count su = true → categorical c = true →
  truthy_map (category_map c) = false →
  mw_compressed w ≠ [] →
  builtin_stats env c su i l w s = (Ret fs, s') →
  fs !! KStr "nodata" = None.
Proof.
  intros Hrc Hcat Hmap Hne H. apply builtin_stats_populated in H; [|done].
  rewrite (populated_other env c su i l w s fs s' _ H).
  - unfold hist_stats. rewrite Hrc, Hcat, Hmap. simpl.
    apply eq_None_not_Some. intros [v Hv].
    apply lookup_kmap_Some in Hv as (q & Hq & _); [done|apply _].
  - intros n [= <-]. split; [done|]. intros Hin. exfalso. revert Hin. by_compute.
Qed.

Lemma categorical_mode_drops_the_nodata_statistic_witness :
  ({[ KNum 1 := PInt 1; KStr "count" := PInt 1 ]} : pydict) !! KStr "nodata" = None.
Proof.
  apply (categorical_mode_drops_the_nodata_statistic Demo.env0
           (Demo.call_of [0%nat] (StatsStr "count nodata") true None None false false)
           (Setup ["count"; "nodata"] true false (RasterCfg None None 1)) 0 0%nat
           (masked_window_of Demo.env0
              (Setup ["count"; "nodata"] true false (RasterCfg None None 1))
              (Feature Demo.gA (Some 10%nat)) (Demo.win [1; 9999]%Q)
              (Demo.row [true; true]))
           Demo.start _
           (set_pixel_count (Some (np_unique_counts [1%Q])) Demo.start)).
  - by_compute.
  - by_compute.
  - by_compute.
  - by vm_compute.
  - by_compute.
Defined.

(** ** The keys of the result set *)

Lemma empty_stats_keys su k :
  is_Some (empty_stats su !! k) ↔ ∃ n, k = KStr n ∧ n ∈ su_stats su.
Proof.
  split.
  - intros Hk. destruct (empty_stats_string_keys su k Hk) as [n ->].
    exists n. split; [done|]. unfold empty_stats in Hk.
    destruct (has "count" (su_stats su)) eqn:Hc.
    + rewrite lookup_insert in Hk. case_decide as Heq.
      * injection Heq as <-. by apply has_elem.
      * rewrite none_dict_lookup in Hk. case_decide; [done|]. by destruct Hk.
    + rewrite none_dict_lookup in Hk. case_decide; [done|]. by destruct Hk.
  - intros (n & -> & Hin). rewrite empty_stats_lookup by done. eauto.
Qed.

Lemma nodata_stat_keys su fsrc rv k :
  is_Some (nodata_stat su fsrc rv !! k) ↔
  k = KStr "nodata" ∧ has "nodata" (su_stats su) = true.
Proof.
  unfold nodata_stat. destruct (has "nodata" (su_stats su)).
  - rewrite lookup_singleton. case_decide as Heq.
    + subst k. split; [done | by eauto].
    + split; [by intros [? ?] | by intros [-> _]].
  - rewrite lookup_empty. split; [by intros [? ?] | by intros [_ ?]].
Qed.

Lemma populated_stats_keys env c su i l f fsrc rv s fs s' :
  categorical c = false →
  Forall (λ n, recognised n = true) (su_stats su) →
  populated_stats env c su i l (masked_window_of env su f fsrc rv) s = (Ret fs, s') →
  ∀ k, is_Some (fs !! k) ↔ ∃ n, k = KStr n ∧ n ∈ su_stats su.
Proof.
  intros Hcat Hrec H k.
  apply populated_stats_inv in H as (s1 & fs1 & _ & -> & Hran & Hfold).
  apply percentile_fold_inv in Hfold as (_ & _ & _ & Hkeys).
  rewrite Hkeys, (ran_keys _ _ _ _ _ k Hran), hist_stats_plain by done.
  simpl. rewrite nodata_stat_keys. split.
  - intros [[[-> Hnd]|(n & -> & Hin & Hhas)]|(n & -> & Hin)].
    + exists "nodata". split; [done|]. by apply has_elem.
    + exists n. split; [done|]. by apply has_elem.
    + exists n. split; [done|]. by apply list_elem_of_In, filter_In in Hin as [? _];
        apply list_elem_of_In.
  - intros (n & -> & Hin). rewrite Forall_forall in Hrec.
    pose proof (Hrec n Hin) as Hn. unfold recognised in Hn.
    apply orb_true_iff in Hn as [Hn|Hn].
    + apply has_elem in Hn. unfold builtin_names in Hn.
      apply elem_of_cons in Hn as [->|Hn].
      * left. left. split; [done|]. by apply has_elem.
      * left. right. exists n. split; [done|]. split; [exact Hn|].
        by apply has_elem.
    + right. exists n. split; [done|].
      apply list_elem_of_In, filter_In. split; [by apply list_elem_of_In|done].
Qed.

(** X10. Outside categorical mode, when every requested name is one that
    the loop acts on, the result set of the built-in statistics has exactly
    one entry per requested statistic, under its name, whether the feature
    has valid cells or not. *)
Theorem result_keys_are_the_requested_statistics
    env c su i l f fsrc rv s fs s' :
  categorical c = false →
  Forall (λ n, recognised n = true) (su_stats su) →
  builtin_stats env c su i l (masked_window_of env su f fsrc rv) s = (Ret fs, s') →
  ∀ k, is_Some (fs !! k) ↔ ∃ n, k = KStr n ∧ n ∈ su_stats su.
Proof.
  intros Hcat Hrec H.
  destruct (mw_compressed (masked_window_of env su f fsrc rv)) as [|x r] eqn:Hc.
  - unfold builtin_stats in H. rewrite Hc in H. simpl in H.
    injection H as <- <-. apply empty_stats_keys.
  - apply builtin_stats_populated in H; [|by rewrite Hc].
    by eapply populated_stats_keys.
Qed.

Lemma result_keys_are_the_requested_statistics_witness :
  is_Some (({[ KStr "count" := PInt 3; KStr "percentile_50" := PFloat 0 ]} : pydict)
             !! KStr "percentile_50") ↔
  ∃ n, KStr "percentile_50" = KStr n ∧ n ∈ ["count"; "percentile_50"].
Proof.
  apply (result_keys_are_the_requested_statistics Demo.env0
           (Demo.call_with [2%nat] (StatsStr "count percentile_50"))
           (Demo.setup_of ["count"; "percentile_50"]) 0 2%nat
           (Feature Demo.gB (Some 12%nat)) (Demo.win [3; 4; 5]%Q)
           (Demo.row [true; true; true]) Demo.start _ Demo.start).
  - by_compute.
  - by_compute.
  - by_compute.
Defined.

(** ** Plain selections *)

Lemma ran_build su table s (I : pydict → Prop) : ∀ fs0 : pydict,
  I fs0 →
  Forall (λ nv : string * (pydict → M pyval),
            has nv.1 (su_stats su) = true →
            ∀ fs, I fs → ∃ x, nv.2 fs s = (Ret x, s) ∧ I (<[KStr nv.1 := x]> fs))
         table →
  ∃ fs1, ran su table s fs0 fs1 ∧ I fs1.
Proof.
  induction table as [|nv r IH]; intros fs0 HI Hall.
  - by exists fs0.
  - apply Forall_cons in Hall as [Hnv Hall]. simpl.
    destruct (has nv.1 (su_stats su)) eqn:Hhas.
    + destruct (Hnv eq_refl fs0 HI) as (x & Hx & HI').
      destruct (IH _ HI' Hall) as (fs1 & Hran & HI1).
      exists fs1. split; [|done]. eexists. split; [|exact Hran]. eauto.
    + destruct (IH _ HI Hall) as (fs1 & Hran & HI1).
      exists fs1. split; [|done]. eexists. split; [|exact Hran]. done.
Qed.

Lemma float_extremes_insert (fs : pydict) name v :
  float_extremes fs →
  (name = "min" ∨ name = "max" → ∃ q, v = PFloat q) →
  float_extremes (<[KStr name := v]> fs).
Proof.
  intros Hfs Hv k v' Hk. rewrite lookup_insert. case_decide as Heq.
  - intros [= <-]. apply Hv. subst k. destruct Hk as [[= ->]|[= ->]]; auto.
  - by apply Hfs.
Qed.

Lemma range_stat_floats compressed (fs : pydict) s :
  compressed ≠ [] → float_extremes fs →
  ∃ q, range_stat compressed fs s = (Ret (PFloat q), s).
Proof.
  intros Hne Hfs.
  destruct (num_min_spec _ Hne) as (mn & Hmn & _).
  destruct (num_max_spec _ Hne) as (mx & Hmx & _).
  unfold range_stat, extreme, lift. munfold. rewrite Hmn, Hmx.
  destruct (fs !! KStr "min") as [v1|] eqn:H1;
    [destruct (Hfs _ _ (or_introl eq_refl) H1) as [q1 ->]|];
    (destruct (fs !! KStr "max") as [v2|] eqn:H2;
      [destruct (Hfs _ _ (or_intror eq_refl) H2) as [q2 ->]|]);
    cbn; eauto.
Qed.

Section Plain.
Context (env : collaborators) (c : call) (su : setup).

Lemma plain_not_requested name :
  Forall (λ n, n ∈ plain_names) (su_stats su) →
  name ∉ plain_names → has name (su_stats su) = false.
Proof.
  intros Hall Hn. apply not_true_is_false. intros Hhas.
  apply has_elem in Hhas. rewrite Forall_forall in Hall. by apply Hall in Hhas.
Qed.

Lemma plain_table_runs masked compressed s (fs0 : pydict) :
  Forall (λ n, n ∈ plain_names) (su_stats su) →
  compressed ≠ [] → float_extremes fs0 →
  ∃ fs1, ran su (stat_table env masked compressed) s fs0 fs1.
Proof.
  intros Hall Hne Hfs0.
  destruct (num_min_spec _ Hne) as (mn & Hmn & _).
  destruct (num_max_spec _ Hne) as (mx & Hmx & _).
  destruct (ran_build su (stat_table env masked compressed) s float_extremes fs0 Hfs0)
    as (fs1 & Hran & _); [|by exists fs1].
  unfold stat_table.
  repeat (apply Forall_cons_2; [|try apply Forall_nil_2]); simpl;
    intros Hhas fs Hfs;
    try (rewrite plain_not_requested in Hhas; [done|done|by_compute]).
  - eexists. split; [reflexivity|].
    apply float_extremes_insert; [done|]. by intros [|].
  - eexists. split; [reflexivity|].
    apply float_extremes_insert; [done|]. by intros [|].
  - eexists. split; [reflexivity|].
    apply float_extremes_insert; [done|]. by intros [|].
  - rewrite Hmn. eexists. split; [reflexivity|].
    apply float_extremes_insert; [done|]. intros _. by eexists.
  - rewrite Hmx. eexists. split; [reflexivity|].
    apply float_extremes_insert; [done|]. intros _. by eexists.
  - eexists. split; [reflexivity|].
    apply float_extremes_insert; [done|]. by intros [|].
  - eexists. split; [reflexivity|].
    apply float_extremes_insert; [done|]. by intros [|].
  - destruct (range_stat_floats compressed fs s Hne Hfs) as [q Hq].
    eexists. split; [exact Hq|].
    apply float_extremes_insert; [done|]. by intros [|].
Qed.

Lemma plain_no_percentiles :
  Forall (λ n, n ∈ plain_names) (su_stats su) →
  List.filter (String.prefix "percentile_") (su_stats su) = [].
Proof.
  intros Hall. induction Hall as [|n r Hn _ IH]; [done|]. simpl. rewrite IH.
  assert (String.prefix "percentile_" n = false) as ->; [|done].
  unfold plain_names in Hn. set_unfold in Hn.
  by destruct Hn as [->|[->|[->|[->|[->|[->|[->|[->|[->|[]]]]]]]]]].
Qed.

(** Running lines 226-284 while the weights are off, given what the
    statements of the table do. *)
Lemma populated_stats_run i l w s fs1 :
  weights s = false →
  ran su (stat_table env (mw_masked w) (mw_compressed w)) (counted_state su w s)
    (hist_stats c su w) fs1 →
  populated_stats env c su i l w s =
  foldM (percentile_step env (mw_compressed w)) fs1
    (List.filter (String.prefix "percentile_") (su_stats su)) (counted_state su w s).
Proof.
  intros Hw Hran. unfold populated_stats.
  assert (H0 : ∀ A (k : pydict → M A),
    ((if su_run_count su
      then modify (set_pixel_count (Some (np_unique_counts (mw_compressed w))));;
           (if categorical c
            then if truthy_map (category_map c)
                 then mret (remap_categories (default ∅ (category_map c))
                        (kmap KNum (PInt <$> np_unique_counts (mw_compressed w))))
                 else mret (kmap KNum (PInt <$> np_unique_counts (mw_compressed w)))
            else mret (mw_stats w))
      else mret (mw_stats w)) ≫= k) s
    = k (hist_stats c su w) (counted_state su w s)).
  { intros A k. unfold hist_stats, counted_state.
    destruct (su_run_count su); [|done]. simpl.
    destruct (categorical c); [destruct (truthy_map _)|]; done. }
  rewrite H0. rewrite bind_run. unfold get. simpl.
  assert (weights (counted_state su w s) = false) as ->.
  { unfold counted_state. by destruct (su_run_count su). }
  simpl. rewrite bind_run. munfold.
  etransitivity;
    [|apply (chain_run su _ _ _
               (λ fs, foldM (percentile_step env (mw_compressed w)) fs
                        (List.filter (String.prefix "percentile_") (su_stats su)))
               _ Hran)].
  reflexivity.
Qed.

End Plain.

(** ** What a run does to the features *)

Lemma store_invariant_stage I : store_invariant I → stage_invariant I.
Proof. intros H s s' Hf Hd _. by apply H. Qed.

Section StageKept.
Context (env : collaborators) (c : call) (su : setup).
Context (I : state → Prop) (Hframe : stage_invariant I).

Lemma keeps_stage_modify (f : state → state) :
  (∀ s, feats (f s) = feats s ∧ dicts (f s) = dicts s ∧ weights (f s) = weights s) →
  keeps I (modify f).
Proof.
  intros Hf. apply keeps_modify. intros s Hs. destruct (Hf s) as (? & ? & ?).
  by eapply Hframe.
Qed.

Lemma keeps_stage_emit e : keeps I (emit e).
Proof. by apply keeps_stage_modify. Qed.

Ltac stage_step :=
  match goal with
  | |- keeps _ (let _ := _ in _) => cbv zeta
  | |- keeps _ (mbind _ _) => apply keeps_bind; [|intros ?]
  | |- keeps _ (try_memory _ _) => apply keeps_try_memory
  | |- keeps _ (foldM _ _ _) => apply keeps_foldM; intros ? ?
  | |- keeps _ (emit _) => apply keeps_stage_emit
  | |- keeps _ (mret _) => apply keeps_ret
  | |- keeps _ (raise _) => apply keeps_raise
  | |- keeps _ continue_ => apply keeps_continue
  | |- keeps _ (lift _) => apply keeps_lift
  | |- keeps _ (get_feat _) => apply keeps_get_feat
  | |- keeps _ (get_dict _) => apply keeps_get_dict
  | |- keeps _ (get _) => apply keeps_silent; reflexivity
  | |- keeps _ (modify _) =>
      apply keeps_stage_modify; intros ?; split_and!; reflexivity
  | |- keeps _ (when ?b _) => destruct b; [unfold when|apply keeps_ret]
  | |- keeps _ (if ?b then _ else _) => destruct b
  | |- keeps _ (match ?x with _ => _ end) => destruct x
  end.

Lemma keeps_stage_skip_feature {A} msg l : keeps I (skip_feature msg l : M A).
Proof.
  unfold skip_feature, print_properties, feat_properties. repeat stage_step.
Qed.

(** Lines 160-217, once the geometry is fixed. *)
Lemma keeps_stage_acquire_point i l :
  (∀ s, I s → I (set_weights false s)) → keeps I (acquire env su i l).
Proof.
  intros Hpt. unfold acquire.
  repeat first
    [ apply keeps_stage_skip_feature
    | match goal with
      | |- keeps _ (modify (set_weights false)) => by apply keeps_modify
      end
    | stage_step ].
Qed.

(** A feature that is not a point. *)
Lemma keeps_stage_acquire_other i l s f :
  feats s !! l = Some f → pointlike (f_geometry f) = false →
  I s → I (acquire env su i l s).2.
Proof.
  intros Hf Hpt Hs.
  assert (Hget : get_feat l s = (Ret f, s)).
  { unfold get_feat. by rewrite Hf. }
  unfold acquire. rewrite (bind_ret_run _ _ _ _ _ Hget).
  unfold pointlike in Hpt. rewrite Hpt, bind_run. unfold mret at 1, M_ret at 1.
  clear Hf Hget.
  match goal with |- I (?m s).2 => revert s Hs; change (keeps I m) end.
  repeat first [ apply keeps_stage_skip_feature | stage_step ].
Qed.

Lemma keeps_stage_stat_if name v fs :
  keeps I v → keeps I (stat_if su name v fs).
Proof. intros Hv. unfold stat_if. repeat stage_step. done. Qed.

Lemma keeps_stage_populated_stats i l w : keeps I (populated_stats env c su i l w).
Proof.
  unfold populated_stats, range_stat, use_pctcover, use_pixel_count, extreme.
  repeat first [ apply keeps_stage_stat_if | apply keeps_stage_skip_feature
               | stage_step ].
Qed.

Lemma keeps_stage_builtin_stats i l w : keeps I (builtin_stats env c su i l w).
Proof.
  unfold builtin_stats. destruct (_ =? _)%nat;
    [apply keeps_ret | apply keeps_stage_populated_stats].
Qed.

Lemma keeps_stage_custom_stats i masked fs : keeps I (custom_stats c i masked fs).
Proof. unfold custom_stats. repeat stage_step. Qed.

(** When merging keeps the invariant, so does the rest of an iteration. *)
Lemma keeps_stage_emit_record l fs :
  (geojson_out c || save_properties c = true → ∀ kv, keeps I (merge_item l kv)) →
  keeps I (emit_record c l fs).
Proof.
  intros Hm. unfold emit_record, feat_properties.
  destruct (geojson_out c || save_properties c); [|apply keeps_stage_emit].
  specialize (Hm eq_refl). repeat first [ apply Hm | stage_step ].
Qed.

Lemma keeps_stage_aggregate i l w :
  (geojson_out c || save_properties c = true → ∀ kv, keeps I (merge_item l kv)) →
  keeps I (aggregate env c su i l w).
Proof.
  intros Hm. unfold aggregate.
  apply keeps_bind; [apply keeps_stage_builtin_stats|]. intros fs.
  apply keeps_bind; [apply keeps_stage_custom_stats|]. intros fs'.
  by apply keeps_stage_emit_record.
Qed.

Lemma keeps_stage_body i l :
  (∀ s, I s → I (set_weights false s)) →
  (geojson_out c || save_properties c = true → ∀ kv, keeps I (merge_item l kv)) →
  keeps I (body env c su i l).
Proof.
  intros Hpt Hm. unfold body.
  apply keeps_bind; [by apply keeps_stage_acquire_point|]. intros w.
  by apply keeps_stage_aggregate.
Qed.

Lemma keeps_stage_loop ls :
  (∀ s, I s → I (set_weights false s)) →
  (geojson_out c || save_properties c = true →
   ∀ l kv, keeps I (merge_item l kv)) →
  ∀ i s, I s → I (loop env c su i ls s).2.
Proof.
  intros Hpt Hm. induction ls as [|l ls IH]; intros i s Hs; simpl; [done|].
  assert (Hb : I (body env c su i l s).2).
  { apply keeps_stage_body; [done| |done]. intros Hmode kv. by apply Hm. }
  destruct (body env c su i l s) as [[[]| |e] s1]; simpl in *; auto.
Qed.

End StageKept.

Lemma keeps_store_gen env c (I : state → Prop) fe di :
  store_invariant I →
  (geojson_out c || save_properties c = true →
   ∀ l kv, keeps I (merge_item l kv)) →
  I (State [] false None None fe di) →
  I (gen_zonal_stats env c fe di).2.
Proof.
  intros Hframe Hm H0. unfold gen_zonal_stats.
  destruct (check_stats _ _ _) as [[[sts rc] wts]|e].
  - destruct (configure c sts rc wts) as [ws su'] eqn:Hcfg.
    set (s0 := State _ _ _ _ _ _).
    assert (H1 : I s0) by by apply (Hframe (State [] false None None fe di)).
    assert (H2 : I (loop env c su' 0 (vectors c) s0).2).
    { apply keeps_stage_loop; try done.
      - by apply store_invariant_stage.
      - intros s Hs. by apply (Hframe s). }
    destruct (loop env c su' 0 (vectors c) s0) as [st s1]. simpl in *.
    by apply (Hframe s1).
  - by apply (Hframe (State [] false None None fe di)).
Qed.

Lemma same_store_invariant fe di : store_invariant (same_store fe di).
Proof. intros s s' Hf Hd [H1 H2]. split; congruence. Qed.

(** X11. Without [geojson_out] and [save_properties] a run leaves the
    caller's features and their properties exactly as they were, however it
    ends. *)
Theorem statistics_mode_leaves_the_features_alone env c fe di :
  geojson_out c = false → save_properties c = false →
  feats (gen_zonal_stats env c fe di).2 = fe ∧
  dicts (gen_zonal_stats env c fe di).2 = di.
Proof.
  intros Hg Hs.
  apply (keeps_store_gen env c (same_store fe di) fe di).
  - apply same_store_invariant.
  - by rewrite Hg, Hs.
  - done.
Qed.

Lemma statistics_mode_leaves_the_features_alone_witness :
  feats (gen_zonal_stats Demo.env0
           (Demo.call_with [0; 1; 2]%nat (StatsStr "count mean"))
           Demo.fe0 Demo.di0).2 = Demo.fe0 ∧
  dicts (gen_zonal_stats Demo.env0
           (Demo.call_with [0; 1; 2]%nat (StatsStr "count mean"))
           Demo.fe0 Demo.di0).2 = Demo.di0.
Proof.
  apply (statistics_mode_leaves_the_features_alone Demo.env0
           (Demo.call_with [0; 1; 2]%nat (StatsStr "count mean"))
           Demo.fe0 Demo.di0); reflexivity.
Defined.

Lemma store_grown_invariant fe di : store_invariant (store_grown fe di).
Proof.
  intros s s' Hf Hd [H1 H2]. unfold store_grown. rewrite Hf, Hd. by split.
Qed.

Lemma store_grown_refl fe di : store_grown fe di (State [] false None None fe di).
Proof.
  split.
  - intros l f Hl. exists f. by split_and!.
  - intros pl d Hd. exists d. by split.
Qed.

Lemma keeps_grown_merge_item fe di l kv : keeps (store_grown fe di) (merge_item l kv).
Proof.
  intros s [Hfe Hdi]. unfold merge_item, get_feat.
  rewrite bind_run. destruct (feats s !! l) as [f|] eqn:Hl; [|by split].
  rewrite bind_run. destruct (f_properties f) as [pl|] eqn:Hp.
  - munfold. cbn. unfold get_dict.
    destruct (dicts s !! pl) as [d|] eqn:Hd; [|by split]. cbn. split; [done|].
    cbn. intros pl0 d0 H0. destruct (Hdi pl0 d0 H0) as (d' & Hd' & Hkeys).
    destruct (decide (pl0 = pl)) as [->|Hne].
    + rewrite lookup_insert_eq. eexists. split; [done|].
      intros k Hk. rewrite lookup_insert. case_decide; [by eauto|].
      assert (d' = d) as -> by congruence. by apply Hkeys.
    + rewrite lookup_insert_ne by done. eauto.
  - unfold new_properties. cbn. rewrite bind_run. unfold get_dict. cbn.
    rewrite lookup_insert_eq. munfold. cbn.
    assert (Hfresh : dicts s !! fresh (dom (dicts s)) = None)
      by apply not_elem_of_dom, is_fresh.
    split; cbn.
    + intros l0 f0 H0. destruct (Hfe l0 f0 H0) as (f' & Hf' & Hg & Hpl).
      destruct (decide (l0 = l)) as [->|Hne].
      * rewrite lookup_insert_eq. eexists. split; [done|].
        assert (f' = f) as -> by congruence. split; [done|].
        intros pl Hpl0. apply Hpl in Hpl0. congruence.
      * rewrite lookup_insert_ne by done. eauto.
    + intros pl0 d0 H0. destruct (Hdi pl0 d0 H0) as (d' & Hd' & Hkeys).
      rewrite !lookup_insert_ne by congruence. eauto.
Qed.

(** X12. Whatever the output mode and however the run ends, nothing is
    taken away from the caller's features: every feature is still there
    with the geometry it had and, if it had properties, with the same
    properties dictionary, and every properties dictionary still has every
    key it had. *)
Theorem nothing_is_removed_from_the_features env c fe di :
  store_grown fe di (gen_zonal_stats env c fe di).2.
Proof.
  apply keeps_store_gen.
  - apply store_grown_invariant.
  - intros _ l kv. apply keeps_grown_merge_item.
  - apply store_grown_refl.
Qed.

(** ** The local [weights] *)

Lemma weights_held_invariant b ls : stage_invariant (weights_held b ls).
Proof.
  intros s s' Hf Hd Hw [H1 H2]. unfold weights_held. rewrite Hf, Hw. by split.
Qed.

Lemma keeps_held_merge_item b ls l kv : keeps (weights_held b ls) (merge_item l kv).
Proof.
  intros s [Hw Hpt]. unfold merge_item, get_feat.
  rewrite bind_run. destruct (feats s !! l) as [f|] eqn:Hl; [|by split].
  rewrite bind_run. destruct (f_properties f) as [pl|] eqn:Hp.
  - munfold. cbn. unfold get_dict.
    destruct (dicts s !! pl) as [d|] eqn:Hd; by split.
  - unfold new_properties. cbn. rewrite bind_run. unfold get_dict. cbn.
    rewrite lookup_insert_eq. munfold. cbn. split; [done|]. cbn.
    intros l0 f0 Hin H0. destruct (decide (l0 = l)) as [->|Hne].
    + rewrite lookup_insert_eq in H0. injection H0 as <-. simpl. by eapply Hpt.
    + rewrite lookup_insert_ne in H0 by done. by eapply Hpt.
Qed.

Lemma weights_held_loop env c su b ls0 ls :
  (∀ l, l ∈ ls → l ∈ ls0) →
  ∀ i s, weights_held b ls0 s → weights_held b ls0 (loop env c su i ls s).2.
Proof.
  induction ls as [|l ls IH]; intros Hsub i s Hs; simpl; [done|].
  assert (Hb : weights_held b ls0 (body env c su i l s).2).
  { destruct (feats s !! l) as [f|] eqn:Hf.
    - unfold body. apply keeps_establish.
      + apply keeps_stage_acquire_other with (f := f);
          [apply weights_held_invariant|done| |done].
        destruct Hs as [_ Hpt]. eapply Hpt; [|done]. apply Hsub, list_elem_of_here.
      + intros w. apply keeps_stage_aggregate; [apply weights_held_invariant|].
        intros _ kv. apply keeps_held_merge_item.
    - unfold body, acquire, get_feat. rewrite bind_run, bind_run, Hf. done. }
  assert (Hsub' : ∀ l', l' ∈ ls → l' ∈ ls0).
  { intros l' Hl'. by apply Hsub, list_elem_of_further. }
  destruct (body env c su i l s) as [[[]| |e] s1]; simpl in *; auto.
Qed.

(** X13. The local [weights] changes only at a point: over features none
    of which is a Point or MultiPoint the loop ends, however it ends, with
    the value of [weights] it started with. *)
Theorem weights_change_only_at_points env c su i ls s :
  (∀ l f, l ∈ ls → feats s !! l = Some f →
          geom_kind_of (f_geometry f) ≠ Point ∧
          geom_kind_of (f_geometry f) ≠ MultiPoint) →
  weights (loop env c su i ls s).2 = weights s.
Proof.
  intros Hpt.
  apply (weights_held_loop env c su (weights s) ls ls); [done|].
  split; [done|]. intros l f Hin Hf. destruct (Hpt l f Hin Hf) as [H1 H2].
  unfold pointlike, geom_type. by destruct (geom_kind_of (f_geometry f)).
Qed.

Lemma weights_change_only_at_points_witness :
  weights (loop Demo.env0 (Demo.call_with [0; 2]%nat (StatsStr "weighted_count"))
             (Setup ["weighted_count"] false true (RasterCfg None None 1)) 0
             [0; 2]%nat (set_weights true Demo.start)).2 = true.
Proof.
  apply (weights_change_only_at_points Demo.env0
           (Demo.call_with [0; 2]%nat (StatsStr "weighted_count"))
           (Setup ["weighted_count"] false true (RasterCfg None None 1)) 0
           [0; 2]%nat (set_weights true Demo.start)).
  intros l f Hin Hf. set_unfold in Hin.
  destruct Hin as [->|[->|[]]]; vm_compute in Hf; injection Hf as <-; by split.
Defined.

(** ** From the result set to the record *)

Section BodyRun.
Context (env : collaborators) (c : call) (su : setup).

Lemma body_run i l s f fsrc rv fs s2 fs' s3 :
  feats s !! l = Some f →
  rasterized env su i f fsrc rv → arrays_fit env su i →
  builtin_stats env c su i l (masked_window_of env su f fsrc rv)
    (rasterized_state env su i f s) = (Ret fs, s2) →
  custom_stats c i (mask_window fsrc rv) fs s2 = (Ret fs', s3) →
  body env c su i l s =
  emit_record c l
    (apply_prefix env c (attach_raster c (masked_window_of env su f fsrc rv) fs')) s3 ∧
  feats s3 = feats s ∧ dicts s3 = dicts s ∧ yields (trace s3) = yields (trace s).
Proof.
  intros Hf Hrast Hfit Hb Hc.
  pose proof (acquire_ok env su i l s f fsrc rv Hf Hrast Hfit) as Hacq.
  destruct (rasterized_state_store env su i f s) as (Hfe1 & Hdi1 & Hy1).
  split.
  { unfold body. rewrite (bind_ret_run _ _ _ _ _ Hacq). unfold aggregate.
    rewrite (bind_ret_run _ _ _ _ _ Hb). cbn [mw_masked masked_window_of].
    by rewrite (bind_ret_run _ _ _ _ _ Hc). }
  assert (H2 : same_store (feats s) (dicts s) s2 ∧ yields (trace s2) = yields (trace s)).
  { split.
    - pose proof (keeps_stage_builtin_stats env c su _
                    (store_invariant_stage _
                       (same_store_invariant (feats s) (dicts s))) i l
                    (masked_window_of env su f fsrc rv)
                    (rasterized_state env su i f s) (conj Hfe1 Hdi1)) as H.
      by rewrite Hb in H.
    - rewrite <- Hy1.
      pose proof (emits_no_yield (builtin_stats env c su i l
                    (masked_window_of env su f fsrc rv))
                    (rasterized_state env su i f s)) as H.
      rewrite Hb in H. apply H. by apply emits_builtin_stats. }
  destruct H2 as [H2 Hy2].
  pose proof (keeps_stage_custom_stats c _
                (store_invariant_stage _
                   (same_store_invariant (feats s) (dicts s))) i
                (mask_window fsrc rv) fs s2 H2) as H3.
  rewrite Hc in H3. destruct H3 as [Hfe3 Hdi3]. split; [done|]. split; [done|].
  rewrite <- Hy2.
  pose proof (emits_no_yield (custom_stats c i (mask_window fsrc rv) fs) s2) as H.
  rewrite Hc in H. apply H. by apply emits_custom_stats.
Qed.

(** Every entry of the shaped result set can be read off the record that
    the iteration yields. *)
Lemma body_record i l s f fsrc rv fs s2 fs' s3 k v :
  feats s !! l = Some f →
  (∀ pl, f_properties f = Some pl → is_Some (dicts s !! pl)) →
  rasterized env su i f fsrc rv → arrays_fit env su i →
  builtin_stats env c su i l (masked_window_of env su f fsrc rv)
    (rasterized_state env su i f s) = (Ret fs, s2) →
  custom_stats c i (mask_window fsrc rv) fs s2 = (Ret fs', s3) →
  apply_prefix env c (attach_raster c (masked_window_of env su f fsrc rv) fs') !! k
    = Some v →
  ∃ r s', body env c su i l s = (Ret tt, s') ∧
          yields (trace s') = yields (trace s) ++ [r] ∧
          record_lookup s' r k = Some v.
Proof.
  intros Hf Hwf Hrast Hfit Hb Hc Hk.
  destruct (body_run i l s f fsrc rv fs s2 fs' s3 Hf Hrast Hfit Hb Hc)
    as (Hbody & Hfe & Hdi & Hy).
  destruct (emit_record_lookup c l
              (apply_prefix env c
                 (attach_raster c (masked_window_of env su f fsrc rv) fs'))
              s3 f k v) as (r & s' & He & Ht & Hr);
    [by rewrite Hfe|by rewrite Hdi|exact Hk|].
  exists r, s'. split; [by rewrite Hbody|]. split; [|done].
  by rewrite Ht, yields_app, Hy.
Qed.

Lemma attach_raster_other w (fs : pydict) name :
  name ∉ raster_keys → attach_raster c w fs !! KStr name = fs !! KStr name.
Proof.
  intros Hn. unfold attach_raster. destruct (raster_out c); [|done].
  unfold raster_keys in Hn. rewrite !not_elem_of_cons in Hn.
  destruct Hn as (H1 & H2 & H3 & _).
  rewrite !lookup_insert_ne; [done|..]; congruence.
Qed.

End BodyRun.

(** Items put one after the other: a key all of whose items hold the same
    value ends up with that value. *)
Lemma foldl_put_agree {K V : Type} `{Countable K}
    (l : list (K * V)) (m : gmap K V) k v :
  (k, v) ∈ l → (∀ v', (k, v') ∈ l → v' = v) → foldl put m l !! k = Some v.
Proof.
  revert m. induction l as [|[k' v'] l IH]; intros m Hin Hall; simpl.
  - by apply elem_of_nil in Hin.
  - destruct (decide (k ∈ l.*1)) as [Hk|Hk].
    + apply list_elem_of_fmap in Hk as ([k1 v1] & -> & Hk). simpl in *.
      assert (v1 = v) as -> by (apply Hall; by right).
      apply IH; [done|]. intros v2 H2. apply Hall. by right.
    + apply elem_of_cons in Hin as [[= -> ->]|Hin].
      * rewrite foldl_put_notin by done. unfold put. simpl.
        by rewrite lookup_insert_eq.
      * exfalso. apply Hk. apply list_elem_of_fmap. by exists (k, v).
Qed.

Section PrefixText.
Context (env : collaborators) (c : call).

(** Prefixing keeps the value of a key whose text no other key of the
    result set shares. *)
Lemma apply_prefix_unique (fs : pydict) name v :
  fs !! KStr name = Some v →
  (is_Some (prefix c) →
   ∀ k, is_Some (fs !! k) → str_of_key env k = name → k = KStr name) →
  apply_prefix env c fs !! KStr (default "" (prefix c) +:+ name) = Some v.
Proof.
  intros Hv Huniq. unfold apply_prefix.
  destruct (prefix c) as [p|]; [|done].
  simpl.
  set (g := λ kv : key * pyval, (KStr (p +:+ str_of_key env kv.1), kv.2)).
  assert (Hfold : ∀ l acc,
            foldl (λ acc kv, <[KStr (p +:+ str_of_key env kv.1) := kv.2]> acc) acc l
            = foldl put acc (g <$> l)).
  { induction l as [|kv l IH]; intros acc; simpl; [done|]. by rewrite IH. }
  rewrite Hfold. apply foldl_put_agree.
  - apply list_elem_of_fmap. exists (KStr name, v). split; [done|].
    by apply elem_of_map_to_list.
  - intros v' Hin. apply list_elem_of_fmap in Hin as ([k1 v1] & [= Hk ->] & Hin).
    apply elem_of_map_to_list in Hin. apply append_inj_r in Hk.
    assert (k1 = KStr name) as ->.
    { apply Huniq; [by eexists|by eexists|done]. }
    congruence.
Qed.

(** The same after [raster_out], where only a numeric key can share the
    text of a name. *)
Lemma shaped_lookup w (fs : pydict) name v :
  attach_raster c w fs !! KStr name = Some v →
  (is_Some (prefix c) →
   ∀ q, is_Some (fs !! KNum q) → str_of_num env q ≠ name) →
  apply_prefix env c (attach_raster c w fs)
    !! KStr (default "" (prefix c) +:+ name) = Some v.
Proof.
  intros Hv Hnum.
  apply apply_prefix_unique; [done|].
  intros Hp [n|q] Hk Ht; simpl in Ht; [by subst|].
  exfalso. apply (Hnum Hp q); [|done].
  unfold attach_raster in Hk. destruct (raster_out c); [|done].
  by rewrite !lookup_insert_ne in Hk.
Qed.

End PrefixText.

(** X14. The record yielded for a feature carries the statistics: an entry
    of the result set under a name that [raster_out] does not use is found
    in the record under the prefixed name, in each of the three output
    modes -- with a prefix, provided that no numeric key of the result set
    (a value of the histogram) has the name as its text, since the two
    would be given the same prefixed key. *)
Theorem yielded_record_carries_the_statistics
    env c su i l s f fsrc rv fs s2 fs' s3 name v :
  feats s !! l = Some f →
  (∀ pl, f_properties f = Some pl → is_Some (dicts s !! pl)) →
  rasterized env su i f fsrc rv → arrays_fit env su i →
  builtin_stats env c su i l (masked_window_of env su f fsrc rv)
    (rasterized_state env su i f s) = (Ret fs, s2) →
  custom_stats c i (mask_window fsrc rv) fs s2 = (Ret fs', s3) →
  (is_Some (prefix c) →
   ∀ q, is_Some (fs' !! KNum q) → str_of_num env q ≠ name) →
  name ∉ raster_keys →
  fs' !! KStr name = Some v →
  ∃ r s', body env c su i l s = (Ret tt, s') ∧
          yields (trace s') = yields (trace s) ++ [r] ∧
          record_lookup s' r (KStr (default "" (prefix c) +:+ name)) = Some v.
Proof.
  intros Hf Hwf Hrast Hfit Hb Hc Hnum Hn Hv.
  eapply body_record; try done.
  apply shaped_lookup; [|done].
  by rewrite attach_raster_other.
Qed.

Lemma yielded_record_carries_the_statistics_witness :
  ∃ r s',
    body Demo.env0 (Demo.call_histogram [2%nat] (StatsStr "count") (Some "z_"))
      (Setup ["count"] true false (RasterCfg None None 1)) 0 2%nat Demo.start
      = (Ret tt, s') ∧
    yields (trace s') = yields (trace Demo.start) ++ [r] ∧
    record_lookup s' r (KStr ("z_" +:+ "count")) = Some (PInt 3).
Proof.
  apply (yielded_record_carries_the_statistics Demo.env0
           (Demo.call_histogram [2%nat] (StatsStr "count") (Some "z_"))
           (Setup ["count"] true false (RasterCfg None None 1)) 0 2%nat Demo.start
           (Feature Demo.gB (Some 12%nat)) (Demo.win [3; 4; 5]%Q)
           (Demo.row [true; true; true])
           {[ KNum 3 := PInt 1; KNum 4 := PInt 1; KNum 5 := PInt 1;
              KStr "count" := PInt 3 ]}
           (set_pixel_count
              (Some {[ 3%Q := 1%Z; 4%Q := 1%Z; 5%Q := 1%Z ]})
              (rasterized_state Demo.env0
                 (Setup ["count"] true false (RasterCfg None None 1)) 0
                 (Feature Demo.gB (Some 12%nat)) Demo.start))
           {[ KNum 3 := PInt 1; KNum 4 := PInt 1; KNum 5 := PInt 1;
              KStr "count" := PInt 3 ]}
           (set_pixel_count
              (Some {[ 3%Q := 1%Z; 4%Q := 1%Z; 5%Q := 1%Z ]})
              (rasterized_state Demo.env0
                 (Setup ["count"] true false (RasterCfg None None 1)) 0
                 (Feature Demo.gB (Some 12%nat)) Demo.start))
           "count" (PInt 3)).
  - by_compute.
  - intros pl [= <-]. by eexists.
  - repeat split; by_compute.
  - repeat split; intros; by_compute.
  - by_compute.
  - by_compute.
  - intros _ q _. by_compute.
  - by_compute.
  - by_compute.
Defined.

Lemma yield_unique (ys : list record) r r' : ys ++ [r] = ys ++ [r'] → r = r'.
Proof. intros H. apply app_inv_head in H. by injection H. Qed.

(** X15. With [raster_out] the record yielded for a feature holds, under
    the (prefixed) keys [mini_raster_affine] and [mini_raster_nodata], the
    window's affine and its nodata value ([None] when it has none), and
    under [mini_raster_array] a masked array -- the full masked array of
    the window when no custom statistics are supplied -- also when a custom
    statistic was stored under one of these names. With a prefix this
    needs that no numeric key of the result set has one of the three names
    as its text. *)
Theorem raster_out_attaches_the_window
    env c su i l s f fsrc rv fs s2 fs' s3 :
  feats s !! l = Some f →
  (∀ pl, f_properties f = Some pl → is_Some (dicts s !! pl)) →
  rasterized env su i f fsrc rv → arrays_fit env su i →
  builtin_stats env c su i l (masked_window_of env su f fsrc rv)
    (rasterized_state env su i f s) = (Ret fs, s2) →
  custom_stats c i (mask_window fsrc rv) fs s2 = (Ret fs', s3) →
  (is_Some (prefix c) →
   ∀ q, is_Some (fs' !! KNum q) → str_of_num env q ∉ raster_keys) →
  raster_out c = true →
  ∃ r s' m,
    body env c su i l s = (Ret tt, s') ∧
    yields (trace s') = yields (trace s) ++ [r] ∧
    record_lookup s' r (KStr (default "" (prefix c) +:+ "mini_raster_array"))
      = Some (PMasked m) ∧
    (add_stats c = None → m = mask_window fsrc rv) ∧
    record_lookup s' r (KStr (default "" (prefix c) +:+ "mini_raster_affine"))
      = Some (PAffine (w_affine fsrc)) ∧
    record_lookup s' r (KStr (default "" (prefix c) +:+ "mini_raster_nodata"))
      = Some (match w_nodata fsrc with Some n => PFloat n | None => PNone end).
Proof.
  intros Hf Hwf Hrast Hfit Hb Hc Hnum Hout.
  set (w := masked_window_of env su f fsrc rv) in *.
  assert (Hshaped : ∀ name v,
            name ∈ raster_keys →
            attach_raster c w fs' !! KStr name = Some v →
            apply_prefix env c (attach_raster c w fs')
              !! KStr (default "" (prefix c) +:+ name) = Some v).
  { intros name v Hname Hv. apply shaped_lookup; [done|].
    intros Hp q Hq Heq. apply (Hnum Hp q Hq). by rewrite Heq. }
  assert (Harr : attach_raster c w fs' !! KStr "mini_raster_array"
                 = Some (PMasked (mask_window fsrc rv))).
  { unfold attach_raster. rewrite Hout.
    rewrite !lookup_insert_ne by done. apply lookup_insert_eq. }
  assert (Haff : attach_raster c w fs' !! KStr "mini_raster_affine"
                 = Some (PAffine (w_affine fsrc))).
  { unfold attach_raster. rewrite Hout.
    rewrite lookup_insert_ne by done. apply lookup_insert_eq. }
  assert (Hnd : attach_raster c w fs' !! KStr "mini_raster_nodata"
                = Some (match w_nodata fsrc with Some n => PFloat n | None => PNone end)).
  { unfold attach_raster. rewrite Hout. apply lookup_insert_eq. }
  destruct (body_record env c su i l s f fsrc rv fs s2 fs' s3 _ _
              Hf Hwf Hrast Hfit Hb Hc
              (Hshaped "mini_raster_array" _ ltac:(unfold raster_keys; set_solver) Harr))
    as (r & s' & Hbody & Hy & H1).
  destruct (body_record env c su i l s f fsrc rv fs s2 fs' s3 _ _
              Hf Hwf Hrast Hfit Hb Hc
              (Hshaped "mini_raster_affine" _ ltac:(unfold raster_keys; set_solver) Haff))
    as (r2 & s2' & Hbody2 & Hy2 & H2).
  destruct (body_record env c su i l s f fsrc rv fs s2 fs' s3 _ _
              Hf Hwf Hrast Hfit Hb Hc
              (Hshaped "mini_raster_nodata" _ ltac:(unfold raster_keys; set_solver) Hnd))
    as (r3 & s3' & Hbody3 & Hy3 & H3).
  rewrite Hbody in Hbody2, Hbody3. injection Hbody2 as <-. injection Hbody3 as <-.
  rewrite Hy in Hy2, Hy3. apply yield_unique in Hy2 as <-.
  apply yield_unique in Hy3 as <-.
  exists r, s', (mask_window fsrc rv). by split_and!.
Qed.

Lemma raster_out_attaches_the_window_witness :
  ∃ r s' m,
    body Demo.env0
      (Demo.call_shaped [0%nat] (StatsStr "count") (Some "z_") true false false)
      (Demo.setup_of ["count"]) 0 0%nat Demo.start = (Ret tt, s') ∧
    yields (trace s') = yields (trace Demo.start) ++ [r] ∧
    record_lookup s' r (KStr ("z_" +:+ "mini_raster_array")) = Some (PMasked m) ∧
    (add_stats
       (Demo.call_shaped [0%nat] (StatsStr "count") (Some "z_") true false false)
     = None →
     m = mask_window (Demo.win [1; 9999]%Q) (Demo.row [true; true])) ∧
    record_lookup s' r (KStr ("z_" +:+ "mini_raster_affine"))
      = Some (PAffine Demo.aff0) ∧
    record_lookup s' r (KStr ("z_" +:+ "mini_raster_nodata")) = Some (PFloat 9999).
Proof.
  apply (raster_out_attaches_the_window Demo.env0
           (Demo.call_shaped [0%nat] (StatsStr "count") (Some "z_") true false false)
           (Demo.setup_of ["count"]) 0 0%nat Demo.start
           (Feature Demo.gA (Some 10%nat)) (Demo.win [1; 9999]%Q)
           (Demo.row [true; true])
           {[ KStr "count" := PInt 1 ]}
           (rasterized_state Demo.env0 (Demo.setup_of ["count"]) 0
              (Feature Demo.gA (Some 10%nat)) Demo.start)
           {[ KStr "count" := PInt 1 ]}
           (rasterized_state Demo.env0 (Demo.setup_of ["count"]) 0
              (Feature Demo.gA (Some 10%nat)) Demo.start)).
  - by_compute.
  - intros pl [= <-]. by eexists.
  - repeat split; by_compute.
  - repeat split; intros; by_compute.
  - by_compute.
  - by_compute.
  - intros _ q _. by_compute.
  - by_compute.
Defined.

Lemma plain_recognised (names : list string) :
  Forall (λ n, n ∈ plain_names) names → Forall (λ n, recognised n = true) names.
Proof.
  intros H. eapply Forall_impl; [exact H|].
  intros n Hn. unfold plain_names in Hn. set_unfold in Hn.
  by destruct Hn as [->|[->|[->|[->|[->|[->|[->|[->|[->|[]]]]]]]]]].
Qed.

Lemma plain_not_raster_key n : n ∈ plain_names → n ∉ raster_keys.
Proof.
  intros Hn. unfold plain_names in Hn. set_unfold in Hn.
  destruct Hn as [->|[->|[->|[->|[->|[->|[->|[->|[->|[]]]]]]]]]]; by_compute.
Qed.

(** The built-in statistics of a plain selection are always computed, and
    give one entry per requested statistic. *)
Lemma plain_builtin_stats_run env c su i l f fsrc rv s :
  categorical c = false → weights s = false →
  Forall (λ n, n ∈ plain_names) (su_stats su) →
  ∃ fs s2, builtin_stats env c su i l (masked_window_of env su f fsrc rv) s
           = (Ret fs, s2) ∧
           ∀ k, is_Some (fs !! k) ↔ ∃ n, k = KStr n ∧ n ∈ su_stats su.
Proof.
  intros Hcat Hw Hplain.
  set (w := masked_window_of env su f fsrc rv).
  destruct (mw_compressed w) as [|x r] eqn:Hc.
  - eexists _, _. unfold builtin_stats. rewrite Hc. simpl.
    split; [reflexivity|]. apply empty_stats_keys.
  - destruct (plain_table_runs env su (mw_masked w) (mw_compressed w)
                (counted_state su w s) (hist_stats c su w) Hplain)
      as (fs1 & Hran).
    { by rewrite Hc. }
    { rewrite hist_stats_plain by done. intros k v Hk Hv. simpl in Hv.
      destruct Hk as [-> | ->]; by rewrite nodata_stat_lookup in Hv. }
    assert (Hrun : populated_stats env c su i l w s = (Ret fs1, counted_state su w s)).
    { rewrite (populated_stats_run env c su i l w s fs1 Hw Hran).
      by rewrite plain_no_percentiles. }
    exists fs1, (counted_state su w s). unfold builtin_stats. rewrite Hc. simpl.
    split; [exact Hrun|].
    eapply populated_stats_keys; [done|by apply plain_recognised|exact Hrun].
Qed.

(** X16. A feature whose window and mask are obtained is always yielded
    when the selection is plain ([count], [min], [max], [mean], [sum],
    [std], [median], [range], [nodata]), the mode is not categorical, no
    custom statistic is supplied and the weights are off: the built-in
    statistics are computed without an exception, one record is yielded,
    and it holds every requested statistic under its prefixed name. *)
Theorem plain_statistics_always_yield_a_record env c su i l s f fsrc rv :
  feats s !! l = Some f →
  (∀ pl, f_properties f = Some pl → is_Some (dicts s !! pl)) →
  rasterized env su i f fsrc rv → arrays_fit env su i →
  categorical c = false → add_stats c = None → weights s = false →
  Forall (λ n, n ∈ plain_names) (su_stats su) → su_stats su ≠ [] →
  ∃ fs s2 r s',
    builtin_stats env c su i l (masked_window_of env su f fsrc rv)
      (rasterized_state env su i f s) = (Ret fs, s2) ∧
    body env c su i l s = (Ret tt, s') ∧
    yields (trace s') = yields (trace s) ++ [r] ∧
    ∀ name, name ∈ su_stats su →
      ∃ v, fs !! KStr name = Some v ∧
           record_lookup s' r (KStr (default "" (prefix c) +:+ name)) = Some v.
Proof.
  intros Hf Hwf Hrast Hfit Hcat Hadd Hw Hplain Hne.
  set (w := masked_window_of env su f fsrc rv).
  assert (Hw1 : weights (rasterized_state env su i f s) = false).
  { unfold rasterized_state, after_point. simpl.
    by destruct (str_contains _ _). }
  destruct (plain_builtin_stats_run env c su i l f fsrc rv
              (rasterized_state env su i f s) Hcat Hw1 Hplain)
    as (fs & s2 & Hb & Hkeys).
  fold w in Hb.
  assert (Hc : custom_stats c i (mask_window fsrc rv) fs s2 = (Ret fs, s2)).
  { unfold custom_stats. by rewrite Hadd. }
  assert (Hstr : string_keys fs).
  { intros k Hk. apply Hkeys in Hk as (n & -> & _). by eexists. }
  assert (Hrec : ∀ name, name ∈ su_stats su →
            ∃ v r s', fs !! KStr name = Some v ∧
              body env c su i l s = (Ret tt, s') ∧
              yields (trace s') = yields (trace s) ++ [r] ∧
              record_lookup s' r (KStr (default "" (prefix c) +:+ name)) = Some v).
  { intros name Hin.
    destruct (proj2 (Hkeys (KStr name))) as [v Hv]; [by eauto|].
    destruct (body_record env c su i l s f fsrc rv fs s2 fs s2
                (KStr (default "" (prefix c) +:+ name)) v Hf Hwf Hrast Hfit Hb Hc)
      as (r & s' & Hbody & Hy & Hr).
    { rewrite Forall_forall in Hplain.
      pose proof (plain_not_raster_key name (Hplain name Hin)) as Hnr.
      destruct (prefix c) as [p|] eqn:Hp.
      - pose proof (apply_prefix_lookup env c
            (attach_raster c (masked_window_of env su f fsrc rv) fs) name) as H.
        rewrite Hp in H. simpl in *. rewrite H.
        + by rewrite attach_raster_other.
        + by apply attach_raster_string_keys.
      - unfold apply_prefix. rewrite Hp. simpl. by rewrite attach_raster_other. }
    by exists v, r, s'. }
  destruct (su_stats su) as [|n0 names] eqn:Hs; [done|].
  destruct (Hrec n0) as (v0 & r & s' & _ & Hbody & Hy & _); [apply list_elem_of_here|].
  exists fs, s2, r, s'. split; [done|]. split; [done|]. split; [done|].
  intros name Hin. destruct (Hrec name Hin) as (v & r' & s'' & Hv & Hbody' & Hy' & Hr).
  rewrite Hbody in Hbody'. injection Hbody' as <-.
  rewrite Hy in Hy'. apply yield_unique in Hy' as <-. eauto.
Qed.

Lemma plain_statistics_always_yield_a_record_witness :
  ∃ fs s2 r s',
    builtin_stats Demo.env0 (Demo.call_with [2%nat] (StatsStr "count mean range"))
      (Demo.setup_of ["count"; "mean"; "range"]) 0 2%nat
      (masked_window_of Demo.env0 (Demo.setup_of ["count"; "mean"; "range"])
         (Feature Demo.gB (Some 12%nat)) (Demo.win [3; 4; 5]%Q)
         (Demo.row [true; true; true]))
      (rasterized_state Demo.env0 (Demo.setup_of ["count"; "mean"; "range"]) 0
         (Feature Demo.gB (Some 12%nat)) Demo.start) = (Ret fs, s2) ∧
    body Demo.env0 (Demo.call_with [2%nat] (StatsStr "count mean range"))
      (Demo.setup_of ["count"; "mean"; "range"]) 0 2%nat Demo.start = (Ret tt, s') ∧
    yields (trace s') = yields (trace Demo.start) ++ [r] ∧
    ∀ name, name ∈ ["count"; "mean"; "range"] →
      ∃ v, fs !! KStr name = Some v ∧
           record_lookup s' r (KStr ("" +:+ name)) = Some v.
Proof.
  apply (plain_statistics_always_yield_a_record Demo.env0
           (Demo.call_with [2%nat] (StatsStr "count mean range"))
           (Demo.setup_of ["count"; "mean"; "range"]) 0 2%nat Demo.start
           (Feature Demo.gB (Some 12%nat)) (Demo.win [3; 4; 5]%Q)
           (Demo.row [true; true; true])).
  - by_compute.
  - intros pl [= <-]. by eexists.
  - repeat split; by_compute.
  - repeat split; intros; by_compute.
  - by_compute.
  - by_compute.
  - by_compute.
  - by_compute.
  - done.
Defined.

(** X17. The values that enter the statistics of a feature are exactly the
    values of the window cells that the rasterized geometry covers and
    that differ from the window's nodata value, in row-major order. *)
Theorem valid_values_are_the_covered_cells_without_nodata env su i l s w s' :
  acquire env su i l s = (Ret w, s') →
  ∃ f fsrc rv,
    feats s !! l = Some f ∧
    rast_read env i (su_rast su) (bounds (footprint env su f)) = Ok fsrc ∧
    rasterize_geom env i (footprint env su f) fsrc (su_all_touched su) = Ok rv ∧
    mw_compressed w =
      List.filter (λ x, negb (is_nodata (w_nodata fsrc) x)) (covered_values fsrc rv).
Proof.
  intros H. apply acquire_inv in H as (f & fsrc & rv & Hf & Hrast & _ & -> & _).
  destruct Hrast as (Hr & Hz & _).
  exists f, fsrc, rv. split_and!; try done. apply compressed_mask_window.
Qed.

Lemma valid_values_are_the_covered_cells_without_nodata_witness :
  ∃ f fsrc rv,
    Demo.fe0 !! 0%nat = Some f ∧
    rast_read Demo.env0 0 (su_rast (Demo.setup_of ["count"]))
      (bounds (footprint Demo.env0 (Demo.setup_of ["count"]) f)) = Ok fsrc ∧
    rasterize_geom Demo.env0 0 (footprint Demo.env0 (Demo.setup_of ["count"]) f)
      fsrc false = Ok rv ∧
    [1%Q] = List.filter (λ x, negb (is_nodata (w_nodata fsrc) x))
              (covered_values fsrc rv).
Proof.
  apply (valid_values_are_the_covered_cells_without_nodata Demo.env0
           (Demo.setup_of ["count"]) 0 0%nat Demo.start
           (Demo.window_of ["count"] (Feature Demo.gA (Some 10%nat)) [1; 9999]%Q)
           (rasterized_state Demo.env0 (Demo.setup_of ["count"]) 0
              (Feature Demo.gA (Some 10%nat)) Demo.start)).
  by_compute.
Defined.

(** ** Percentiles *)

(** X19. Every requested [percentile_...] statistic of a feature with
    valid cells is the percentile that its name specifies, taken of the
    valid values, and is stored under its full name. *)
Theorem percentiles_are_taken_of_the_valid_values env c su i l w s fs s' name :
  mw_compressed w ≠ [] →
  name ∈ su_stats su → String.prefix "percentile_" name = true →
  builtin_stats env c su i l w s = (Ret fs, s') →
  ∃ q, get_percentile name = Ok q ∧
       fs !! KStr name = Some (PFloat (np_percentile env (mw_compressed w) q)).
Proof.
  intros Hne Hin Hpre H. apply builtin_stats_populated in H; [|done].
  apply populated_stats_inv in H as (s1 & fs1 & _ & _ & _ & Hfold).
  apply percentile_fold_inv in Hfold as (_ & _ & Hp & _).
  apply Hp. apply list_elem_of_In, filter_In. split; [by apply list_elem_of_In|done].
Qed.

Lemma percentiles_are_taken_of_the_valid_values_witness :
  ∃ q, get_percentile "percentile_50" = Ok q ∧
       ({[ KStr "percentile_50" := PFloat 0 ]} : pydict) !! KStr "percentile_50" =
       Some (PFloat (np_percentile Demo.env0 [3; 4; 5]%Q q)).
Proof.
  apply (percentiles_are_taken_of_the_valid_values Demo.env0
           (Demo.call_with [2%nat] (StatsStr "percentile_50"))
           (Demo.setup_of ["percentile_50"]) 0 2%nat
           (Demo.window_of ["percentile_50"] (Feature Demo.gB (Some 12%nat))
              [3; 4; 5]%Q)
           Demo.start _ Demo.start "percentile_50").
  - by vm_compute.
  - by_compute.
  - by_compute.
  - by_compute.
Defined.

(** ** Prefixing *)

Lemma foldl_insert_keys {V} (g : key → key) (l : list (key * V)) :
  ∀ (m : gmap key V) k,
  is_Some (foldl (λ acc kv, <[g kv.1 := kv.2]> acc) m l !! k) ↔
  is_Some (m !! k) ∨ ∃ kv, kv ∈ l ∧ k = g kv.1.
Proof.
  induction l as [|kv l IH]; intros m k; simpl.
  - split; [by left|]. intros [?|(kv & Hin & _)]; [done|].
    by apply elem_of_nil in Hin.
  - rewrite IH, lookup_insert. setoid_rewrite elem_of_cons. split.
    + intros [Hk|(kv' & Hin & ->)].
      * case_decide as Heq; [|by left]. right. exists kv. by split; [left|].
      * right. exists kv'. by split; [right|].
    + intros [Hk|(kv' & [->|Hin] & ->)].
      * left. case_decide; [by eauto|done].
      * left. rewrite decide_True by done. by eauto.
      * right. by exists kv'.
Qed.

(** X20. With a prefix, the keys of the shaped result set are exactly the
    prefix followed by the text of a key of the result set; a numeric
    histogram key turns into a string. *)
Theorem prefix_is_put_before_every_key env c (fs : pydict) p :
  prefix c = Some p →
  ∀ k, is_Some (apply_prefix env c fs !! k) ↔
       ∃ k0, is_Some (fs !! k0) ∧ k = KStr (p +:+ str_of_key env k0).
Proof.
  intros Hp k. unfold apply_prefix. rewrite Hp.
  rewrite (foldl_insert_keys (λ k0, KStr (p +:+ str_of_key env k0))).
  rewrite lookup_empty. split.
  - intros [[? ?]|([k0 v] & Hin & ->)]; [done|].
    apply elem_of_map_to_list in Hin. exists k0. by eauto.
  - intros (k0 & [v Hv] & ->). right. exists (k0, v).
    split; [by apply elem_of_map_to_list|done].
Qed.

Lemma prefix_is_put_before_every_key_witness :
  is_Some (apply_prefix Demo.env0
             (Demo.call_shaped [0%nat] (StatsStr "count") (Some "z_") false false false)
             {[ KStr "count" := PInt 1; KNum 5 := PInt 2 ]} !! KStr "z_n") ↔
  ∃ k0, is_Some (({[ KStr "count" := PInt 1; KNum 5 := PInt 2 ]} : pydict) !! k0) ∧
        KStr "z_n" = KStr ("z_" +:+ str_of_key Demo.env0 k0).
Proof.
  apply (prefix_is_put_before_every_key Demo.env0
           (Demo.call_shaped [0%nat] (StatsStr "count") (Some "z_") false false false)
           {[ KStr "count" := PInt 1; KNum 5 := PInt 2 ]} "z_").
  by_compute.
Defined.

(** ** Every feature is accounted for *)


Lemma reported_app_r evs evs' : reported evs' → reported (evs ++ evs').
Proof. intros [msg H]. exists msg. apply elem_of_app. by right. Qed.

Section Loudly.

Lemma loudly_straight {A} (m : M A) :
  emits no_yield m → (∀ s, (m s).1 ≠ Continue) → skips_loudly m.
Proof.
  intros Hm Hc s. destruct (Hm s) as (evs & Ht & Hall).
  exists evs. split; [done|]. split; [|by intros ?%Hc].
  clear Ht. induction Hall as [|e evs He _ IH]; [done|].
  destruct e; simpl in *; done.
Qed.

Lemma loudly_ret {A} (a : A) : skips_loudly (mret a).
Proof. apply loudly_straight; [apply emits_ret | done]. Qed.

Lemma loudly_raise {A} e : skips_loudly (raise e : M A).
Proof. apply loudly_straight; [apply emits_raise | done]. Qed.

Lemma loudly_lift {A} (r : result A) : skips_loudly (lift r).
Proof. destruct r; [apply loudly_ret | apply loudly_raise]. Qed.

Lemma loudly_get {A} (f : state → A) : skips_loudly (get f).
Proof. apply loudly_straight; [apply emits_get | done]. Qed.

Lemma loudly_modify (f : state → state) :
  (∀ s, trace (f s) = trace s) → skips_loudly (modify f).
Proof. intros H. apply loudly_straight; [by apply emits_modify | done]. Qed.

Lemma loudly_emit e : no_yield e → skips_loudly (emit e).
Proof. intros H. apply loudly_straight; [by apply emits_emit | done]. Qed.

Lemma loudly_get_feat l : skips_loudly (get_feat l).
Proof.
  apply loudly_straight; [apply emits_get_feat|].
  intros s. unfold get_feat. by destruct (feats s !! l).
Qed.

Lemma loudly_get_dict l : skips_loudly (get_dict l).
Proof.
  apply loudly_straight; [apply emits_get_dict|].
  intros s. unfold get_dict. by destruct (dicts s !! l).
Qed.

Lemma loudly_bind {A B} (m : M A) (k : A → M B) :
  skips_loudly m → (∀ a, skips_loudly (k a)) → skips_loudly (m ≫= k).
Proof.
  intros Hm Hk s. rewrite bind_run.
  destruct (Hm s) as (evs & Ht & Hy & Hc).
  destruct (m s) as [[a| |e] s1]; simpl in *;
    [|by exists evs; split_and!; auto..].
  destruct (Hk a s1) as (evs' & Ht' & Hy' & Hc').
  exists (evs ++ evs'). rewrite Ht', Ht, app_assoc, yields_app, Hy, Hy'.
  split; [done|]. split; [done|]. intros Hcont. by apply reported_app_r, Hc'.
Qed.

Lemma loudly_try_memory {A} (m h : M A) :
  skips_loudly m → skips_loudly h → skips_loudly (try_memory m h).
Proof.
  intros Hm Hh s. unfold try_memory.
  destruct (Hm s) as (evs & Ht & Hy & Hc).
  destruct (m s) as [[a| |e] s1]; simpl in *;
    [by exists evs; split_and!; auto..|].
  destruct e; simpl; try by (exists evs; split_and!; auto).
  destruct (Hh s1) as (evs' & Ht' & Hy' & Hc').
  exists (evs ++ evs'). rewrite Ht', Ht, app_assoc, yields_app, Hy, Hy'.
  split; [done|]. split; [done|]. intros Hcont. by apply reported_app_r, Hc'.
Qed.

Lemma loudly_foldM {A B} (f : B → A → M B) l :
  (∀ b a, skips_loudly (f b a)) → ∀ b, skips_loudly (foldM f b l).
Proof.
  intros Hf. induction l as [|x l IH]; intros b; simpl.
  - apply loudly_ret.
  - apply loudly_bind; auto.
Qed.

(** The handlers print their message first. *)
Lemma loudly_skip_feature {A} msg l : skips_loudly (skip_feature msg l : M A).
Proof.
  intros s.
  assert (He : emits no_yield (skip_feature msg l : M A)) by by apply emits_skip_feature.
  destruct (He s) as (evs & Ht & Hall). exists evs. split; [done|].
  assert (Hy : yields evs = []).
  { clear Ht. induction Hall as [|e evs' Hn _ IH]; [done|].
    destruct e; simpl in *; done. }
  split; [done|]. intros _. exists msg.
  unfold skip_feature in Ht. rewrite bind_run in Ht. unfold emit, modify in Ht.
  simpl in Ht.
  pose proof (emits_silent (λ _, True)
                (print_properties l ≫= λ _ : (), (continue_ : M A))) as _.
  assert (Hp : emits (λ _, True) (print_properties l ≫= λ _ : (), (continue_ : M A))).
  { unfold print_properties. apply emits_bind; [|intros ?; apply emits_continue].
    apply emits_bind; [apply emits_feat_properties|]. intros pl.
    apply emits_bind; [apply emits_get_dict|]. intros d. by apply emits_emit. }
  destruct (Hp (set_trace (trace s ++ [EvPrint (PrMsg msg)]) s)) as (evs2 & Ht2 & _).
  rewrite Ht2 in Ht. simpl in Ht. rewrite <- app_assoc in Ht.
  apply app_inv_head in Ht. subst evs. apply list_elem_of_here.
Qed.

End Loudly.

Ltac loudly_step :=
  match goal with
  | |- skips_loudly (let _ := _ in _) => cbv zeta
  | |- skips_loudly (mbind _ _) => apply loudly_bind; [|intros ?]
  | |- skips_loudly (try_memory _ _) => apply loudly_try_memory
  | |- skips_loudly (foldM _ _ _) => apply loudly_foldM; intros ? ?
  | |- skips_loudly (skip_feature _ _) => apply loudly_skip_feature
  | |- skips_loudly (emit _) => apply loudly_emit; exact I
  | |- skips_loudly (mret _) => apply loudly_ret
  | |- skips_loudly (raise _) => apply loudly_raise
  | |- skips_loudly (lift _) => apply loudly_lift
  | |- skips_loudly (get_feat _) => apply loudly_get_feat
  | |- skips_loudly (get_dict _) => apply loudly_get_dict
  | |- skips_loudly (get _) => apply loudly_get
  | |- skips_loudly (modify _) => apply loudly_modify; intros ?; reflexivity
  | |- skips_loudly (when ?b _) => destruct b; [unfold when|apply loudly_ret]
  | |- skips_loudly (if ?b then _ else _) => destruct b
  | |- skips_loudly (match ?x with _ => _ end) => destruct x
  end.

Section Accounts.
Context (env : collaborators) (c : call) (su : setup).






Lemma accounts_bind {A B} P (m : M A) (k : A → M B) :
  skips_loudly m → (∀ a, accounts P (k a)) → accounts P (m ≫= k).
Proof.
  intros Hm Hk s. rewrite bind_run.
  destruct (Hm s) as (evs & Ht & Hy & Hc).
  destruct (m s) as [[a| |e] s1]; simpl in *;
    [|by exists evs; split_and!; auto..].
  destruct (Hk a s1) as (evs' & Ht' & Hr).
  exists (evs ++ evs'). rewrite Ht', Ht, app_assoc, yields_app, Hy. simpl.
  split; [done|]. destruct ((k a s1).1); [done| |done].
  destruct Hr as [? ?]. split; [done|]. by apply reported_app_r.
Qed.

Lemma accounts_emit P r : P r → accounts P (emit (EvYield r)).
Proof. intros Hr s. exists [EvYield r]. simpl. split; [done|]. eauto. Qed.

(** Merging neither yields nor abandons the iteration. *)
Lemma loudly_merge_item l kv : skips_loudly (merge_item l kv).
Proof.
  unfold merge_item. repeat loudly_step.
  apply loudly_straight; [apply emits_new_properties | done].
Qed.

Lemma loudly_feat_properties l : skips_loudly (feat_properties l).
Proof. unfold feat_properties. repeat loudly_step. Qed.

Lemma emit_record_accounts l fs : accounts (record_of c l) (emit_record c l fs).
Proof.
  unfold emit_record, record_of.
  destruct (geojson_out c) eqn:Hg; simpl.
  - apply accounts_bind; [|intros _; by apply accounts_emit].
    apply loudly_foldM. intros ? ?. apply loudly_merge_item.
  - destruct (save_properties c) eqn:Hs.
    + apply accounts_bind.
      { apply loudly_foldM. intros ? ?. apply loudly_merge_item. }
      intros _. apply accounts_bind; [apply loudly_feat_properties|].
      intros pl. apply accounts_emit. by eexists.
    + apply accounts_emit. by eexists.
Qed.



End Accounts.




(** ** The records of a run *)



(** ** The raster *)

(** X23. Either the validation of the selection fails and nothing else
    happens, or the raster is opened exactly once, after the validation and
    the deprecation warnings and before anything is read, and it is closed
    as the last thing the run does, whether the loop completes or ends with
    an exception. *)
Theorem raster_is_opened_once_and_closed_last env c fe di :
  (∃ e, gen_zonal_stats env c fe di =
        (Raised e, State [EvCheckStats] false None None fe di)) ∨
  (∃ ws evs cfg su,
     trace (gen_zonal_stats env c fe di).2 =
       EvCheckStats :: ws ++ EvOpen cfg :: evs ++ [EvClose] ∧
     Forall (λ e, ∃ msg, e = EvWarn msg) ws ∧
     Forall (loop_event su) evs).
Proof.
  destruct (gen_zonal_stats_trace env c fe di)
    as [(e & He & Hg)|(sts & rc & wts & evs & Hc & Ht & Hall)]; [left; eauto|].
  right. cbv zeta in Ht.
  exists (configure c sts rc wts).1, evs, (su_rast (configure c sts rc wts).2),
    (configure c sts rc wts).2.
  split; [by rewrite Ht|]. split; [|done].
  apply Forall_forall. intros e. apply configure_warnings.
Qed.

(** X24. The arguments with which the raster is opened: the band is
    [band_num]; the nodata value is the caller's [nodata] when that is a
    number other than zero, else the deprecated [nodata_value] when that is
    a number other than zero -- so it replaces an explicit [nodata] of zero
    -- and else [nodata]; the affine is the caller's [affine] when given,
    else the one of the deprecated [transform], if any. *)
Theorem raster_is_opened_with_the_resolved_arguments env c fe di cfg :
  EvOpen cfg ∈ trace (gen_zonal_stats env c fe di).2 →
  rc_band cfg = band_num c ∧
  (truthy_num (nodata c) = true → rc_nodata cfg = nodata c) ∧
  (truthy_num (nodata c) = false → truthy_num (kw_nodata_value c) = true →
   rc_nodata cfg = kw_nodata_value c) ∧
  (truthy_num (kw_nodata_value c) = false → rc_nodata cfg = nodata c) ∧
  (is_Some (affine_arg c) → rc_affine cfg = affine_arg c) ∧
  (affine_arg c = None → rc_affine cfg = from_gdal <$> kw_transform c).
Proof.
  intros Hin.
  destruct (gen_zonal_stats_trace env c fe di)
    as [(e & _ & Hg)|(sts & rc & wts & evs & Hc & Ht & Hall)].
  { rewrite Hg in Hin. by apply list_elem_of_singleton in Hin. }
  cbv zeta in Ht. rewrite Ht in Hin.
  rewrite !elem_of_app, !list_elem_of_singleton in Hin.
  destruct Hin as [Hin|[Hin|[Hin|[Hin|Hin]]]]; try discriminate.
  { apply configure_warnings in Hin as [msg Hin]. discriminate. }
  2:{ rewrite Forall_forall in Hall. apply Hall in Hin. inversion Hin. }
  injection Hin as ->. unfold configure. simpl. split_and!.
  - done.
  - intros ->. by rewrite andb_false_r.
  - by intros -> ->.
  - by intros ->.
  - intros [a ->]. by destruct (kw_transform c).
  - intros ->. by destruct (kw_transform c).
Qed.

Lemma raster_is_opened_with_the_resolved_arguments_witness :
  rc_band (RasterCfg (Some (Affine 1 0 0 0 (-1) 0)) (Some 5%Q) 2) = 2%nat ∧
  (truthy_num (Some 0%Q) = true →
   rc_nodata (RasterCfg (Some (Affine 1 0 0 0 (-1) 0)) (Some 5%Q) 2) = Some 0%Q) ∧
  (truthy_num (Some 0%Q) = false → truthy_num (Some 5%Q) = true →
   rc_nodata (RasterCfg (Some (Affine 1 0 0 0 (-1) 0)) (Some 5%Q) 2) = Some 5%Q) ∧
  (truthy_num (Some 5%Q) = false →
   rc_nodata (RasterCfg (Some (Affine 1 0 0 0 (-1) 0)) (Some 5%Q) 2) = Some 0%Q) ∧
  (is_Some (None : option affine) →
   rc_affine (RasterCfg (Some (Affine 1 0 0 0 (-1) 0)) (Some 5%Q) 2) = None) ∧
  ((None : option affine) = None →
   rc_affine (RasterCfg (Some (Affine 1 0 0 0 (-1) 0)) (Some 5%Q) 2) =
   from_gdal <$> Some (0, 1, 0, 0, 0, -1)%Q).
Proof.
  apply (raster_is_opened_with_the_resolved_arguments Demo.env0
           (Demo.call_deprecated [0%nat]) Demo.fe0 Demo.di0
           (RasterCfg (Some (Affine 1 0 0 0 (-1) 0)) (Some 5%Q) 2)).
  by_compute.
Defined.

(** ** Memory errors that are handled *)

Lemma guarded_events_yield_nothing env su i f msg evs :
  guarded_memory_error env su i f msg evs → yields evs = [].
Proof. by intros []. Qed.

(** X26. A memory error inside one of the five [try] blocks, for a feature
    that has properties, costs that feature only: the message and the
    properties are printed, nothing is yielded for it, the features are
    left as they were, and the loop goes on with the next feature. The
    first part is about the window, the mask, the masked array and the
    compressed list, the second about the coverage weights. *)
Theorem guarded_memory_error_skips_only_the_feature
    env c su i l ls s f pl d :
  feats s !! l = Some f → f_properties f = Some pl → dicts s !! pl = Some d →
  (∀ msg evs, guarded_memory_error env su i f msg evs →
     ∃ s1, loop env c su i (l :: ls) s = loop env c su (S i) ls s1 ∧
           trace s1 = trace s ++ evs ++ [EvPrint (PrMsg msg); EvPrint (PrProps d)] ∧
           yields (trace s1) = yields (trace s) ∧
           feats s1 = feats s ∧ dicts s1 = dicts s) ∧
  (∀ fsrc rv,
     rasterized env su i f fsrc rv → arrays_fit env su i →
     ma_compressed (mask_window fsrc rv) ≠ [] →
     weights (after_point f s) = true →
     rasterize_pctcover env i (footprint env su f) (w_affine fsrc) (w_shape fsrc)
       = Raise MemoryError →
     ∃ s1, loop env c su i (l :: ls) s = loop env c su (S i) ls s1 ∧
           trace s1 = trace s ++
             [EvRead i (bounds (footprint env su f));
              EvRasterize i (footprint env su f) (su_all_touched su);
              EvPctcover i (footprint env su f);
              EvPrint (PrMsg msg_pctcover); EvPrint (PrProps d)] ∧
           yields (trace s1) = yields (trace s) ∧
           feats s1 = feats s ∧ dicts s1 = dicts s).
Proof.
  intros Hf Hp Hd. split.
  - intros msg evs Hg. eexists. split; [by eapply memory_error_skips_feature|].
    destruct (after_point_store f s) as (Hfe & Hdi & _).
    split; [done|]. split; [|by split].
    cbn [trace set_trace]. rewrite !yields_app.
    rewrite (guarded_events_yield_nothing _ _ _ _ _ _ Hg). simpl.
    by rewrite app_nil_r.
  - intros fsrc rv Hrast Hfit Hne Hw Hpct.
    destruct (coverage_memory_error_skips_feature env c su i l ls s f pl d fsrc rv
                Hf Hp Hd Hrast Hfit Hne Hw Hpct) as (s1 & Hloop & Ht & Hfe & Hdi).
    exists s1. split; [done|]. split; [done|]. split; [|by split].
    rewrite Ht, yields_app. simpl. by rewrite app_nil_r.
Qed.

Lemma guarded_memory_error_skips_only_the_feature_witness :
  ∃ s1,
    loop Demo.env0 (Demo.call_with [7; 2]%nat (StatsStr "count"))
      (Demo.setup_of ["count"]) 0 [7; 2]%nat Demo.start =
    loop Demo.env0 (Demo.call_with [7; 2]%nat (StatsStr "count"))
      (Demo.setup_of ["count"]) 1 [2%nat] s1 ∧
    trace s1 = trace Demo.start ++ [EvRead 0 (bounds Demo.gM)] ++
                 [EvPrint (PrMsg msg_fsrc);
                  EvPrint (PrProps {[ KStr "name" := PStr "A" ]})] ∧
    yields (trace s1) = yields (trace Demo.start) ∧
    feats s1 = feats Demo.start ∧ dicts s1 = dicts Demo.start.
Proof.
  apply (guarded_memory_error_skips_only_the_feature Demo.env0
           (Demo.call_with [7; 2]%nat (StatsStr "count"))
           (Demo.setup_of ["count"]) 0 7%nat [2%nat] Demo.start
           (Feature Demo.gM (Some 10%nat)) 10%nat {[ KStr "name" := PStr "A" ]}).
  - by_compute.
  - by_compute.
  - by_compute.
  - apply (gme_window Demo.env0 (Demo.setup_of ["count"]) 0
             (Feature Demo.gM (Some 10%nat))).
    by_compute.
Defined.

(** ** The events of a completed iteration *)

Lemma only_yields_one (evs : list event) r :
  Forall (λ e, ∃ r', e = EvYield r') evs → yields evs = [r] → evs = [EvYield r].
Proof.
  intros Hall Hy. destruct Hall as [|e evs [r1 ->] Hall]; [done|].
  simpl in Hy. injection Hy as -> Hy.
  destruct Hall as [|e evs [r2 ->] _]; [done|]. done.
Qed.

Section Completed.
Context (env : collaborators) (c : call) (su : setup).

Lemma builtin_stats_events i l w s fs s2 :
  builtin_stats env c su i l w s = (Ret fs, s2) →
  ∃ evs, trace s2 = trace s ++ evs ∧ Forall (computing i) evs.
Proof.
  unfold builtin_stats. destruct (_ =? _)%nat.
  - intros [= <- <-]. exists []. by rewrite app_nil_r.
  - intros H.
    apply populated_stats_inv in H as (s1 & fs1 & Hprep & -> & _).
    destruct Hprep as (_ & _ & _ & _ & Hp). destruct (weights s).
    + destruct Hp as (p & _ & _ & ->). eexists. split; [done|].
      constructor; [|constructor]. left. by eexists.
    + destruct Hp as [_ ->]. exists []. by rewrite app_nil_r.
Qed.

Lemma custom_stats_events i masked fs s2 fs' s3 :
  custom_stats c i masked fs s2 = (Ret fs', s3) →
  ∃ evs, trace s3 = trace s2 ++ evs ∧ Forall (computing i) evs.
Proof.
  intros H.
  assert (He : emits (computing i) (custom_stats c i masked fs)).
  { apply emits_custom_stats. intros name. right. by eexists _, _. }
  destruct (He s2) as (evs & Ht & Hall). rewrite H in Ht. eauto.
Qed.

Lemma emit_record_events l fs s3 s' :
  emit_record c l fs s3 = (Ret tt, s') →
  ∃ r, trace s' = trace s3 ++ [EvYield r] ∧ record_of c l r.
Proof.
  intros H.
  assert (He : emits (λ e, ∃ r', e = EvYield r') (emit_record c l fs)).
  { apply emits_emit_record. intros r'. by eexists. }
  destruct (He s3) as (evs & Ht & Hall).
  destruct (emit_record_accounts c l fs s3) as (evs' & Ht' & Hr).
  rewrite H in Ht, Ht', Hr. simpl in *.
  rewrite Ht in Ht'. apply app_inv_head in Ht'. subst evs'.
  destruct Hr as (r & Hy & Hr). exists r. split; [|done].
  by rewrite Ht, (only_yields_one evs r Hall Hy).
Qed.

End Completed.

(** X27. The events of a completed iteration: the window of the feature --
    of its box, for a point -- is read once, then the geometry is
    rasterized once; then, at most, the coverage is rasterized and the
    custom statistics are called; the [yield] of the record comes last. *)
Theorem a_yielded_feature_is_read_and_rasterized_once env c su i l s s' :
  body env c su i l s = (Ret tt, s') →
  ∃ f mid r,
    feats s !! l = Some f ∧
    trace s' = trace s ++
      [EvRead i (bounds (footprint env su f));
       EvRasterize i (footprint env su f) (su_all_touched su)] ++
      mid ++ [EvYield r] ∧
    Forall (computing i) mid ∧ record_of c l r.
Proof.
  intros H. unfold body in H.
  apply bind_ret_inv in H as (w & s1 & Hacq & H).
  apply acquire_inv in Hacq as (f & fsrc & rv & Hf & _ & _ & -> & ->).
  unfold aggregate in H.
  apply bind_ret_inv in H as (fs & s2 & Hb & H).
  apply bind_ret_inv in H as (fs' & s3 & Hc & H).
  apply builtin_stats_events in Hb as (evs1 & Ht1 & Hall1).
  apply custom_stats_events in Hc as (evs2 & Ht2 & Hall2).
  apply emit_record_events in H as (r & Ht3 & Hr).
  exists f, (evs1 ++ evs2), r. split; [done|]. split; [|split; [|done]].
  - assert (Ht0 : trace (rasterized_state env su i f s) = trace s ++
               [EvRead i (bounds (footprint env su f));
                EvRasterize i (footprint env su f) (su_all_touched su)]).
    { unfold rasterized_state. simpl.
      by destruct (after_point_store f s) as (_ & _ & Ht & _); rewrite ?Ht. }
    rewrite Ht3, Ht2, Ht1, Ht0. by rewrite <- !app_assoc.
  - by apply Forall_app.
Qed.

Lemma a_yielded_feature_is_read_and_rasterized_once_witness :
  ∃ f mid r,
    feats Demo.start !! 2%nat = Some f ∧
    trace (State [EvRead 0 (bounds Demo.gB); EvRasterize 0 Demo.gB false;
                  EvYield (YStats {[ KStr "count" := PInt 3 ]})]
             false None None Demo.fe0 Demo.di0) =
      trace Demo.start ++
      [EvRead 0 (bounds (footprint Demo.env0 (Demo.setup_of ["count"]) f));
       EvRasterize 0 (footprint Demo.env0 (Demo.setup_of ["count"]) f) false] ++
      mid ++ [EvYield r] ∧
    Forall (computing 0) mid ∧
    record_of (Demo.call_with [2%nat] (StatsStr "count")) 2%nat r.
Proof.
  apply (a_yielded_feature_is_read_and_rasterized_once Demo.env0
           (Demo.call_with [2%nat] (StatsStr "count")) (Demo.setup_of ["count"])
           0 2%nat Demo.start).
  by_compute.
Defined.
